(** * InSales synchronisation for Odoo: a shallow embedding

    The development follows [insales_sync/models]:
    - [exc.py]          the module's exceptions and their messages;
    - [config.py]       configurations, quantity mappings and the category
                        mirror with its downward propagation of [sync];
    - [product.py]      the link fields on products and the stock lookup
                        [insales_sync_get_quantity];
    - [sync_product.py] the reconciliation engine.

    Python values that arrive from the remote API are dynamically typed and
    are kept so ([pyval]).  Numbers are exact decimals ([dec]): a Python
    [Decimal] is one, and so is a float, a double being a finite binary
    fraction.  Where the code adds or subtracts floats the result is
    rounded to the nearest double, as the machine does; a character of a
    string is a code point below 256.  Effects (log records, remote calls,
    ORM writes) are threaded
    through a state-and-exception monad [M] over a [World]; an exception
    leaves the effects performed before it in place, as in Python. *)

From Stdlib Require Import ZArith List String Ascii Bool Lia.
Local Open Scope string_scope.
Import ListNotations.
Local Open Scope list_scope.
Local Open Scope Z_scope.
Set Warnings "-register-all".

(** ** Exact decimal numbers *)

Record dec : Type := mkdec { mant : Z; scale : nat }.

Definition pow10 (n : nat) : Z := 10 ^ Z.of_nat n.

Definition dec_of_Z (z : Z) : dec := mkdec z 0.

Definition dec_compare (a b : dec) : comparison :=
  (mant a * pow10 (scale b)) ?= (mant b * pow10 (scale a)).

Definition dec_eqb (a b : dec) : bool :=
  match dec_compare a b with Eq => true | _ => false end.

Definition dec_ltb (a b : dec) : bool :=
  match dec_compare a b with Lt => true | _ => false end.

Definition dec_leb (a b : dec) : bool :=
  match dec_compare a b with Gt => false | _ => true end.

Definition dec_add (a b : dec) : dec :=
  mkdec (mant a * pow10 (scale b) + mant b * pow10 (scale a))
        (scale a + scale b).

Definition dec_sub (a b : dec) : dec :=
  mkdec (mant a * pow10 (scale b) - mant b * pow10 (scale a))
        (scale a + scale b).

Definition dec_abs (a : dec) : dec := mkdec (Z.abs (mant a)) (scale a).

(** [int(x)] on a number: truncation toward zero. *)
Definition dec_trunc (a : dec) : Z := Z.quot (mant a) (pow10 (scale a)).

(** [max(x, 0)]: Python returns the second argument only when it is
    strictly greater than the first. *)
Definition max0 (x : dec) : dec :=
  if dec_ltb x (dec_of_Z 0) then dec_of_Z 0 else x.

(** ** Printing and reading numbers *)

Definition digit_char (n : Z) : ascii := ascii_of_nat (48 + Z.to_nat n).

Definition digit_of (c : ascii) : option Z :=
  let n := nat_of_ascii c in
  if ((48 <=? n) && (n <=? 57))%nat then Some (Z.of_nat (n - 48)) else None.

(** The digits of [n >= 0], most significant first, in front of [acc];
    [fuel] bounds their number. *)
Fixpoint digits_of (fuel : nat) (n : Z) (acc : string) : string :=
  match fuel with
  | O => acc
  | S fuel' =>
      let acc' := String (digit_char (n mod 10)) acc in
      if n / 10 =? 0 then acc' else digits_of fuel' (n / 10) acc'
  end.

(** A number has at most [log2 n + 1] decimal digits. *)
Definition str_of_nonneg (n : Z) : string :=
  digits_of (S (Z.to_nat (Z.log2 n))) n "".

(** [str(z)] *)
Definition str_of_Z (z : Z) : string :=
  if z <? 0 then String "-" (str_of_nonneg (- z)) else str_of_nonneg z.

(** Exactly [w] decimal digits of [n], zero padded on the left. *)
Fixpoint digits_fixed (w : nat) (n : Z) : string :=
  match w with
  | O => EmptyString
  | S w' => (digits_fixed w' (n / 10) ++ String (digit_char (n mod 10)) EmptyString)%string
  end.

(** A number in fixed-point notation with [scale] digits after the point. *)
Definition dec_str (d : dec) : string :=
  let a := Z.abs (mant d) in
  ((if (mant d <? 0)%Z then "-" else "")
   ++ str_of_nonneg (a / pow10 (scale d))%Z
   ++ match scale d with
      | O => ""
      | S _ => "." ++ digits_fixed (scale d) (a mod pow10 (scale d))%Z
      end)%string.

Fixpoint digits_val (acc : Z) (s : string) : option Z :=
  match s with
  | EmptyString => Some acc
  | String c s' =>
      match digit_of c with
      | Some n => digits_val (10 * acc + n) s'
      | None => None
      end
  end.

(** The text before the first ["."] and the text after it. *)
Fixpoint split_point (s : string) : string * option string :=
  match s with
  | EmptyString => (EmptyString, None)
  | String c s' =>
      if Ascii.eqb c "." then (EmptyString, Some s')
      else let (a, b) := split_point s' in (String c a, b)
  end.

Definition unsigned_decimal (neg : bool) (body : string) : option dec :=
  let (ip, fp) := split_point body in
  let f := match fp with Some f => f | None => "" end in
  match (ip ++ f)%string with
  | EmptyString => None
  | String _ _ =>
      match digits_val 0 (ip ++ f) with
      | Some v => Some (mkdec (if neg then - v else v) (String.length f))
      | None => None
      end
  end.

(** [Decimal(s)] on fixed-point literals: a sign, digits, and digits after
    a point (the literals [float_repr] prints are of this form); [None] is
    [InvalidOperation]. *)
Definition Decimal (s : string) : option dec :=
  match s with
  | String "-" body => unsigned_decimal true body
  | String "+" body => unsigned_decimal false body
  | _ => unsigned_decimal false s
  end.

Definition is_digit (c : ascii) : bool :=
  match digit_of c with Some _ => true | None => false end.

Fixpoint all_digits (s : string) : bool :=
  match s with
  | EmptyString => true
  | String c s' => is_digit c && all_digits s'
  end.

(** ** [odoo.tools.float_utils] on exact decimals *)

Module float_utils.

(** [n / d] rounded to the nearest integer, ties to even ([d > 0]). *)
Definition round_half_even (n d : Z) : Z :=
  let q := n / d in
  match 2 * (n mod d) ?= d with
  | Lt => q
  | Gt => q + 1
  | Eq => if Z.even q then q else q + 1
  end.

(** [n / d] rounded to the nearest integer, ties away from zero. *)
Definition round_half_up (n d : Z) : Z :=
  Z.sgn n * ((2 * Z.abs n + d) / (2 * d)).

(** The number that ["%.*f" % (precision_digits, value)] prints. *)
Definition float_repr_dec (value : dec) (precision_digits : nat) : dec :=
  mkdec (round_half_even (mant value * pow10 precision_digits)
                         (pow10 (scale value)))
        precision_digits.

Definition float_repr (value : dec) (precision_digits : nat) : string :=
  dec_str (float_repr_dec value precision_digits).

Definition float_round (value : dec) (precision_digits : nat) : dec :=
  mkdec (round_half_up (mant value * pow10 precision_digits)
                       (pow10 (scale value)))
        precision_digits.

(** [abs(float_round(value, epsilon)) < epsilon] with
    [epsilon = 10 ** -precision_digits]. *)
Definition float_is_zero (value : dec) (precision_digits : nat) : bool :=
  dec_ltb (dec_abs (float_round value precision_digits))
          (mkdec 1 precision_digits).

End float_utils.
Import float_utils.

(** ** Python floats

    A float is a double: [m * 2 ^ e] with [|m| < 2 ^ 53] and [e >= -1074].
    A [Float] field reads as the double nearest to the stored number, and
    [+] and [-] on floats give the double nearest to the exact result, ties
    going to the even mantissa.  Magnitudes stay below the largest double
    (stock quantities do), so no result is infinite. *)

(** [floor (log2 (n / d))] for [n, d > 0] *)
Definition log2_ratio (n d : Z) : Z :=
  let k := Z.log2 n - Z.log2 d in
  if (if 0 <=? k then d * 2 ^ k <=? n else d <=? n * 2 ^ (- k))
  then k else k - 1.

(** The double nearest to [n / d], for [d > 0]. *)
Definition nearest_double (n d : Z) : dec :=
  if n =? 0 then mkdec 0 0
  else
    let a := Z.abs n in
    let e := Z.max (log2_ratio a d - 52) (-1074) in
    let m := if 0 <=? e then round_half_even a (d * 2 ^ e)
             else round_half_even (a * 2 ^ (- e)) d in
    let s := if n <? 0 then -1 else 1 in
    if 0 <=? e then mkdec (s * m * 2 ^ e) 0
    else mkdec (s * m * 5 ^ (- e)) (Z.to_nat (- e)).

(** [float(x)] *)
Definition to_float (x : dec) : dec :=
  nearest_double (mant x) (pow10 (scale x)).

Definition float_add (a b : dec) : dec := to_float (dec_add a b).

Definition float_sub (a b : dec) : dec := to_float (dec_sub a b).

(** Python's [sum] over floats: from the left, starting at [0]. *)
Definition float_sum (l : list dec) : dec :=
  fold_left float_add l (dec_of_Z 0).

(** ** Python values *)

Inductive pyval : Type :=
| PNone
| PBool (b : bool)
| PInt (z : Z)
| PStr (s : string)
| PDec (d : dec)
| PList (l : list pyval)
| PDict (items : list (string * pyval)).

Definition dict : Type := list (string * pyval).

Module Py.

Definition truthy (v : pyval) : bool :=
  match v with
  | PNone => false
  | PBool b => b
  | PInt z => negb (z =? 0)
  | PStr s => negb (String.eqb s "")
  | PDec d => negb (mant d =? 0)
  | PList l => match l with [] => false | _ => true end
  | PDict d => match d with [] => false | _ => true end
  end.

Definition is_none (v : pyval) : bool :=
  match v with PNone => true | _ => false end.

(** [a or b] *)
Definition or_ (a b : pyval) : pyval := if truthy a then a else b.

Fixpoint lookup (d : dict) (k : string) : option pyval :=
  match d with
  | [] => None
  | (k', v) :: rest => if String.eqb k' k then Some v else lookup rest k
  end.

(** [d.get(k)] *)
Definition get (d : dict) (k : string) : pyval :=
  match lookup d k with Some v => v | None => PNone end.

(** [d.get(k, default)] *)
Definition get_default (d : dict) (k : string) (default : pyval) : pyval :=
  match lookup d k with Some v => v | None => default end.

(** [k in d.keys()] *)
Definition has_key (d : dict) (k : string) : bool :=
  match lookup d k with Some _ => true | None => false end.

(** [d[k] = v] *)
Fixpoint set (d : dict) (k : string) (v : pyval) : dict :=
  match d with
  | [] => [(k, v)]
  | (k', v') :: rest =>
      if String.eqb k' k then (k', v) :: rest else (k', v') :: set rest k v
  end.

(** [n == v] for an integer [n] *)
Definition eq_int (n : Z) (v : pyval) : bool :=
  match v with
  | PInt z => n =? z
  | PBool b => n =? (if b then 1 else 0)
  | PDec d => dec_eqb (dec_of_Z n) d
  | _ => false
  end.

(** [v == Decimal(...)] *)
Definition eq_dec (v : pyval) (d : dec) : bool :=
  match v with
  | PDec x => dec_eqb x d
  | PInt z => dec_eqb (dec_of_Z z) d
  | PBool b => dec_eqb (dec_of_Z (if b then 1 else 0)) d
  | _ => false
  end.

(** [v == s] for a string [s] *)
Definition eq_str (v : pyval) (s : string) : bool :=
  match v with PStr x => String.eqb x s | _ => false end.

(** *** [int(s)] on a string: surrounding white space (the code points
    9 to 13, 32, 133 and 160 are what [int] strips), an optional sign,
    decimal digits with single underscores between them. *)

Definition is_space (c : ascii) : bool :=
  let n := nat_of_ascii c in
  ((9 <=? n) && (n <=? 13))%nat || (n =? 32)%nat
  || (n =? 133)%nat || (n =? 160)%nat.

Fixpoint lstrip (s : list ascii) : list ascii :=
  match s with
  | c :: s' => if is_space c then lstrip s' else s
  | [] => []
  end.

Definition strip (s : list ascii) : list ascii :=
  rev (lstrip (rev (lstrip s))).

Fixpoint digits_value (acc : Z) (after_digit : bool) (s : list ascii) : option Z :=
  match s with
  | [] => if after_digit then Some acc else None
  | c :: s' =>
      match digit_of c with
      | Some n => digits_value (10 * acc + n) true s'
      | None =>
          if (Ascii.eqb c "_" && after_digit)%bool
          then digits_value acc false s'
          else None
      end
  end.

Definition int_of_str (s : string) : option Z :=
  match strip (list_ascii_of_string s) with
  | "-"%char :: ds => option_map Z.opp (digits_value 0 false ds)
  | "+"%char :: ds => digits_value 0 false ds
  | ds => digits_value 0 false ds
  end.

End Py.

(** ** Exceptions ([exc.py]) *)

Inductive sync_error : Type :=
| GetIdOfAdditionalFieldError (field_id : pyval)
| MultipleProductError (sku : pyval)
| ProductInSalesNotFoundError (product_id : pyval)
| VariantInSalesNotFoundError (variant_id : pyval)
| VariantSkuNotFoundError (product_id variant_id : pyval)
| UnknownInSalesVariantField (field : string).

(** What a handler of this module can meet: the module's own exceptions,
    the API client's [ApiError], the built-in errors of dynamic typing and
    [decimal.InvalidOperation]. *)
Inductive exn : Type :=
| Sync (e : sync_error)
| ApiError
| ValueError
| TypeError
| AttributeError
| InvalidOperation.

(** A message is a format string and the arguments of [str.format]. *)
Record msg : Type := mkmsg { fmt : string; args : list pyval }.

Definition message (e : sync_error) : msg :=
  match e with
  | GetIdOfAdditionalFieldError f =>
      mkmsg "Can't get additional field id: {}" [f]
  | MultipleProductError sku =>
      mkmsg "Multiple products with internal reference {} found in Odoo" [sku]
  | ProductInSalesNotFoundError pid =>
      mkmsg "Product with InSales ID {} not found" [pid]
  | VariantInSalesNotFoundError vid =>
      mkmsg "Variant with InSales Variant ID {} not found" [vid]
  | VariantSkuNotFoundError pid vid =>
      mkmsg "Variant with InSales Product ID {} and Variant ID {} have no SKU"
            [pid; vid]
  | UnknownInSalesVariantField f =>
      mkmsg "Unknown InSales field: {}" [PStr f]
  end.

Inductive Result (A : Type) : Type :=
| Ok (a : A)
| Raise (e : exn).
Arguments Ok {A} a.
Arguments Raise {A} e.

Module Builtins.

(** [int(v)] *)
Definition int (v : pyval) : Result Z :=
  match v with
  | PInt z => Ok z
  | PBool b => Ok (if b then 1 else 0)
  | PDec d => Ok (dec_trunc d)
  | PStr s => match Py.int_of_str s with Some z => Ok z | None => Raise ValueError end
  | _ => Raise TypeError
  end.

(** The elements a [for] loop visits. *)
Definition iter (v : pyval) : Result (list pyval) :=
  match v with
  | PList l => Ok l
  | PDict d => Ok (map (fun kv => PStr (fst kv)) d)
  | PStr s => Ok (map (fun c => PStr (String c EmptyString)) (list_ascii_of_string s))
  | _ => Raise TypeError
  end.

(** [Decimal(s)] *)
Definition to_Decimal (s : string) : Result dec :=
  match Decimal s with Some d => Ok d | None => Raise InvalidOperation end.

(** [a + b] where [b] is a list. *)
Definition add_list (a : pyval) (b : list pyval) : Result pyval :=
  match a with
  | PList l => Ok (PList (l ++ b))
  | _ => Raise TypeError
  end.

End Builtins.

(** ** Records of the data model ([config.py], [product.py])

    Credentials and display names play no part in reconciliation and are
    left out.  A table is the list of its rows in the model's [_order];
    [search] returns the matching rows in that order. *)

Record QuantityField : Type := mkQuantityField {
  location : Z;
  is_additional : bool;
  insales_field : string;
  insales_field_id : Z }.

Record Config : Type := mkConfig {
  cfg_id : Z;
  active : bool;
  prod_environment : bool;
  pricelist_id : option Z;
  old_pricelist_id : option Z;
  quantity_fields : list QuantityField;
  sync_weight : bool;
  sync_weight_skip_zero : bool }.

(** An empty recordset reads every field as falsy. *)
Definition empty_config : Config :=
  mkConfig 0 false false None None [] false false.

Record Category : Type := mkCategory {
  cat_id : Z;
  cat_config_id : Z;
  title : string;
  insales_id : Z;
  parent_path : string;
  path_named : string;
  sync : bool }.

(** The last two fields are the template's stored computed fields
    [insales_sync_variant_id] and [insales_sync_timestamp], which mirror
    those of its variant. *)
Record ProductTemplate : Type := mkProductTemplate {
  tmpl_id : Z;
  insales_sync_config_id : option Z;
  insales_sync_product_id : pyval;
  insales_sync_permalink : pyval;
  tmpl_variant_id : pyval;
  tmpl_timestamp : option Z }.

Record ProductProduct : Type := mkProductProduct {
  pp_id : Z;
  default_code : option string;
  weight : dec;
  product_tmpl_id : Z;
  insales_sync_variant_id : pyval;
  insales_sync_timestamp : option Z;
  insales_sync_skip_price : bool;
  insales_sync_skip_qty : bool;
  insales_sync_skip_weight : bool }.

(** [stock.quant] *)
Record Quant : Type := mkQuant {
  q_product_id : Z;
  q_location_id : Z;
  quantity : dec;
  reserved_quantity : dec }.

(** ** Modifiers, log records and effects ([sync_product.py]) *)

(** A value shown in a diff: a value as it is, or [str(v)] of a remote
    value (rendered when the log record is formatted). *)
Inductive diffval : Type :=
| DVal (v : pyval)
| DStrOf (v : pyval).

Record VariantModifier : Type := mkVariantModifier {
  field_name : string;
  value : pyval;
  diff_name : string;
  diff_old_value : diffval;
  diff_new_value : diffval;
  is_list : bool }.

Inductive level : Type := DEBUG | INFO | WARNING | ERROR.

Inductive logarg : Type :=
| AVal (v : pyval)
| ADiff (d : list (string * diffval * diffval)).

Inductive event : Type :=
| Log (lv : level) (format : string) (largs : list logarg)
| ApiUpdateProductVariant (cfg : Z) (product_id variant_id : pyval)
                          (data : dict) (succeeded : bool)
| ApiGetProducts (cfg : Z) (category_id : Z)
| OrmWrite (model : string) (id : Z) (vals : dict).

Record World : Type := mkWorld {
  configs : list Config;
  categories : list Category;
  templates : list ProductTemplate;
  products : list ProductProduct;
  quants : list Quant;
  precision_get : string -> nat;
  get_product_price : Z -> ProductProduct -> dec;
  now : Z;
  update_fails : list event -> Z -> pyval -> pyval -> dict -> bool;
  get_products : Z -> Z -> list pyval;
  trace : list event }.

Definition add_event (e : event) (w : World) : World :=
  mkWorld (configs w) (categories w) (templates w) (products w) (quants w)
          (precision_get w) (get_product_price w) (now w) (update_fails w)
          (get_products w) (trace w ++ [e]).

Definition set_templates (t : list ProductTemplate) (w : World) : World :=
  mkWorld (configs w) (categories w) t (products w) (quants w)
          (precision_get w) (get_product_price w) (now w) (update_fails w)
          (get_products w) (trace w).

Definition set_products (p : list ProductProduct) (w : World) : World :=
  mkWorld (configs w) (categories w) (templates w) p (quants w)
          (precision_get w) (get_product_price w) (now w) (update_fails w)
          (get_products w) (trace w).

(** ** The monad of effects *)

Definition M (A : Type) : Type := World -> Result A * World.

Definition ret {A : Type} (a : A) : M A := fun w => (Ok a, w).

Definition bind {A B : Type} (m : M A) (f : A -> M B) : M B :=
  fun w =>
    match m w with
    | (Ok a, w') => f a w'
    | (Raise e, w') => (Raise e, w')
    end.

Definition raise {A : Type} (e : exn) : M A := fun w => (Raise e, w).

Definition lift {A : Type} (r : Result A) : M A := fun w => (r, w).

Definition gets {A : Type} (f : World -> A) : M A := fun w => (Ok (f w), w).

Definition emit (e : event) : M unit := fun w => (Ok tt, add_event e w).

(** [try: body  except <catches> as err: handler err] *)
Definition try_except {A : Type} (body : M A) (catches : exn -> bool)
           (handler : exn -> M A) : M A :=
  fun w =>
    match body w with
    | (Raise e, w') => if catches e then handler e w' else (Raise e, w')
    | r => r
    end.

Notation "x <- m ;; k" := (bind m (fun x => k))
  (at level 61, m at next level, right associativity).
Notation "m ;; k" := (bind m (fun _ => k))
  (at level 61, right associativity).

(** [for x in l: body x] *)
Fixpoint for_each {A : Type} (l : list A) (body : A -> M unit) : M unit :=
  match l with
  | [] => ret tt
  | x :: rest => body x ;; for_each rest body
  end.

(** A loop that threads an accumulator. *)
Fixpoint fold_m {A B : Type} (body : B -> A -> M B) (l : list A) (acc : B) : M B :=
  match l with
  | [] => ret acc
  | x :: rest => acc' <- body acc x ;; fold_m body rest acc'
  end.

Definition log (lv : level) (format : string) (largs : list logarg) : M unit :=
  emit (Log lv format largs).

(** [log.error(err.message)] *)
Definition log_error_message (e : sync_error) : M unit :=
  log ERROR (fmt (message e)) (map AVal (args (message e))).

(** ** [product.py] *)

(** [product.insales_sync_config_id], read through the template. *)
Definition config_of (w : World) (product : ProductProduct) : Config :=
  match find (fun t => tmpl_id t =? product_tmpl_id product) (templates w) with
  | Some t =>
      match insales_sync_config_id t with
      | Some c =>
          match find (fun cfg => cfg_id cfg =? c) (configs w) with
          | Some cfg => cfg
          | None => empty_config
          end
      | None => empty_config
      end
  | None => empty_config
  end.

(** [quantity] and [reserved_quantity] are [Float] fields; the sums and
    the difference are made on floats. *)
Definition insales_sync_get_quantity (product : ProductProduct) (loc : Z) : M Z :=
  quant <- gets (fun w =>
             filter (fun q => (q_product_id q =? pp_id product)
                              && (q_location_id q =? loc))
                    (quants w)) ;;
  let reserved := float_sum (map (fun line => to_float (reserved_quantity line))
                                 quant) in
  let on_hand := float_sum (map (fun line => to_float (quantity line)) quant) in
  ret (dec_trunc (float_sub on_hand reserved)).

(** [product.default_code] as a Python value: an unset [Char] reads [False]. *)
Definition default_code_val (product : ProductProduct) : pyval :=
  match default_code product with Some s => PStr s | None => PBool false end.

(** ** [sync_product.py]: the field extractor *)

(** The loop over [in_variant.get("variant-field-values", [])]. *)
Fixpoint find_field_value (field : QuantityField) (l : list pyval) : Result Z :=
  match l with
  | [] => Ok 0
  | in_field :: rest =>
      match in_field with
      | PDict d =>
          if Py.eq_int (insales_field_id field) (Py.get d "variant-field-id")
          then Builtins.int (Py.or_ (Py.get d "value") (PInt 0))
          else find_field_value field rest
      | _ => Raise AttributeError
      end
  end.

Definition get_quantity_from_insales_variant
           (in_variant : dict) (field : QuantityField) : Result Z :=
  if is_additional field then
    match Builtins.iter (Py.get_default in_variant "variant-field-values" (PList [])) with
    | Ok l => find_field_value field l
    | Raise e => Raise e
    end
  else if negb (Py.has_key in_variant (insales_field field)) then
    Raise (Sync (UnknownInSalesVariantField (insales_field field)))
  else Builtins.int (Py.or_ (Py.get in_variant (insales_field field)) (PInt 0)).

(** ** [sync_product.py]: the modifier generators *)

(** The [VariantModifier] appended by the quantity loop. *)
Definition qty_modifier (field : QuantityField) (in_qty odoo_qty : Z)
  : VariantModifier :=
  {| field_name := if is_additional field
                   then "variant-field-values-attributes"
                   else insales_field field;
     value := if is_additional field
              then PDict [("handle", PStr (insales_field field));
                          ("value", PInt odoo_qty)]
              else PInt odoo_qty;
     diff_name := insales_field field;
     diff_old_value := DVal (PInt in_qty);
     diff_new_value := DVal (PInt odoo_qty);
     is_list := is_additional field |}.

Definition catches_unknown_field (e : exn) : bool :=
  match e with
  | Sync (UnknownInSalesVariantField _) => true
  | _ => false
  end.

(** [log.error(err.message)] in a handler; only the module's exceptions
    carry a message and only they are caught. *)
Definition log_caught (err : exn) : M unit :=
  match err with
  | Sync e => log_error_message e
  | _ => raise AttributeError
  end.

(** One turn of the loop over [cfg.quantity_fields]; [None] from the
    handler stands for its [continue]. *)
Definition qty_iteration (product : ProductProduct) (in_variant : dict)
           (mods : list VariantModifier) (field : QuantityField)
  : M (list VariantModifier) :=
  r <- try_except
         (in_qty <- lift (get_quantity_from_insales_variant in_variant field) ;;
          odoo_qty <- insales_sync_get_quantity product (location field) ;;
          ret (Some (Z.max in_qty 0, odoo_qty)))
         catches_unknown_field
         (fun err => log_caught err ;; ret None) ;;
  match r with
  | None => ret mods
  | Some (in_qty, odoo_qty) =>
      if in_qty =? odoo_qty then ret mods
      else ret (mods ++ [qty_modifier field in_qty odoo_qty])
  end.

Definition _get_insales_variant_qty_modifiers
           (product : ProductProduct) (in_variant : dict)
  : M (list VariantModifier) :=
  if insales_sync_skip_qty product then ret []
  else
    cfg <- gets (fun w => config_of w product) ;;
    fold_m (qty_iteration product in_variant) (quantity_fields cfg) [].

(** [precision_get(name) or 16] *)
Definition digits_or_16 (w : World) (name : string) : nat :=
  match precision_get w name with O => 16%nat | n => n end.

(** [str(v) if v else None] *)
Definition str_or_none (v : pyval) : diffval :=
  if Py.truthy v then DStrOf v else DVal PNone.

Definition _get_insales_variant_weight_modifiers
           (product : ProductProduct) (in_weight : pyval)
  : M (list VariantModifier) :=
  cfg <- gets (fun w => config_of w product) ;;
  if negb (sync_weight cfg) || insales_sync_skip_weight product then ret []
  else
    digits <- gets (fun w => digits_or_16 w "Stock Weight") ;;
    let weight_str := float_repr (max0 (weight product)) digits in
    weight_dec <- lift (Builtins.to_Decimal weight_str) ;;
    if Py.eq_dec in_weight weight_dec then ret []
    else
      let weight_is_zero := float_is_zero (weight product) digits in
      if sync_weight_skip_zero cfg && weight_is_zero then
        log WARNING "Skip zero weight sync of InSales variant %s"
            [AVal (default_code_val product)] ;;
        ret []
      else
        let new_value := if negb weight_is_zero then PStr weight_str else PNone in
        ret [ {| field_name := "weight";
                 value := new_value;
                 diff_name := "weight";
                 diff_old_value := str_or_none in_weight;
                 diff_new_value := DVal new_value;
                 is_list := false |} ].

(** [old_price_str]: what [float_repr] prints, replaced by [None] when
    [old_price <= price]. *)
Definition old_price_text (old_price price : dec) (digits : nat) : option string :=
  let old_price_str := float_repr old_price digits in
  if dec_leb old_price price then None else Some old_price_str.

(** [(old_price_str and in_old_price != Decimal(old_price_str))
     or (not old_price_str and in_old_price != old_price_str)] *)
Definition old_price_differs (in_old_price : pyval) (old_price_str : option string)
  : Result bool :=
  match old_price_str with
  | Some s =>
      if Py.truthy (PStr s) then
        match Builtins.to_Decimal s with
        | Ok d => Ok (negb (Py.eq_dec in_old_price d))
        | Raise e => Raise e
        end
      else Ok (negb (Py.eq_str in_old_price s))
  | None => Ok (negb (Py.is_none in_old_price))
  end.

Definition str_val (s : option string) : pyval :=
  match s with Some x => PStr x | None => PNone end.

Definition _get_insales_variant_price_modifiers
           (product : ProductProduct) (in_price in_old_price : pyval)
  : M (list VariantModifier) :=
  cfg <- gets (fun w => config_of w product) ;;
  match pricelist_id cfg with
  | None => ret []
  | Some pricelist =>
      if insales_sync_skip_price product then ret []
      else
        digits <- gets (fun w => digits_or_16 w "Product Price") ;;
        price <- gets (fun w => max0 (get_product_price w pricelist product)) ;;
        let price_str := float_repr price digits in
        price_dec <- lift (Builtins.to_Decimal price_str) ;;
        let mods :=
          if negb (Py.eq_dec in_price price_dec) then
            [ {| field_name := "price";
                 value := PStr price_str;
                 diff_name := "price";
                 diff_old_value := str_or_none in_price;
                 diff_new_value := DVal (PStr price_str);
                 is_list := false |} ]
          else [] in
        match old_pricelist_id cfg with
        | None => ret mods
        | Some old_pricelist =>
            old_price <- gets (fun w => get_product_price w old_pricelist product) ;;
            let old_price_str := old_price_text old_price price digits in
            differs <- lift (old_price_differs in_old_price old_price_str) ;;
            if differs then
              ret (mods ++
                   [ {| field_name := "old-price";
                        value := str_val old_price_str;
                        diff_name := "old_price";
                        diff_old_value := str_or_none in_old_price;
                        diff_new_value := DVal (str_val old_price_str);
                        is_list := false |} ])
            else ret mods
        end
  end.

(** ** [sync_product.py]: the variant reconciler *)

(** The payload loop of [process_insales_variant]. *)
Fixpoint build_data (mods : list VariantModifier) (data : dict) : Result dict :=
  match mods with
  | [] => Ok data
  | mod_ :: rest =>
      if is_list mod_ then
        match Builtins.add_list (Py.get_default data (field_name mod_) (PList []))
                             [value mod_] with
        | Ok v => build_data rest (Py.set data (field_name mod_) v)
        | Raise e => Raise e
        end
      else build_data rest (Py.set data (field_name mod_) (value mod_))
  end.

(** [cfg.get_api_client().update_product_variant(product_id, id, data)]:
    the call is recorded with its outcome and fails with [ApiError] when
    the remote side refuses it, which may depend on what happened before. *)
Definition update_product_variant (cfg : Config) (product_id variant_id : pyval)
           (data : dict) : M unit :=
  fun w =>
    let failed := update_fails w (trace w) (cfg_id cfg) product_id variant_id
                               data in
    (if failed then Raise ApiError else Ok tt,
     add_event (ApiUpdateProductVariant (cfg_id cfg) product_id variant_id data
                                        (negb failed)) w).

(** A row of [product.product] with the two link fields assigned. *)
Definition with_variant_link (variant_id : pyval) (timestamp : Z)
           (p : ProductProduct) : ProductProduct :=
  mkProductProduct (pp_id p) (default_code p) (weight p) (product_tmpl_id p)
                   variant_id (Some timestamp)
                   (insales_sync_skip_price p) (insales_sync_skip_qty p)
                   (insales_sync_skip_weight p).

(** [_compute_insales_sync_variant_id] and [_compute_insales_sync_timesmamp]
    on one template ([product.py]): with exactly one variant the template
    takes the variant's values, else [False]. *)
Definition recompute_variant_link (variants : list ProductProduct)
           (t : ProductTemplate) : ProductTemplate :=
  match filter (fun p => product_tmpl_id p =? tmpl_id t) variants with
  | [p] =>
      mkProductTemplate (tmpl_id t) (insales_sync_config_id t)
                        (insales_sync_product_id t) (insales_sync_permalink t)
                        (insales_sync_variant_id p) (insales_sync_timestamp p)
  | _ =>
      mkProductTemplate (tmpl_id t) (insales_sync_config_id t)
                        (insales_sync_product_id t) (insales_sync_permalink t)
                        (PBool false) None
  end.

(** The templates of the rows with the id of [product]. *)
Definition is_template_of (product : ProductProduct)
           (variants : list ProductProduct) (t : ProductTemplate) : bool :=
  existsb (fun p => (pp_id p =? pp_id product)
                    && (product_tmpl_id p =? tmpl_id t))
          variants.

(** [product_product.write({"insales_sync_variant_id": ..,
                            "insales_sync_timestamp": ..})]; the write
    triggers the two stored computed fields of the variant's template,
    which depend on the fields written. *)
Definition write_variant_link (product : ProductProduct) (variant_id : pyval)
           (timestamp : Z) : M unit :=
  fun w =>
    let variants :=
      map (fun p =>
             if pp_id p =? pp_id product
             then with_variant_link variant_id timestamp p
             else p)
          (products w) in
    (Ok tt,
     add_event
       (OrmWrite "product.product" (pp_id product)
                 [("insales_sync_variant_id", variant_id);
                  ("insales_sync_timestamp", PInt timestamp)])
       (set_templates
          (map (fun t =>
                  if is_template_of product (products w) t
                  then recompute_variant_link variants t
                  else t)
               (templates w))
          (set_products variants w))).

Definition diff_of (x : VariantModifier) : string * diffval * diffval :=
  (diff_name x, diff_old_value x, diff_new_value x).

(** The three generators, in the order of the sum bound to [mods]. *)
Definition collect_modifiers (product_product : ProductProduct)
           (in_variant : dict) : M (list VariantModifier) :=
  weight_mods <- _get_insales_variant_weight_modifiers
                   product_product (Py.get in_variant "weight") ;;
  price_mods <- _get_insales_variant_price_modifiers
                  product_product (Py.get in_variant "price")
                  (Py.get in_variant "old-price") ;;
  qty_mods <- _get_insales_variant_qty_modifiers product_product in_variant ;;
  ret (weight_mods ++ price_mods ++ qty_mods).

Definition process_insales_variant (product_product : ProductProduct)
           (in_variant : dict) : M unit :=
  cfg <- gets (fun w => config_of w product_product) ;;
  mods <- collect_modifiers product_product in_variant ;;
  match mods with
  | [] => ret tt
  | _ :: _ =>
      log INFO "Updating InSales variant %s: %s"
          [AVal (default_code_val product_product); ADiff (map diff_of mods)] ;;
      if prod_environment cfg then
        data <- lift (build_data mods []) ;;
        update_product_variant cfg (Py.get in_variant "product-id")
                               (Py.get in_variant "id") data
      else ret tt
  end ;;
  timestamp <- gets now ;;
  write_variant_link product_product (Py.get in_variant "id") timestamp.

(** ** [sync_product.py]: the product reconciler *)

(** [self.env["product.product"].search([("default_code", "=", sku)])];
    the table holds the rows a search sees (the active ones). *)
Definition search_default_code (w : World) (sku : pyval) : list ProductProduct :=
  filter (fun p => match default_code p with
                   | Some code => Py.eq_str sku code
                   | None => false
                   end)
         (products w).

(** [product_product.product_tmpl_id.write({...})] *)
Definition write_template_link (product : ProductProduct) (cfg : Config)
           (product_id permalink : pyval) : M unit :=
  fun w =>
    (Ok tt,
     add_event
       (OrmWrite "product.template" (product_tmpl_id product)
                 [("insales_sync_config_id", PInt (cfg_id cfg));
                  ("insales_sync_product_id", product_id);
                  ("insales_sync_permalink", permalink)])
       (set_templates
          (map (fun t =>
                  if tmpl_id t =? product_tmpl_id product then
                    mkProductTemplate (tmpl_id t) (Some (cfg_id cfg))
                                      product_id permalink
                                      (tmpl_variant_id t) (tmpl_timestamp t)
                  else t)
               (templates w))
          w)).

Definition catches_variant_errors (e : exn) : bool :=
  match e with
  | Sync (MultipleProductError _)
  | Sync (ProductInSalesNotFoundError _)
  | Sync (UnknownInSalesVariantField _)
  | Sync (VariantSkuNotFoundError _ _) => true
  | _ => false
  end.

(** The body of the [try] in the loop over variants. *)
Definition process_variant_try (cfg : Config) (in_product : dict)
           (in_variant : pyval) : M unit :=
  match in_variant with
  | PDict in_variant =>
      log DEBUG "Process variant %s" [AVal (Py.get in_variant "sku")] ;;
      let sku := Py.get in_variant "sku" in
      if Py.is_none sku then
        raise (Sync (VariantSkuNotFoundError (Py.get in_variant "product-id")
                                             (Py.get in_variant "id")))
      else
        product_product <- gets (fun w => search_default_code w sku) ;;
        match product_product with
        | [] => raise (Sync (ProductInSalesNotFoundError sku))
        | [product] =>
            write_template_link product cfg (Py.get in_product "id")
                                (Py.get in_product "permalink") ;;
            process_insales_variant product in_variant
        | _ :: _ :: _ => raise (Sync (MultipleProductError sku))
        end
  | _ => raise AttributeError
  end.

(** One turn of the loop over variants, with its [except ... continue]. *)
Definition process_variant (cfg : Config) (in_product : dict)
           (in_variant : pyval) : M unit :=
  try_except (process_variant_try cfg in_product in_variant)
             catches_variant_errors log_caught.

Definition process_insales_product (cfg : Config) (in_product : pyval) : M unit :=
  match in_product with
  | PDict in_product =>
      log DEBUG "Process product %s" [AVal (Py.get in_product "permalink")] ;;
      variants <- lift (Builtins.iter (Py.get_default in_product "variants" (PList []))) ;;
      for_each variants (process_variant cfg in_product)
  | _ => raise AttributeError
  end.

(** ** [sync_product.py]: the driver

    [cfg.update_categories()] refreshes the category mirror from the remote
    taxonomy; the driver only sequences it, so it is a parameter here. *)

Section Driver.

Variable update_categories : Config -> M unit.

(** [get_iter_all_products] is lazy: the products of a category are
    requested when the iteration reaches it (one [ApiGetProducts] stands
    for the pages of a category).  The categories come from a [search]
    on the model, whatever their configuration. *)
Definition sync_configuration (cfg : Config) : M unit :=
  if negb (active cfg) then ret tt
  else
    update_categories cfg ;;
    allowed_cat_ids <- gets (fun w => map insales_id (filter sync (categories w))) ;;
    for_each allowed_cat_ids
      (fun category_id =>
         emit (ApiGetProducts (cfg_id cfg) category_id) ;;
         in_products <- gets (fun w => get_products w (cfg_id cfg) category_id) ;;
         for_each in_products (process_insales_product cfg)).

Definition cron_do : M unit :=
  cfgs <- gets (fun w => filter active (configs w)) ;;
  for_each cfgs sync_configuration.

End Driver.

(** ** [config.py]: the category mirror

    Materialized paths are made of the digits and signs of the ids and of
    ["/"], none of which is a wildcard of [=like]; a pattern [path%] is
    therefore a prefix test.  A recordset is the list of the ids of its
    rows.  [write] calls itself through [propagate_sync_to_children]; the
    recursion is bounded by [fuel] and [None] means that it ran out. *)

Module PyStr.

(** [s.split(sep)] for a one-character separator. *)
Fixpoint split (sep : ascii) (s : string) : list string :=
  match s with
  | EmptyString => [EmptyString]
  | String c s' =>
      if Ascii.eqb c sep then EmptyString :: split sep s'
      else match split sep s' with
           | [] => [String c EmptyString]
           | seg :: rest => String c seg :: rest
           end
  end.

(** [sep.join(l)] *)
Fixpoint join (sep : string) (l : list string) : string :=
  match l with
  | [] => EmptyString
  | [x] => x
  | x :: rest => (x ++ sep ++ join sep rest)%string
  end.

Definition nonempty (s : string) : bool :=
  match s with EmptyString => false | _ => true end.

End PyStr.

Module ConfigCategory.

(** The [values] of a [write]: the fields it assigns. *)
Record Values : Type := mkValues {
  v_title : option string;
  v_insales_id : option Z;
  v_parent_path : option string;
  v_path_named : option string;
  v_sync : option bool }.

(** [{"sync": True}] *)
Definition sync_true : Values := mkValues None None None None (Some true).

Definition assign {A : Type} (new : option A) (old : A) : A :=
  match new with Some x => x | None => old end.

Definition apply_values (values : Values) (c : Category) : Category :=
  mkCategory (cat_id c) (cat_config_id c)
             (assign (v_title values) (title c))
             (assign (v_insales_id values) (insales_id c))
             (assign (v_parent_path values) (parent_path c))
             (assign (v_path_named values) (path_named c))
             (assign (v_sync values) (sync c)).

Definition mem (id : Z) (self : list Z) : bool := existsb (Z.eqb id) self.

(** [models.Model.write]: assign [values] on every row of the recordset. *)
Definition super_write (table : list Category) (self : list Z)
           (values : Values) : list Category :=
  map (fun c => if mem (cat_id c) self then apply_values values c else c) table.

Definition browse (table : list Category) (id : Z) : option Category :=
  find (fun c => cat_id c =? id) table.

Definition get_self_path (record : Category) : string :=
  PyStr.join "/"
    (filter PyStr.nonempty (PyStr.split "/" (parent_path record))
     ++ [str_of_Z (insales_id record)]).

(** [parent_path =like get_self_path() + "%"] *)
Definition is_child (record c : Category) : bool :=
  String.prefix (get_self_path record) (parent_path c).

Definition get_children (table : list Category) (record : Category)
  : list Z :=
  map cat_id (filter (is_child record) table).

(** One turn of the loop of [propagate_sync_to_children], over the
    [write] it calls. *)
Definition propagate_step
           (write : list Category -> list Z -> Values -> option (list Category))
           (acc : option (list Category)) (id : Z) : option (list Category) :=
  match acc with
  | None => None
  | Some t =>
      match browse t id with
      | Some record =>
          if sync record then write t (get_children t record) sync_true
          else Some t
      | None => Some t
      end
  end.

Definition propagate_with
           (write : list Category -> list Z -> Values -> option (list Category))
           (table : list Category) (self : list Z) : option (list Category) :=
  fold_left (propagate_step write) self (Some table).

Fixpoint write (fuel : nat) (table : list Category) (self : list Z)
         (values : Values) : option (list Category) :=
  match fuel with
  | O => None
  | S fuel' =>
      propagate_with (write fuel') (super_write table self values) self
  end.

Definition propagate_sync_to_children (fuel : nat) (table : list Category)
           (self : list Z) : option (list Category) :=
  propagate_with (write fuel) table self.

(** Fuel that always suffices: two more than the longest parent path. *)
Definition enough_fuel (table : list Category) : nat :=
  S (S (list_max (map (fun c => String.length (parent_path c)) table))).

(** The invariant as the specification words it: every row whose flag is
    set has all its prefix-matched descendants set. *)
Definition sync_invariant (table : list Category) : Prop :=
  forall r c, In r table -> In c table ->
              sync r = true -> is_child r c = true -> sync c = true.

(** The rows reached from [r] by following [is_child] any number of
    times. *)
Inductive descendant (table : list Category) (r : Category)
  : Category -> Prop :=
| descendant_child c :
    In c table -> is_child r c = true -> descendant table r c
| descendant_step c d :
    descendant table r c -> In d table -> is_child c d = true ->
    descendant table r d.

(** The rows of a recordset with their flag set have it set on all their
    descendants. *)
Definition sync_propagated (table : list Category) (self : list Z) : Prop :=
  forall r d, In r table -> In (cat_id r) self -> sync r = true ->
              descendant table r d -> sync d = true.

(** Rows with the ids [X] get their flag set: what [{"sync": True}]
    written on [X] does to a table and to a row. *)
Definition mark (X : list Z) (table : list Category) : list Category :=
  super_write table X sync_true.

Definition img (X : list Z) (c : Category) : Category :=
  if mem (cat_id c) X then apply_values sync_true c else c.

(** A set of ids that contains the children of its members. *)
Definition closed (table : list Category) (X : list Z) : Prop :=
  forall r c, In r table -> In c table -> mem (cat_id r) X = true ->
              is_child r c = true -> mem (cat_id c) X = true.

(** What the recursion on [{"sync": True}] returns: the table with a set
    of rows marked that holds the recordset and is closed. *)
Definition marks_closed (n : nat) : Prop :=
  forall t S t',
    NoDup (map cat_id t) ->
    write n t S sync_true = Some t' ->
    exists X, t' = mark X t
              /\ (forall x, In x S -> mem x X = true)
              /\ closed t X.

(** The number of characters of a path that are not ["/"]; it grows from
    a row to its children and bounds the depth of the recursion. *)
Fixpoint nonslash (s : string) : nat :=
  match s with
  | EmptyString => O
  | String c s' => ((if Ascii.eqb c "/" then 0 else 1) + nonslash s')%nat
  end.

Definition depth (c : Category) : nat := nonslash (parent_path c).

Definition longest (table : list Category) : nat :=
  list_max (map (fun c => String.length (parent_path c)) table).

End ConfigCategory.

(** ** Notions used to state the properties *)

Definition add_events (evs : list event) (w : World) : World :=
  fold_left (fun w e => add_event e w) evs w.

Definition is_log (e : event) : bool :=
  match e with Log _ _ _ => true | _ => false end.

Definition is_update_call (e : event) : bool :=
  match e with ApiUpdateProductVariant _ _ _ _ _ => true | _ => false end.

Definition is_failed_update (e : event) : bool :=
  match e with ApiUpdateProductVariant _ _ _ _ false => true | _ => false end.

Definition is_orm_write (e : event) : bool :=
  match e with OrmWrite _ _ _ => true | _ => false end.

Definition outcome {A : Type} (r : Result A) : option exn :=
  match r with Ok _ => None | Raise e => Some e end.

(** The record of the write-back and the record of the diff. *)
Definition link_event (p : ProductProduct) (v : dict) (w : World) : event :=
  OrmWrite "product.product" (pp_id p)
           [("insales_sync_variant_id", Py.get v "id");
            ("insales_sync_timestamp", PInt (now w))].

Definition info_event (p : ProductProduct) (mods : list VariantModifier) : event :=
  Log INFO "Updating InSales variant %s: %s"
      [AVal (default_code_val p); ADiff (map diff_of mods)].

(** The quantity source of the specification, as the method computes it:
    what is on hand minus what is reserved for the product at a location,
    in floats. *)
Definition on_hand_minus_reserved (w : World) (product : ProductProduct)
           (loc : Z) : dec :=
  let quant := filter (fun q => (q_product_id q =? pp_id product)
                                && (q_location_id q =? loc)) (quants w) in
  float_sub (float_sum (map (fun line => to_float (quantity line)) quant))
            (float_sum (map (fun line => to_float (reserved_quantity line))
                            quant)).

(** The local quantity compared with the remote one for a mapping. *)
Definition local_qty (w : World) (product : ProductProduct)
           (field : QuantityField) : Z :=
  dec_trunc (on_hand_minus_reserved w product (location field)).

(** The remote value of a mapping can be read, or its field is unknown:
    the two outcomes the quantity loop provides for. *)
Definition reads_or_unknown (in_variant : dict) (field : QuantityField) : bool :=
  match get_quantity_from_insales_variant in_variant field with
  | Ok _ => true
  | Raise e => catches_unknown_field e
  end.

Definition matches_field (field : QuantityField) (in_field : dict) : bool :=
  Py.eq_int (insales_field_id field) (Py.get in_field "variant-field-id").

(** The matching error of a remote variant, in the words of the
    specification: no SKU, no local variant with that external code, or
    more than one. *)
Definition variant_error (w : World) (in_variant : dict) : option sync_error :=
  let sku := Py.get in_variant "sku" in
  if Py.is_none sku then
    Some (VariantSkuNotFoundError (Py.get in_variant "product-id")
                                  (Py.get in_variant "id"))
  else
    match List.length (search_default_code w sku) with
    | O => Some (ProductInSalesNotFoundError sku)
    | S O => None
    | S (S _) => Some (MultipleProductError sku)
    end.

(** A run stops at a refused remote update: either no update of the run
    was refused, or the run ended in [ApiError] and the refused update is
    the last thing it did. *)
Definition aborts_at_failure (o : option exn) (evs : list event) : Prop :=
  Forall (fun e => is_failed_update e = false) evs
  \/ (o = Some ApiError /\
      exists evs0 e, evs = evs0 ++ [e] /\ is_failed_update e = true
                     /\ Forall (fun e => is_failed_update e = false) evs0).

Definition stops_at_failure {A : Type} (m : M A) : Prop :=
  forall w, exists evs,
    trace (snd (m w)) = trace w ++ evs
    /\ aborts_at_failure (outcome (fst (m w))) evs.

Definition is_old_price_mod (m : VariantModifier) : bool :=
  String.eqb (field_name m) "old-price".

(** The effective old price of the specification: absent when the old
    price is not above the price, else the old price at the precision. *)
Definition old_price_num (old_price price : dec) (digits : nat) : option dec :=
  if dec_leb old_price price then None
  else Some (float_repr_dec old_price digits).

(** The remote old price differs from the effective one: a value against
    null, null against a value, or two unequal numbers. *)
Definition remote_differs (in_old_price : pyval) (computed : option dec) : bool :=
  match computed with
  | Some d => negb (Py.eq_dec in_old_price d)
  | None => negb (Py.is_none in_old_price)
  end.

(** A computation whose only effects are log records. *)
Definition logs_only {A : Type} (m : M A) : Prop :=
  forall w, exists evs,
    snd (m w) = add_events evs w /\ Forall (fun e => is_log e = true) evs.


(** ** Concrete data for the examples *)

Module Scenario.

Definition stock : QuantityField := mkQuantityField 7 false "quantity" 0.
Definition missing : QuantityField := mkQuantityField 7 false "reserve" 0.
Definition custom_stock : QuantityField := mkQuantityField 7 true "custom_stock" 42.

Definition config (prod skip_zero : bool) (fields : list QuantityField)
  : Config :=
  mkConfig 1 true prod (Some 10) (Some 11) fields true skip_zero.

Definition product (w : dec) : ProductProduct :=
  mkProductProduct 100 (Some "SKU1") w 200 PNone None false false false.

(** Pricelist 10 gives 200, the old-price pricelist 11 gives 150; three
    digits for weights and prices. *)
Definition world (cfg : Config) (ps : list ProductProduct) (qs : list Quant)
           (refuse : bool) : World :=
  mkWorld [cfg] []
          [mkProductTemplate 200 (Some (cfg_id cfg)) PNone PNone (PBool false) None]
          ps qs
          (fun _ => 3%nat)
          (fun pricelist _ => if pricelist =? 10 then mkdec 200 0 else mkdec 150 0)
          1000
          (fun _ _ _ _ _ => refuse)
          (fun _ _ => [])
          [].

Definition variant (sku : pyval) (w : dec) (qty : Z) : dict :=
  [("id", PInt 9); ("product-id", PInt 8); ("sku", sku);
   ("weight", PDec w); ("price", PDec (mkdec 200000 3));
   ("old-price", PNone); ("quantity", PInt qty);
   ("variant-field-values",
    PList [PDict [("variant-field-id", PInt 42); ("value", PStr "5")]])].

Definition on_hand (q r : dec) : list Quant := [mkQuant 100 7 q r].

End Scenario.

(** Two active configurations, one synchronised category; the first
    configuration lists two products, the first of them with two variants. *)
Module Run.

Definition first : Config := Scenario.config true true [].
Definition second : Config := mkConfig 2 true true None None [] false true.

Definition chair : pyval :=
  PDict [("id", PInt 8); ("permalink", PStr "chair");
         ("variants",
          PList [PDict (Scenario.variant (PStr "SKU1") (mkdec 3 0) 5);
                 PDict (Scenario.variant (PStr "SKU2") (mkdec 3 0) 5)])].

Definition table : pyval :=
  PDict [("id", PInt 12); ("permalink", PStr "table");
         ("variants",
          PList [PDict (Scenario.variant (PStr "SKU2") (mkdec 3 0) 5)])].

Definition sku2 : ProductProduct :=
  mkProductProduct 101 (Some "SKU2") (mkdec 4 0) 201 PNone None false false false.

Definition world (refuse : bool) : World :=
  mkWorld [first; second]
          [mkCategory 1 1 "Furniture" 5 "" "Furniture" true]
          [mkProductTemplate 200 None PNone PNone (PBool false) None;
           mkProductTemplate 201 None PNone PNone (PBool false) None]
          [Scenario.product (mkdec 25 1); sku2] []
          (fun _ => 3%nat)
          (fun pricelist _ => if pricelist =? 10 then mkdec 200 0 else mkdec 150 0)
          1000
          (fun _ _ _ _ _ => refuse)
          (fun cfg _ => if cfg =? 1 then [chair; table] else [table])
          [].

Definition update_categories (cfg : Config) : M unit := ret tt.

End Run.

(** A root category with one child, both synchronised. *)
Module Tree.

Definition root (s : bool) : Category := mkCategory 1 1 "Home" 1 "" "Home" s.
Definition leaf (s : bool) : Category :=
  mkCategory 2 1 "Chairs" 2 "1" "Home / Chairs" s.

(** [{"sync": False}] and [{"title": "Seats"}] *)
Definition unset : ConfigCategory.Values :=
  ConfigCategory.mkValues None None None None (Some false).
Definition rename : ConfigCategory.Values :=
  ConfigCategory.mkValues (Some "Seats") None None None None.

End Tree.

(** ** [sync_product.py]: the single-record entry points

    [client.get_product_variant] and [client.get_product] are reads of the
    remote side; they are parameters here, any computation that returns a
    payload or raises. *)

Section SingleSync.

Variable get_product_variant : Config -> pyval -> pyval -> M pyval.
Variable get_product : Config -> pyval -> M pyval.

(** [product_product.insales_sync_product_id], read through the template. *)
Definition product_id_of (w : World) (product : ProductProduct) : pyval :=
  match find (fun t => tmpl_id t =? product_tmpl_id product) (templates w) with
  | Some t => insales_sync_product_id t
  | None => PBool false
  end.

(** [product_template.insales_sync_config_id] *)
Definition config_of_template (w : World) (template : ProductTemplate) : Config :=
  match insales_sync_config_id template with
  | Some c =>
      match find (fun cfg => cfg_id cfg =? c) (configs w) with
      | Some cfg => cfg
      | None => empty_config
      end
  | None => empty_config
  end.

Definition catches_api_error (e : exn) : bool :=
  match e with ApiError => true | _ => false end.

(** [self.process_insales_variant(product_product, in_variant)] on what
    the remote side returned: [in_variant.get] needs a dict. *)
Definition process_fetched_variant (product_product : ProductProduct)
           (in_variant : pyval) : M unit :=
  match in_variant with
  | PDict d => process_insales_variant product_product d
  | _ => raise AttributeError
  end.

Definition sync_insales_variant (product_product : ProductProduct) : M unit :=
  product_id <- gets (fun w => product_id_of w product_product) ;;
  let variant_id := insales_sync_variant_id product_product in
  cfg <- gets (fun w => config_of w product_product) ;;
  if negb (active cfg) || negb (Py.truthy variant_id)
     || negb (Py.truthy product_id)
  then ret tt
  else
    try_except
      (in_variant <- get_product_variant cfg product_id variant_id ;;
       process_fetched_variant product_product in_variant)
      catches_api_error
      (fun _ => raise (Sync (VariantInSalesNotFoundError variant_id))).

Definition sync_insales_product (product_template : ProductTemplate) : M unit :=
  let product_id := insales_sync_product_id product_template in
  cfg <- gets (fun w => config_of_template w product_template) ;;
  if negb (active cfg) || negb (Py.truthy product_id) then ret tt
  else
    try_except
      (in_product <- get_product cfg product_id ;;
       process_insales_product cfg in_product)
      catches_api_error
      (fun _ => raise (Sync (ProductInSalesNotFoundError product_id))).

End SingleSync.

(** ** [product.py]: the flags of a template with a single variant

    A computed field of the template is what its compute method assigns; a
    method over a recordset yields the assignments it makes, in order. *)

Module TemplateFlags.

(** [template.product_variant_ids] *)
Definition product_variant_ids (w : World) (template : ProductTemplate)
  : list ProductProduct :=
  filter (fun p => product_tmpl_id p =? tmpl_id template) (products w).

Definition has_one_variant (w : World) (template : ProductTemplate) : bool :=
  (List.length (product_variant_ids w template) =? 1)%nat.

(** The shape shared by the compute methods: the templates with exactly
    one variant take the variant's value, the others [False]. *)
Definition compute_from_variant (get : ProductProduct -> bool) (w : World)
           (self : list ProductTemplate) : list (Z * bool) :=
  let unique_variants := filter (has_one_variant w) self in
  map (fun template =>
         (tmpl_id template,
          match product_variant_ids w template with
          | [p] => get p
          | _ => false
          end))
      unique_variants
  ++ map (fun template => (tmpl_id template, false))
         (filter (fun template => negb (has_one_variant w template)) self).

(** The shape shared by the inverse methods: with exactly one variant the
    value goes to the variant, else nothing happens. *)
Definition set_on_variant (set : bool -> ProductProduct -> ProductProduct)
           (template : ProductTemplate) (value : bool) (w : World) : World :=
  if has_one_variant w template then
    set_products
      (map (fun p => if product_tmpl_id p =? tmpl_id template
                     then set value p else p)
           (products w))
      w
  else w.

Definition with_skip_price (b : bool) (p : ProductProduct) : ProductProduct :=
  mkProductProduct (pp_id p) (default_code p) (weight p) (product_tmpl_id p)
                   (insales_sync_variant_id p) (insales_sync_timestamp p)
                   b (insales_sync_skip_qty p) (insales_sync_skip_weight p).

Definition with_skip_qty (b : bool) (p : ProductProduct) : ProductProduct :=
  mkProductProduct (pp_id p) (default_code p) (weight p) (product_tmpl_id p)
                   (insales_sync_variant_id p) (insales_sync_timestamp p)
                   (insales_sync_skip_price p) b (insales_sync_skip_weight p).

Definition with_skip_weight (b : bool) (p : ProductProduct) : ProductProduct :=
  mkProductProduct (pp_id p) (default_code p) (weight p) (product_tmpl_id p)
                   (insales_sync_variant_id p) (insales_sync_timestamp p)
                   (insales_sync_skip_price p) (insales_sync_skip_qty p) b.

Definition _compute_insales_sync_skip_price :=
  compute_from_variant insales_sync_skip_price.
Definition _set_insales_sync_skip_price := set_on_variant with_skip_price.

Definition _compute_insales_sync_skip_qty :=
  compute_from_variant insales_sync_skip_qty.
Definition _set_insales_sync_skip_qty := set_on_variant with_skip_qty.

Definition _compute_insales_sync_skip_weight :=
  compute_from_variant insales_sync_skip_weight.
Definition _set_insales_sync_skip_weight := set_on_variant with_skip_weight.

(** A flag set through a template with one variant is what the compute
    method then assigns to the template; on any other template the
    inverse method does nothing and the compute method assigns [False]. *)
Definition flag_round_trip
           (compute : World -> list ProductTemplate -> list (Z * bool))
           (inverse : ProductTemplate -> bool -> World -> World) : Prop :=
  forall w template value self,
    In template self ->
    (has_one_variant w template = true ->
     In (tmpl_id template, value)
        (compute (inverse template value w) self))
    /\ (has_one_variant w template = false ->
        inverse template value w = w
        /\ In (tmpl_id template, false) (compute w self)).

End TemplateFlags.

(** ** [config.py]: the parent paths of [update_categories]

    The entries of [cats] are the dicts built from the remote categories:
    the remote id (also their key in [cats], so the ids of a tree are
    distinct), the remote parent id ([None] when nil or absent) and the
    title.  [walk_up] calls itself once per ancestor, each call taking a
    frame of the interpreter: its first argument is the number of frames
    the interpreter still allows, which is below its recursion limit, and
    [None] stands for the [RecursionError] raised when they run out. *)

Module UpdateCategories.

Record Cat : Type := mkCat {
  c_insales_id : Z;
  c_insales_parent_id : option Z;
  c_title : pyval }.

(** [tree.get(key)] *)
Definition tree_get (tree : list Cat) (key : Z) : option Cat :=
  find (fun c => c_insales_id c =? key) tree.

(** [sys.getrecursionlimit()], as the interpreter starts. *)
Definition recursion_limit : nat := 1000.

Fixpoint walk_up (frames : nat) (tree : list Cat) (curr : Cat) (path : list Z)
  : option (list Z) :=
  match frames with
  | O => None
  | S frames' =>
      match c_insales_parent_id curr with
      | None => Some path
      | Some key =>
          match tree_get tree key with
          | None => Some path
          | Some parent =>
              walk_up frames' tree parent (c_insales_id parent :: path)
          end
      end
  end.

(** A chain of [n] categories, each the parent of the next: category
    [k + 1] has parent [k], and category 1 has none. *)
Definition chain (n : nat) : list Cat :=
  map (fun k => mkCat (Z.of_nat k)
                      (if (k =? 1)%nat then None else Some (Z.of_nat k - 1))
                      PNone)
      (seq 1 n).

(** The entry that [walk_up] moves to from [curr], if any. *)
Definition parent_of (tree : list Cat) (curr : Cat) : option Cat :=
  match c_insales_parent_id curr with
  | Some key => tree_get tree key
  | None => None
  end.

(** ["/".join([str(x) for x in parent_path])] *)
Definition path_str (parent_path : list Z) : string :=
  PyStr.join "/" (map str_of_Z parent_path).

(** The [parent_path] that [update_categories] stores for an entry. *)
Definition materialized_parent_path (frames : nat) (tree : list Cat)
           (cat : Cat) : option string :=
  option_map path_str (walk_up frames tree cat []).

(** A string without ["/"]. *)
Fixpoint slash_free (s : string) : bool :=
  match s with
  | EmptyString => true
  | String c s' => negb (Ascii.eqb c "/") && slash_free s'
  end.

End UpdateCategories.

(** ** Further notions used to state the properties *)

(** The value the payload holds for a key that only scalar modifiers use:
    that of the last of them. *)
Definition last_value (k : string) (mods : list VariantModifier) : option pyval :=
  option_map value
             (find (fun m => String.eqb (field_name m) k) (rev mods)).

(** A local variant carries the SKU of a remote variant. *)
Definition carries_sku (q : ProductProduct) (in_variant : pyval) : bool :=
  match in_variant, default_code q with
  | PDict d, Some code => Py.eq_str (Py.get d "sku") code
  | _, _ => false
  end.

(** The values of the list modifiers, in order. *)
Definition list_values (mods : list VariantModifier) : list pyval :=
  map value (filter is_list mods).

(** The rows of the configuration table that carry the id of [cfg] are in
    the test environment. *)
Definition test_rows (cfg : Config) (w : World) : Prop :=
  forall c, In c (configs w) -> cfg_id c = cfg_id cfg ->
            prod_environment c = false.

(** A computation that, started with such a table, calls no remote update
    and leaves the table such. *)
Definition pushes_nothing {A : Type} (cfg : Config) (m : M A) : Prop :=
  forall w, test_rows cfg w ->
    test_rows cfg (snd (m w))
    /\ exists evs,
         trace (snd (m w)) = trace w ++ evs
         /\ Forall (fun e => is_update_call e = false) evs.
(** * Properties *)

(** ** Printing a number and reading it back *)

Module Numbers.

#[local] Arguments digit_char : simpl never.
#[local] Arguments Z.pow : simpl never.
#[local] Arguments Z.mul : simpl never.
#[local] Arguments Z.add : simpl never.
#[local] Arguments Z.div : simpl never.
#[local] Arguments Z.modulo : simpl never.

Lemma digit_of_digit_char k : 0 <= k <= 9 -> digit_of (digit_char k) = Some k.
Proof.
  intros H.
  assert (E : k = 0 \/ k = 1 \/ k = 2 \/ k = 3 \/ k = 4 \/ k = 5 \/ k = 6
              \/ k = 7 \/ k = 8 \/ k = 9) by lia.
  repeat (destruct E as [->|E]; [reflexivity|]). subst; reflexivity.
Qed.

Lemma mod10_digit n : 0 <= n mod 10 <= 9.
Proof. pose proof (Z.mod_pos_bound n 10 ltac:(lia)). lia. Qed.

Lemma is_digit_digit_char k : 0 <= k <= 9 -> is_digit (digit_char k) = true.
Proof. intros H. unfold is_digit. now rewrite digit_of_digit_char. Qed.

Lemma is_digit_not c x :
  is_digit c = true -> is_digit x = false -> Ascii.eqb c x = false.
Proof.
  intros Hc Hx. destruct (Ascii.eqb_spec c x) as [->|]; [congruence | reflexivity].
Qed.

Lemma digits_val_digit a k s :
  0 <= k <= 9 ->
  digits_val a (String (digit_char k) s) = digits_val (10 * a + k) s.
Proof. intros H. cbn [digits_val]. now rewrite digit_of_digit_char. Qed.

Lemma digits_val_app s1 : forall a s2,
  digits_val a (s1 ++ s2) =
  match digits_val a s1 with Some v => digits_val v s2 | None => None end.
Proof.
  induction s1 as [|c s1 IH]; intros a s2; cbn [append digits_val]; [reflexivity|].
  destruct (digit_of c); [apply IH | reflexivity].
Qed.

Lemma digits_of_app f : forall n acc x,
  (digits_of f n acc ++ x)%string = digits_of f n (acc ++ x).
Proof.
  induction f as [|f IH]; intros n acc x; cbn [digits_of]; [reflexivity|].
  destruct (n / 10 =? 0); [reflexivity | apply IH].
Qed.

Lemma pow10_succ n : pow10 (S n) = 10 * pow10 n.
Proof. unfold pow10. rewrite Nat2Z.inj_succ, Z.pow_succ_r by lia. reflexivity. Qed.

Lemma pow10_pos n : 0 < pow10 n.
Proof. unfold pow10. apply Z.pow_pos_nonneg; lia. Qed.

Lemma digits_val_digits_of f : forall n acc,
  0 <= n < pow10 f ->
  digits_val 0 (digits_of f n acc) = digits_val n acc.
Proof.
  induction f as [|f IH]; intros n acc H.
  - change (pow10 0) with 1 in H. assert (n = 0) by lia. now subst.
  - cbn [digits_of]. rewrite pow10_succ in H.
    pose proof (Z.div_mod n 10 ltac:(lia)) as Hd.
    pose proof (mod10_digit n) as Hm.
    destruct (Z.eqb_spec (n / 10) 0) as [E|E].
    + rewrite digits_val_digit by exact Hm. f_equal. lia.
    + rewrite IH.
      * rewrite digits_val_digit by exact Hm. f_equal. lia.
      * split; [apply Z.div_pos; lia | apply Z.div_lt_upper_bound; lia].
Qed.

Lemma log2_bound n : 0 <= n -> n < pow10 (S (Z.to_nat (Z.log2 n))).
Proof.
  intros H. unfold pow10.
  rewrite Nat2Z.inj_succ, Z2Nat.id by apply Z.log2_nonneg.
  destruct (Z.eq_dec n 0) as [->|N].
  - reflexivity.
  - pose proof (Z.log2_spec n ltac:(lia)) as [_ Hu].
    eapply Z.lt_le_trans; [exact Hu|].
    apply Z.pow_le_mono_l. pose proof (Z.log2_nonneg n). lia.
Qed.

Lemma digits_val_str_of_nonneg n x :
  0 <= n -> digits_val 0 (str_of_nonneg n ++ x) = digits_val n x.
Proof.
  intros H. unfold str_of_nonneg. rewrite digits_of_app.
  apply digits_val_digits_of. split; [exact H | now apply log2_bound].
Qed.

Lemma digits_val_fixed w : forall v r,
  0 <= r < pow10 w ->
  digits_val v (digits_fixed w r) = Some (v * pow10 w + r).
Proof.
  induction w as [|w IH]; intros v r H.
  - change (pow10 0) with 1 in *. cbn [digits_fixed digits_val]. f_equal. lia.
  - cbn [digits_fixed]. rewrite digits_val_app. rewrite pow10_succ in *.
    pose proof (Z.div_mod r 10 ltac:(lia)) as Hd.
    pose proof (mod10_digit r) as Hm.
    rewrite IH.
    + rewrite digits_val_digit by exact Hm. cbn [digits_val]. f_equal. lia.
    + split; [apply Z.div_pos; lia | apply Z.div_lt_upper_bound; lia].
Qed.

Lemma length_append a b :
  String.length (a ++ b) = (String.length a + String.length b)%nat.
Proof.
  induction a as [|c a IH]; cbn [append String.length]; [reflexivity|].
  now rewrite IH.
Qed.

Lemma length_digits_fixed w : forall r, String.length (digits_fixed w r) = w.
Proof.
  induction w as [|w IH]; intros r; cbn [digits_fixed]; [reflexivity|].
  rewrite length_append, IH. cbn [String.length]. lia.
Qed.

Lemma all_digits_app a b : all_digits (a ++ b) = all_digits a && all_digits b.
Proof.
  induction a as [|c a IH]; cbn [append all_digits]; [reflexivity|].
  now rewrite IH, andb_assoc.
Qed.

Lemma all_digits_fixed w : forall r, all_digits (digits_fixed w r) = true.
Proof.
  induction w as [|w IH]; intros r; cbn [digits_fixed]; [reflexivity|].
  rewrite all_digits_app, IH. cbn [all_digits].
  now rewrite is_digit_digit_char by apply mod10_digit.
Qed.

Lemma all_digits_digits_of f : forall n acc,
  all_digits acc = true -> all_digits (digits_of f n acc) = true.
Proof.
  induction f as [|f IH]; intros n acc H; cbn [digits_of]; [exact H|].
  assert (A : all_digits (String (digit_char (n mod 10)) acc) = true).
  { cbn [all_digits]. now rewrite is_digit_digit_char, H by apply mod10_digit. }
  destruct (n / 10 =? 0); [exact A | now apply IH].
Qed.

Lemma digits_of_nonempty f : forall n acc,
  acc <> "" -> digits_of f n acc <> "".
Proof.
  induction f as [|f IH]; intros n acc H; cbn [digits_of]; [exact H|].
  destruct (n / 10 =? 0); [discriminate | apply IH; discriminate].
Qed.

Lemma str_of_nonneg_digits n : all_digits (str_of_nonneg n) = true.
Proof. apply all_digits_digits_of. reflexivity. Qed.

Lemma str_of_nonneg_head n :
  exists c s, str_of_nonneg n = String c s /\ is_digit c = true.
Proof.
  pose proof (str_of_nonneg_digits n) as A.
  assert (N : str_of_nonneg n <> "").
  { unfold str_of_nonneg. cbn [digits_of].
    destruct (n / 10 =? 0); [discriminate | apply digits_of_nonempty; discriminate]. }
  destruct (str_of_nonneg n) as [|c s]; [congruence|].
  cbn [all_digits] in A. apply andb_true_iff in A. exists c, s. tauto.
Qed.

Lemma split_point_digits a : forall b,
  all_digits a = true ->
  split_point (a ++ String "." b) = (a, Some b).
Proof.
  induction a as [|c a IH]; intros b H; cbn [append split_point all_digits] in *;
    [reflexivity|].
  apply andb_true_iff in H. destruct H as [Hc Ha].
  rewrite (is_digit_not c "." Hc eq_refl), (IH b Ha). reflexivity.
Qed.

Lemma split_point_no_point a :
  all_digits a = true -> split_point a = (a, None).
Proof.
  induction a as [|c a IH]; intros H; cbn [split_point all_digits] in *;
    [reflexivity|].
  apply andb_true_iff in H. destruct H as [Hc Ha].
  rewrite (is_digit_not c "." Hc eq_refl), (IH Ha). reflexivity.
Qed.

Lemma append_nil_r s : (s ++ "")%string = s.
Proof. induction s as [|c s IH]; cbn [append]; [reflexivity | now rewrite IH]. Qed.

Lemma unsigned_decimal_str neg a s :
  0 <= a ->
  unsigned_decimal neg
    (str_of_nonneg (a / pow10 s)
     ++ match s with
        | O => ""
        | S _ => "." ++ digits_fixed s (a mod pow10 s)
        end)
  = Some (mkdec (if neg then - a else a) s).
Proof.
  intros Ha. unfold unsigned_decimal.
  pose proof (pow10_pos s) as P.
  assert (Q : 0 <= a / pow10 s) by (apply Z.div_pos; lia).
  pose proof (Z.div_mod a (pow10 s) ltac:(lia)) as Hd.
  pose proof (Z.mod_pos_bound a (pow10 s) P) as Hm.
  destruct (str_of_nonneg_head (a / pow10 s)) as (c & r & E & Hc).
  destruct s as [|s].
  - rewrite append_nil_r, split_point_no_point by apply str_of_nonneg_digits.
    rewrite digits_val_str_of_nonneg by exact Q.
    rewrite append_nil_r, E. cbn [digits_val String.length].
    change (pow10 0) with 1 in *. rewrite Z.div_1_r. reflexivity.
  - change ("." ++ digits_fixed (S s) (a mod pow10 (S s)))%string
      with (String "." (digits_fixed (S s) (a mod pow10 (S s)))).
    rewrite split_point_digits by apply str_of_nonneg_digits.
    rewrite digits_val_str_of_nonneg by exact Q.
    rewrite digits_val_fixed by exact Hm.
    rewrite length_digits_fixed, E. cbn [append].
    replace (a / pow10 (S s) * pow10 (S s) + a mod pow10 (S s)) with a by lia.
    reflexivity.
Qed.

Lemma Decimal_unsigned body c r :
  body = String c r -> is_digit c = true ->
  Decimal body = unsigned_decimal false body.
Proof.
  intros -> Hc. unfold Decimal.
  pose proof (is_digit_not c "-" Hc eq_refl) as N1.
  pose proof (is_digit_not c "+" Hc eq_refl) as N2.
  destruct c as [[] [] [] [] [] [] [] []]; try reflexivity; discriminate.
Qed.

Lemma append_head c a b : (String c a ++ b)%string = String c (a ++ b).
Proof. reflexivity. Qed.

Lemma append_empty b : ("" ++ b)%string = b.
Proof. reflexivity. Qed.

Theorem Decimal_dec_str d : Decimal (dec_str d) = Some d.
Proof.
  destruct d as [m s]. unfold dec_str. cbn [mant scale].
  destruct (Z.ltb_spec m 0) as [H|H].
  - rewrite append_head, append_empty. cbn [Decimal].
    rewrite unsigned_decimal_str by lia. f_equal. f_equal. lia.
  - rewrite append_empty, Z.abs_eq by lia.
    destruct (str_of_nonneg_head (m / pow10 s)) as (c & r & E & Hc).
    erewrite Decimal_unsigned; [now apply unsigned_decimal_str | | exact Hc].
    rewrite E. apply append_head.
Qed.

Lemma dec_str_nonempty d : String.eqb (dec_str d) "" = false.
Proof.
  unfold dec_str.
  destruct (str_of_nonneg_head (Z.abs (mant d) / pow10 (scale d)))
    as (c & r & E & _).
  rewrite E. destruct (mant d <? 0); reflexivity.
Qed.

End Numbers.

(** [Decimal] reads back what [float_repr] prints. *)
Lemma to_Decimal_float_repr value digits :
  Builtins.to_Decimal (float_repr value digits) = Ok (float_repr_dec value digits).
Proof.
  unfold Builtins.to_Decimal, float_repr. now rewrite Numbers.Decimal_dec_str.
Qed.

Lemma float_repr_truthy value digits :
  Py.truthy (PStr (float_repr value digits)) = true.
Proof.
  unfold Py.truthy, float_repr. now rewrite Numbers.dec_str_nonempty.
Qed.

(** ** The monad *)

Lemma bind_ok {A B : Type} (m : M A) (f : A -> M B) w a w' :
  m w = (Ok a, w') -> bind m f w = f a w'.
Proof. unfold bind; intros ->; reflexivity. Qed.

Lemma bind_raise {A B : Type} (m : M A) (f : A -> M B) w e w' :
  m w = (Raise e, w') -> bind m f w = (Raise e, w').
Proof. unfold bind; intros ->; reflexivity. Qed.

Lemma fold_m_app {A B : Type} (body : B -> A -> M B) l1 l2 acc w :
  fold_m body (l1 ++ l2) acc w =
  match fold_m body l1 acc w with
  | (Ok a, w1) => fold_m body l2 a w1
  | (Raise e, w1) => (Raise e, w1)
  end.
Proof.
  revert acc w; induction l1 as [|x l1 IH]; intros acc w; simpl.
  - reflexivity.
  - unfold bind. destruct (body acc x w) as [[a|e] w1]; [apply IH | reflexivity].
Qed.

Lemma add_events_app evs1 evs2 w :
  add_events (evs1 ++ evs2) w = add_events evs2 (add_events evs1 w).
Proof. unfold add_events; apply fold_left_app. Qed.

Lemma trace_add_events evs w : trace (add_events evs w) = trace w ++ evs.
Proof.
  revert w; induction evs as [|e evs IH]; intros w; simpl.
  - now rewrite app_nil_r.
  - rewrite IH; simpl. now rewrite <- app_assoc.
Qed.

Lemma quants_add_events evs w : quants (add_events evs w) = quants w.
Proof. revert w; induction evs as [|e evs IH]; intros w; simpl; [|rewrite IH]; reflexivity. Qed.

Lemma products_add_events evs w : products (add_events evs w) = products w.
Proof. revert w; induction evs as [|e evs IH]; intros w; simpl; [|rewrite IH]; reflexivity. Qed.

Lemma templates_add_events evs w : templates (add_events evs w) = templates w.
Proof. revert w; induction evs as [|e evs IH]; intros w; simpl; [|rewrite IH]; reflexivity. Qed.

Lemma configs_add_events evs w : configs (add_events evs w) = configs w.
Proof. revert w; induction evs as [|e evs IH]; intros w; simpl; [|rewrite IH]; reflexivity. Qed.

Lemma now_add_events evs w : now (add_events evs w) = now w.
Proof. revert w; induction evs as [|e evs IH]; intros w; simpl; [|rewrite IH]; reflexivity. Qed.

Lemma update_fails_add_events evs w :
  update_fails (add_events evs w) = update_fails w.
Proof. revert w; induction evs as [|e evs IH]; intros w; simpl; [|rewrite IH]; reflexivity. Qed.

Lemma config_of_add_events evs w p :
  config_of (add_events evs w) p = config_of w p.
Proof.
  unfold config_of. now rewrite templates_add_events, configs_add_events.
Qed.

(** ** Computations that only log *)

Lemma logs_only_ret {A : Type} (a : A) : logs_only (ret a).
Proof. intros w; exists []; split; [reflexivity | constructor]. Qed.

Lemma logs_only_raise {A : Type} (e : exn) : logs_only (@raise A e).
Proof. intros w; exists []; split; [reflexivity | constructor]. Qed.

Lemma logs_only_lift {A : Type} (r : Result A) : logs_only (lift r).
Proof. intros w; exists []; split; [reflexivity | constructor]. Qed.

Lemma logs_only_gets {A : Type} (f : World -> A) : logs_only (gets f).
Proof. intros w; exists []; split; [reflexivity | constructor]. Qed.

Lemma logs_only_log lv s l : logs_only (log lv s l).
Proof.
  intros w; exists [Log lv s l]; split; [reflexivity | repeat constructor].
Qed.

Lemma logs_only_bind {A B : Type} (m : M A) (f : A -> M B) :
  logs_only m -> (forall a, logs_only (f a)) -> logs_only (bind m f).
Proof.
  intros Hm Hf w. destruct (Hm w) as (evs1 & E1 & F1).
  unfold bind. destruct (m w) as [[a|e] w1]; simpl in E1; subst w1.
  - destruct (Hf a (add_events evs1 w)) as (evs2 & E2 & F2).
    exists (evs1 ++ evs2). rewrite add_events_app, E2.
    split; [reflexivity | now apply Forall_app].
  - exists evs1; now split.
Qed.

Lemma logs_only_try {A : Type} (body : M A) catches handler :
  logs_only body -> (forall e, logs_only (handler e)) ->
  logs_only (try_except body catches handler).
Proof.
  intros Hm Hf w. destruct (Hm w) as (evs1 & E1 & F1).
  unfold try_except. destruct (body w) as [[a|e] w1]; simpl in E1; subst w1.
  - exists evs1; now split.
  - destruct (catches e).
    + destruct (Hf e (add_events evs1 w)) as (evs2 & E2 & F2).
      exists (evs1 ++ evs2). rewrite add_events_app, E2.
      split; [reflexivity | now apply Forall_app].
    + exists evs1; now split.
Qed.

Lemma logs_only_fold_m {A B : Type} (body : B -> A -> M B) l :
  (forall acc x, logs_only (body acc x)) ->
  forall acc, logs_only (fold_m body l acc).
Proof.
  intros Hb; induction l as [|x l IH]; intros acc; simpl.
  - apply logs_only_ret.
  - apply logs_only_bind; [apply Hb | intros a; apply IH].
Qed.

Ltac logs_only_tac :=
  repeat first
    [ apply logs_only_ret | apply logs_only_raise | apply logs_only_lift
    | apply logs_only_gets | apply logs_only_log
    | apply logs_only_bind; [|intros ?]
    | apply logs_only_try; [|intros ?]
    | apply logs_only_fold_m; intros ? ?
    | match goal with
      | |- logs_only (if ?b then _ else _) => destruct b
      | |- logs_only (match ?x with _ => _ end) => destruct x
      end ].

Lemma logs_only_log_caught err : logs_only (log_caught err).
Proof. unfold log_caught, log_error_message. logs_only_tac. Qed.

Lemma logs_only_get_quantity p loc : logs_only (insales_sync_get_quantity p loc).
Proof. unfold insales_sync_get_quantity. logs_only_tac. Qed.

Lemma logs_only_qty_iteration p v mods f : logs_only (qty_iteration p v mods f).
Proof.
  unfold qty_iteration.
  apply logs_only_bind.
  - apply logs_only_try.
    + apply logs_only_bind; [apply logs_only_lift | intros a].
      apply logs_only_bind; [apply logs_only_get_quantity | intros b].
      apply logs_only_ret.
    + intros e. apply logs_only_bind; [apply logs_only_log_caught | intros _].
      apply logs_only_ret.
  - intros [[a b]|]; logs_only_tac.
Qed.

Lemma logs_only_qty p v : logs_only (_get_insales_variant_qty_modifiers p v).
Proof.
  unfold _get_insales_variant_qty_modifiers.
  destruct (insales_sync_skip_qty p); [apply logs_only_ret|].
  apply logs_only_bind; [apply logs_only_gets | intros cfg].
  apply logs_only_fold_m. intros; apply logs_only_qty_iteration.
Qed.

Lemma logs_only_weight p x : logs_only (_get_insales_variant_weight_modifiers p x).
Proof. unfold _get_insales_variant_weight_modifiers. logs_only_tac. Qed.

Lemma logs_only_price p x y : logs_only (_get_insales_variant_price_modifiers p x y).
Proof. unfold _get_insales_variant_price_modifiers. logs_only_tac. Qed.

Lemma logs_only_collect p v : logs_only (collect_modifiers p v).
Proof.
  unfold collect_modifiers.
  apply logs_only_bind; [apply logs_only_weight | intros a].
  apply logs_only_bind; [apply logs_only_price | intros b].
  apply logs_only_bind; [apply logs_only_qty | intros c].
  apply logs_only_ret.
Qed.

(** ** The field extractor *)

Lemma find_field_value_dicts field (entries : list dict) :
  find_field_value field (map PDict entries) =
  match find (matches_field field) entries with
  | Some d => Builtins.int (Py.or_ (Py.get d "value") (PInt 0))
  | None => Ok 0
  end.
Proof.
  induction entries as [|d entries IH]; simpl; [reflexivity|].
  unfold matches_field at 1.
  destruct (Py.eq_int _ _); [reflexivity | exact IH].
Qed.

Lemma find_none_iff {A : Type} (f : A -> bool) l :
  (forall x, In x l -> f x = false) -> find f l = None.
Proof.
  induction l as [|x l IH]; simpl; intros H; [reflexivity|].
  rewrite (H x (or_introl eq_refl)). apply IH; intros y Hy; apply H; now right.
Qed.

(** C6: for an additional-field mapping, the extractor returns [int(value or 0)]
    of the first entry of the field-value list whose field id equals the
    mapping's resolved id; a missing, [None] or empty value counts as 0;
    when no entry matches it returns 0 and raises nothing. *)
Theorem get_quantity_additional_field in_variant field (entries : list dict) :
  is_additional field = true ->
  Py.get_default in_variant "variant-field-values" (PList []) = PList (map PDict entries) ->
  get_quantity_from_insales_variant in_variant field =
    match find (matches_field field) entries with
    | Some in_field => Builtins.int (Py.or_ (Py.get in_field "value") (PInt 0))
    | None => Ok 0
    end
  /\ (forall in_field,
        Py.lookup in_field "value" = None \/ Py.get in_field "value" = PNone
        \/ Py.get in_field "value" = PStr "" ->
        Builtins.int (Py.or_ (Py.get in_field "value") (PInt 0)) = Ok 0)
  /\ ((forall in_field : dict,
         In in_field entries -> matches_field field in_field = false) ->
      get_quantity_from_insales_variant in_variant field = Ok 0).
Proof.
  intros Hadd Hlist.
  assert (E : get_quantity_from_insales_variant in_variant field =
              find_field_value field (map PDict entries)).
  { unfold get_quantity_from_insales_variant. rewrite Hadd, Hlist. reflexivity. }
  split; [|split].
  - rewrite E. apply find_field_value_dicts.
  - intros d [H | [H | H]].
    + unfold Py.get. rewrite H. reflexivity.
    + rewrite H. reflexivity.
    + rewrite H. reflexivity.
  - intros Hno. rewrite E, find_field_value_dicts.
    now rewrite (find_none_iff _ _ Hno).
Qed.

(** The scenario of the specification: field id 42 carries ["5"]. *)
Lemma get_quantity_additional_field_witness :
  get_quantity_from_insales_variant
    [("id", PInt 9);
     ("variant-field-values",
      PList [PDict [("variant-field-id", PInt 7); ("value", PStr "1")];
             PDict [("variant-field-id", PInt 42); ("value", PStr "5")]])]
    (mkQuantityField 1 true "custom_stock" 42) = Ok 5.
Proof.
  exact (proj1 (get_quantity_additional_field
                  [("id", PInt 9);
                   ("variant-field-values",
                    PList [PDict [("variant-field-id", PInt 7); ("value", PStr "1")];
                           PDict [("variant-field-id", PInt 42); ("value", PStr "5")]])]
                  (mkQuantityField 1 true "custom_stock" 42)
                  [[("variant-field-id", PInt 7); ("value", PStr "1")];
                   [("variant-field-id", PInt 42); ("value", PStr "5")]]
                  eq_refl eq_refl)).
Defined.

(** ** The quantity generator *)

Lemma insales_sync_get_quantity_eq p loc w :
  insales_sync_get_quantity p loc w
  = (Ok (dec_trunc (on_hand_minus_reserved w p loc)), w).
Proof. reflexivity. Qed.

Lemma qty_iteration_ok p v acc f w q :
  get_quantity_from_insales_variant v f = Ok q ->
  qty_iteration p v acc f w =
  (Ok (if Z.max q 0 =? local_qty w p f then acc
       else acc ++ [qty_modifier f (Z.max q 0) (local_qty w p f)]), w).
Proof.
  intros H. unfold qty_iteration, try_except, bind, lift. rewrite H.
  rewrite insales_sync_get_quantity_eq. unfold ret, local_qty.
  destruct (Z.max q 0 =? _); reflexivity.
Qed.

Lemma qty_iteration_caught p v acc f w s :
  get_quantity_from_insales_variant v f = Raise (Sync (UnknownInSalesVariantField s)) ->
  qty_iteration p v acc f w =
  (Ok acc, add_event (Log ERROR "Unknown InSales field: {}" [AVal (PStr s)]) w).
Proof.
  intros H. unfold qty_iteration, try_except, bind, lift. rewrite H. reflexivity.
Qed.

Lemma qty_iteration_raise p v acc f w e :
  get_quantity_from_insales_variant v f = Raise e ->
  catches_unknown_field e = false ->
  qty_iteration p v acc f w = (Raise e, w).
Proof.
  intros H C. unfold qty_iteration, try_except, bind, lift. rewrite H, C.
  reflexivity.
Qed.

Lemma catches_unknown_field_inv e :
  catches_unknown_field e = true ->
  exists s, e = Sync (UnknownInSalesVariantField s).
Proof.
  destruct e as [[]| | | | |]; simpl; try discriminate. intros _; eauto.
Qed.

Lemma get_quantity_unknown v f :
  is_additional f = false -> Py.has_key v (insales_field f) = false ->
  get_quantity_from_insales_variant v f
  = Raise (Sync (UnknownInSalesVariantField (insales_field f))).
Proof.
  intros H1 H2. unfold get_quantity_from_insales_variant. now rewrite H1, H2.
Qed.

(** What the loop yields does not depend on the log. *)
Lemma qty_iteration_quants p v acc f w w' :
  quants w = quants w' ->
  fst (qty_iteration p v acc f w) = fst (qty_iteration p v acc f w')
  /\ quants (snd (qty_iteration p v acc f w)) = quants w
  /\ quants (snd (qty_iteration p v acc f w')) = quants w'.
Proof.
  intros Q.
  assert (L : local_qty w p f = local_qty w' p f).
  { unfold local_qty, on_hand_minus_reserved. now rewrite Q. }
  destruct (get_quantity_from_insales_variant v f) as [q|e] eqn:E.
  - rewrite !(qty_iteration_ok _ _ _ _ _ _ E), L. simpl. auto.
  - destruct (catches_unknown_field e) eqn:C.
    + destruct (catches_unknown_field_inv _ C) as [s ->].
      rewrite !(qty_iteration_caught _ _ _ _ _ _ E). simpl. auto.
    + rewrite !(qty_iteration_raise _ _ _ _ _ _ E C). simpl. auto.
Qed.

Lemma qty_loop_quants p v l : forall acc w w',
  quants w = quants w' ->
  fst (fold_m (qty_iteration p v) l acc w)
  = fst (fold_m (qty_iteration p v) l acc w').
Proof.
  induction l as [|f l IH]; intros acc w w' Q; simpl; [reflexivity|].
  destruct (qty_iteration_quants p v acc f w w' Q) as (E & Q1 & Q2).
  unfold bind.
  destruct (qty_iteration p v acc f w) as [[a|e] w1];
    destruct (qty_iteration p v acc f w') as [[a'|e'] w1'];
    simpl in *; try discriminate.
  - injection E as ->. apply IH. congruence.
  - exact E.
Qed.

Lemma qty_loop_spec p v l : forall acc w,
  Forall (fun f => reads_or_unknown v f = true) l ->
  exists mods evs,
    fold_m (qty_iteration p v) l acc w = (Ok (acc ++ mods), add_events evs w)
    /\ Forall (fun e => is_log e = true) evs
    /\ (forall f q, In f l -> get_quantity_from_insales_variant v f = Ok q ->
                    Z.max q 0 <> local_qty w p f ->
                    In (qty_modifier f (Z.max q 0) (local_qty w p f)) mods)
    /\ (forall m, In m mods ->
          exists f q, In f l /\ get_quantity_from_insales_variant v f = Ok q
                      /\ Z.max q 0 <> local_qty w p f
                      /\ m = qty_modifier f (Z.max q 0) (local_qty w p f))
    /\ (forall f s, In f l ->
          get_quantity_from_insales_variant v f
          = Raise (Sync (UnknownInSalesVariantField s)) ->
          In (Log ERROR "Unknown InSales field: {}" [AVal (PStr s)]) evs).
Proof.
  induction l as [|f l IH]; intros acc w HF.
  - exists [], []. simpl. rewrite app_nil_r.
    repeat split; try constructor; intros; contradiction.
  - inversion HF as [|? ? Hf HF']; subst. unfold reads_or_unknown in Hf.
    simpl fold_m.
    destruct (get_quantity_from_insales_variant v f) as [q|e] eqn:E.
    + rewrite (bind_ok _ _ _ _ _ (qty_iteration_ok p v acc f w q E)).
      destruct (Z.eqb_spec (Z.max q 0) (local_qty w p f)) as [Heq|Hne].
      * destruct (IH acc w HF') as (mods & evs & R & L & P1 & P2 & P3).
        exists mods, evs. split; [exact R|]. split; [exact L|].
        split; [|split].
        -- intros g r [->|Hg] Eg Hn; [congruence | eauto].
        -- intros m Hm. destruct (P2 m Hm) as (g & r & ? & ? & ? & ?).
           exists g, r. repeat split; auto. now right.
        -- intros g s [->|Hg] Eg; [congruence | eauto].
      * destruct (IH (acc ++ [qty_modifier f (Z.max q 0) (local_qty w p f)]) w HF')
          as (mods & evs & R & L & P1 & P2 & P3).
        exists (qty_modifier f (Z.max q 0) (local_qty w p f) :: mods), evs.
        split; [rewrite R, <- app_assoc; reflexivity|]. split; [exact L|].
        split; [|split].
        -- intros g r [->|Hg] Eg Hn.
           ++ left. congruence.
           ++ right. eauto.
        -- intros m [<-|Hm].
           ++ exists f, q. repeat split; auto. now left.
           ++ destruct (P2 m Hm) as (g & r & ? & ? & ? & ?).
              exists g, r. repeat split; auto. now right.
        -- intros g s [->|Hg] Eg; [congruence | eauto].
    + destruct (catches_unknown_field_inv _ Hf) as [s ->].
      rewrite (bind_ok _ _ _ _ _ (qty_iteration_caught p v acc f w s E)).
      set (ev := Log ERROR "Unknown InSales field: {}" [AVal (PStr s)]).
      destruct (IH acc (add_event ev w) HF') as (mods & evs & R & L & P1 & P2 & P3).
      exists mods, (ev :: evs). split; [exact R|].
      split; [constructor; [reflexivity | exact L]|].
      split; [|split].
      * intros g r [->|Hg] Eg Hn; [congruence | exact (P1 g r Hg Eg Hn)].
      * intros m Hm. destruct (P2 m Hm) as (g & r & ? & ? & ? & ?).
        exists g, r. repeat split; auto. now right.
      * intros g s' [->|Hg] Eg.
        -- left. unfold ev. congruence.
        -- right. eauto.
Qed.

Lemma qty_generator_eq p v w :
  insales_sync_skip_qty p = false ->
  _get_insales_variant_qty_modifiers p v w
  = fold_m (qty_iteration p v) (quantity_fields (config_of w p)) [] w.
Proof.
  intros H. unfold _get_insales_variant_qty_modifiers. rewrite H. reflexivity.
Qed.

Lemma in_app_middle {A : Type} (x y : A) l1 l2 :
  In x (l1 ++ y :: l2) -> x <> y -> In x (l1 ++ l2).
Proof.
  rewrite !in_app_iff. simpl. intros [H|[H|H]] N; auto. congruence.
Qed.

Lemma in_app_weaken {A : Type} (x y : A) l1 l2 :
  In x (l1 ++ l2) -> In x (l1 ++ y :: l2).
Proof. rewrite !in_app_iff. simpl. tauto. Qed.

(** C5: a non-additional mapping whose field name is absent from the remote
    payload raises [UnknownInSalesVariantField] for that mapping; the
    quantity loop catches it, logs it and leaves the modifiers as they
    were; the generator yields what it yields without that mapping; and
    every other mapping whose remote value is read and differs from the
    local quantity has its modifier in the result. *)
Theorem unknown_field_skips_one_mapping p v w f l1 l2 :
  insales_sync_skip_qty p = false ->
  quantity_fields (config_of w p) = l1 ++ f :: l2 ->
  is_additional f = false ->
  Py.has_key v (insales_field f) = false ->
  get_quantity_from_insales_variant v f
    = Raise (Sync (UnknownInSalesVariantField (insales_field f)))
  /\ (forall acc w0,
        qty_iteration p v acc f w0
        = (Ok acc, add_event (Log ERROR "Unknown InSales field: {}"
                                  [AVal (PStr (insales_field f))]) w0))
  /\ fst (_get_insales_variant_qty_modifiers p v w)
     = fst (fold_m (qty_iteration p v) (l1 ++ l2) [] w)
  /\ (Forall (fun g => reads_or_unknown v g = true) (l1 ++ l2) ->
      exists mods evs,
        _get_insales_variant_qty_modifiers p v w = (Ok mods, add_events evs w)
        /\ In (Log ERROR "Unknown InSales field: {}"
                   [AVal (PStr (insales_field f))]) evs
        /\ (forall g q, In g (l1 ++ l2) ->
              get_quantity_from_insales_variant v g = Ok q ->
              Z.max q 0 <> local_qty w p g ->
              In (qty_modifier g (Z.max q 0) (local_qty w p g)) mods)
        /\ (forall m, In m mods ->
              exists g q, In g (l1 ++ l2)
                          /\ get_quantity_from_insales_variant v g = Ok q
                          /\ m = qty_modifier g (Z.max q 0) (local_qty w p g))).
Proof.
  intros Hskip Hfields Hadd Hkey.
  pose proof (get_quantity_unknown v f Hadd Hkey) as Hraise.
  split; [exact Hraise|].
  split; [intros acc w0; now apply qty_iteration_caught|].
  split.
  - rewrite (qty_generator_eq _ _ _ Hskip), Hfields, !fold_m_app.
    destruct (fold_m (qty_iteration p v) l1 [] w) as [[a|e] w1]; [|reflexivity].
    simpl fold_m.
    rewrite (bind_ok _ _ _ _ _ (qty_iteration_caught p v a f w1 _ Hraise)).
    apply qty_loop_quants. reflexivity.
  - intros HF.
    assert (HF' : Forall (fun g => reads_or_unknown v g = true) (l1 ++ f :: l2)).
    { apply Forall_forall. intros g Hg.
      destruct (in_app_or _ _ _ Hg) as [H|[<-|H]].
      - rewrite Forall_forall in HF. apply HF, in_or_app; now left.
      - unfold reads_or_unknown. now rewrite Hraise.
      - rewrite Forall_forall in HF. apply HF, in_or_app; now right. }
    destruct (qty_loop_spec p v (l1 ++ f :: l2) [] w HF')
      as (mods & evs & R & L & P1 & P2 & P3).
    exists mods, evs.
    rewrite (qty_generator_eq _ _ _ Hskip), Hfields.
    split; [exact R|].
    split; [apply (P3 f); [apply in_or_app; right; now left | exact Hraise]|].
    split.
    + intros g q Hg. apply P1. now apply in_app_weaken.
    + intros m Hm. destruct (P2 m Hm) as (g & q & Hg & Eg & _ & ->).
      exists g, q. repeat split; auto.
      apply (in_app_middle g f); [exact Hg | congruence].
Qed.

Lemma unknown_field_skips_one_mapping_witness :
  fst (_get_insales_variant_qty_modifiers
         (Scenario.product (mkdec 25 1))
         (Scenario.variant (PStr "SKU1") (mkdec 3 0) 3)
         (Scenario.world (Scenario.config true true
                            [Scenario.stock; Scenario.missing; Scenario.custom_stock])
                         [Scenario.product (mkdec 25 1)]
                         (Scenario.on_hand (mkdec 5 0) (mkdec 0 0)) false))
  = Ok [qty_modifier Scenario.stock 3 5].
Proof.
  exact (proj1 (proj2 (proj2
    (unknown_field_skips_one_mapping
       (Scenario.product (mkdec 25 1))
       (Scenario.variant (PStr "SKU1") (mkdec 3 0) 3)
       (Scenario.world (Scenario.config true true
                          [Scenario.stock; Scenario.missing; Scenario.custom_stock])
                       [Scenario.product (mkdec 25 1)]
                       (Scenario.on_hand (mkdec 5 0) (mkdec 0 0)) false)
       Scenario.missing [Scenario.stock] [Scenario.custom_stock]
       eq_refl eq_refl eq_refl eq_refl)))).
Defined.

(** ** Negative local quantities *)

Lemma quot_negative_iff m P : 0 < P -> (Z.quot m P < 0 <-> m <= - P).
Proof.
  intros HP.
  pose proof (Z.quot_rem' m P) as E.
  destruct (Z_le_gt_dec 0 m) as [Hm|Hm].
  - pose proof (Z.rem_bound_pos m P Hm HP).
    pose proof (Z.quot_pos m P Hm HP). split; lia.
  - assert (Hm' : m <= 0) by lia.
    pose proof (Z.rem_bound_pos_neg m P HP Hm'). split; intros; nia.
Qed.

Lemma dec_leb_minus_one d :
  dec_leb d (dec_of_Z (-1)) = true <-> mant d <= - pow10 (scale d).
Proof.
  unfold dec_leb, dec_compare, dec_of_Z. simpl mant. simpl scale.
  change (pow10 0) with 1. rewrite Z.mul_1_r.
  destruct (Z.compare_spec (mant d) (-1 * pow10 (scale d))); split; intros; try lia;
    try discriminate; reflexivity.
Qed.

Lemma dec_trunc_negative_iff d :
  dec_trunc d < 0 <-> dec_leb d (dec_of_Z (-1)) = true.
Proof.
  unfold dec_trunc. rewrite (quot_negative_iff _ _ (Numbers.pow10_pos _)).
  symmetry. apply dec_leb_minus_one.
Qed.

Lemma dec_trunc_integer d n : dec_eqb d (dec_of_Z n) = true -> dec_trunc d = n.
Proof.
  unfold dec_eqb, dec_compare, dec_of_Z, dec_trunc. simpl mant. simpl scale.
  change (pow10 0) with 1. rewrite Z.mul_1_r.
  destruct (Z.compare_spec (mant d) (n * pow10 (scale d))) as [E| |]; try discriminate.
  intros _. rewrite E. apply Z.quot_mul. pose proof (Numbers.pow10_pos (scale d)); lia.
Qed.

(** C10 (as the code has it): [insales_sync_get_quantity] returns on-hand
    minus reserved as it computes it, in floats (sums from the left, each
    addition and the difference rounded to the nearest double), truncated
    toward zero; the result is negative exactly when that difference is at
    most -1 and is the difference itself when that is an integer.  With
    the quantity skip-flag unset and every mapping readable or unknown, a
    mapping whose local quantity is negative gets a modifier carrying that
    negative quantity whatever the remote payload holds, since the remote
    value is floored at 0 first: the modifier is emitted on every pass. *)
Theorem negative_quantity_is_pushed p v w field r :
  let d := on_hand_minus_reserved w p (location field) in
  insales_sync_get_quantity p (location field) w = (Ok (dec_trunc d), w)
  /\ (dec_trunc d < 0 <-> dec_leb d (dec_of_Z (-1)) = true)
  /\ (forall n, dec_eqb d (dec_of_Z n) = true -> dec_trunc d = n)
  /\ (insales_sync_skip_qty p = false ->
      In field (quantity_fields (config_of w p)) ->
      Forall (fun g => reads_or_unknown v g = true) (quantity_fields (config_of w p)) ->
      get_quantity_from_insales_variant v field = Ok r ->
      dec_leb d (dec_of_Z (-1)) = true ->
      exists mods evs,
        _get_insales_variant_qty_modifiers p v w = (Ok mods, add_events evs w)
        /\ In (qty_modifier field (Z.max r 0) (dec_trunc d)) mods
        /\ diff_new_value (qty_modifier field (Z.max r 0) (dec_trunc d))
           = DVal (PInt (dec_trunc d))
        /\ dec_trunc d < 0
        /\ Z.max r 0 <> dec_trunc d).
Proof.
  intros d. split; [reflexivity|].
  split; [apply dec_trunc_negative_iff|].
  split; [apply dec_trunc_integer|].
  intros Hskip Hin HF Hr Hneg.
  apply dec_trunc_negative_iff in Hneg.
  destruct (qty_loop_spec p v _ [] w HF) as (mods & evs & R & L & P1 & _ & _).
  exists mods, evs. rewrite (qty_generator_eq _ _ _ Hskip).
  split; [exact R|].
  assert (N : Z.max r 0 <> local_qty w p field) by (unfold local_qty; fold d; lia).
  split; [exact (P1 field r Hin Hr N)|].
  split; [reflexivity|]. split; [exact Hneg | exact N].
Qed.

(** A negative quant of -2 and a remote quantity of 7. *)
Lemma negative_quantity_is_pushed_witness :
  exists mods evs,
    _get_insales_variant_qty_modifiers
      (Scenario.product (mkdec 25 1))
      (Scenario.variant (PStr "SKU1") (mkdec 3 0) 7)
      (Scenario.world (Scenario.config true true [Scenario.stock])
                      [Scenario.product (mkdec 25 1)]
                      (Scenario.on_hand (mkdec (-2) 0) (mkdec 0 0)) false)
    = (Ok mods,
       add_events evs
         (Scenario.world (Scenario.config true true [Scenario.stock])
                         [Scenario.product (mkdec 25 1)]
                         (Scenario.on_hand (mkdec (-2) 0) (mkdec 0 0)) false))
    /\ In (qty_modifier Scenario.stock 7 (-2)) mods.
Proof.
  destruct (proj2 (proj2 (proj2
    (negative_quantity_is_pushed
       (Scenario.product (mkdec 25 1))
       (Scenario.variant (PStr "SKU1") (mkdec 3 0) 7)
       (Scenario.world (Scenario.config true true [Scenario.stock])
                       [Scenario.product (mkdec 25 1)]
                       (Scenario.on_hand (mkdec (-2) 0) (mkdec 0 0)) false)
       Scenario.stock 7))))
    as (mods & evs & R & I & _).
  - reflexivity.
  - left; reflexivity.
  - repeat constructor.
  - reflexivity.
  - reflexivity.
  - exists mods, evs. split; [exact R | exact I].
Defined.

(** The sums are those of the machine: two quants of -0.3 and -0.7 make
    -1, though the doubles read are together above -1; ten quants of 0.1
    make less than 1, so 0; ten quants of -0.1 make 0 as well. *)
Example float_sums_round :
  let p := Scenario.product (mkdec 25 1) in
  let w qs := Scenario.world (Scenario.config true true []) [p] qs false in
  let q x := mkQuant 100 7 x (mkdec 0 0) in
  fst (insales_sync_get_quantity p 7 (w [q (mkdec (-3) 1); q (mkdec (-7) 1)]))
  = Ok (-1)
  /\ dec_trunc (dec_add (to_float (mkdec (-3) 1)) (to_float (mkdec (-7) 1))) = 0
  /\ fst (insales_sync_get_quantity p 7 (w (repeat (q (mkdec 1 1)) 10))) = Ok 0
  /\ fst (insales_sync_get_quantity p 7 (w (repeat (q (mkdec (-1) 1)) 10)))
     = Ok 0
  /\ fst (insales_sync_get_quantity
            p 7 (w [mkQuant 100 7 (mkdec 115 2) (mkdec 15 2)])) = Ok 0.
Proof. vm_compute. repeat split. Qed.

(** C10 as stated fails in four ways.  A fractional shortfall: with a
    negative quant of -0.5 and nothing reserved the difference is negative,
    yet the method returns 0 and no modifier is emitted against a remote
    quantity of 0.  With the quantity skip flag set a local quantity of -2
    yields no modifier.  Neither does it when the remote field of the
    mapping is unknown.  And when the remote value of another mapping
    cannot be read the generator raises and yields nothing. *)
Lemma negative_quantity_counterexample :
  let p := Scenario.product (mkdec 25 1) in
  let skipped := mkProductProduct 100 (Some "SKU1") (mkdec 25 1) 200 PNone
                                  None false true false in
  let w fields q :=
    Scenario.world (Scenario.config true true fields) [p]
                   (Scenario.on_hand q (mkdec 0 0)) false in
  let payload := Scenario.variant (PStr "SKU1") (mkdec 3 0) in
  let spare := mkQuantityField 7 false "spare" 0 in
  (dec_ltb (on_hand_minus_reserved (w [Scenario.stock] (mkdec (-5) 1)) p 7)
           (dec_of_Z 0) = true
   /\ insales_sync_skip_qty p = false
   /\ fst (insales_sync_get_quantity p 7 (w [Scenario.stock] (mkdec (-5) 1)))
      = Ok 0
   /\ ~ (exists z,
            fst (insales_sync_get_quantity
                   p 7 (w [Scenario.stock] (mkdec (-5) 1))) = Ok z
            /\ z < 0)
   /\ fst (_get_insales_variant_qty_modifiers
             p (payload 0) (w [Scenario.stock] (mkdec (-5) 1))) = Ok [])
  /\ (fst (insales_sync_get_quantity
             skipped 7 (w [Scenario.stock] (mkdec (-2) 0))) = Ok (-2)
      /\ fst (_get_insales_variant_qty_modifiers
                skipped (payload 7) (w [Scenario.stock] (mkdec (-2) 0)))
         = Ok [])
  /\ (fst (insales_sync_get_quantity
             p 7 (w [Scenario.missing] (mkdec (-2) 0))) = Ok (-2)
      /\ fst (_get_insales_variant_qty_modifiers
                p (payload 7) (w [Scenario.missing] (mkdec (-2) 0)))
         = Ok [])
  /\ (fst (insales_sync_get_quantity
             p 7 (w [spare; Scenario.stock] (mkdec (-2) 0))) = Ok (-2)
      /\ fst (_get_insales_variant_qty_modifiers
                p (("spare", PStr "many") :: payload 7)
                (w [spare; Scenario.stock] (mkdec (-2) 0)))
         = Raise ValueError).
Proof.
  cbv zeta. vm_compute. repeat split.
  intros (z & E & Hz). injection E as <-. discriminate Hz.
Qed.

(** ** The price generator *)

Lemma remote_differs_iff in_old_price computed :
  remote_differs in_old_price computed = true
  <-> match computed with
      | None => in_old_price <> PNone
      | Some d => Py.eq_dec in_old_price d = false
      end.
Proof.
  destruct computed as [d|]; simpl.
  - apply negb_true_iff.
  - destruct in_old_price; simpl; split; intros H; try reflexivity;
      try discriminate; congruence.
Qed.

(** The test of the code on the printed old price is the comparison of the
    remote old price with the effective one. *)
Lemma old_price_differs_eq in_old_price old_price price digits :
  old_price_differs in_old_price (old_price_text old_price price digits)
  = Ok (remote_differs in_old_price (old_price_num old_price price digits)).
Proof.
  unfold old_price_text, old_price_num.
  destruct (dec_leb old_price price); [reflexivity|].
  unfold old_price_differs.
  rewrite float_repr_truthy, to_Decimal_float_repr. reflexivity.
Qed.

Lemma str_val_old_price_text old_price price digits :
  str_val (old_price_text old_price price digits)
  = match old_price_num old_price price digits with
    | Some d => PStr (dec_str d)
    | None => PNone
    end.
Proof.
  unfold old_price_text, old_price_num.
  destruct (dec_leb old_price price); reflexivity.
Qed.

(** C2: with a pricelist and an old-price pricelist configured and the
    price skip-flag unset, the computed old price is null whenever it is
    not above the computed price; the result holds an old-price modifier
    exactly when the remote old price differs from the computed value
    ([None] against a value and a value against [None] included), and that
    modifier carries the computed value; a null remote old price against a
    null computed value yields no modifier. *)
Theorem old_price_modifier p in_price in_old_price w pricelist old_pricelist :
  pricelist_id (config_of w p) = Some pricelist ->
  old_pricelist_id (config_of w p) = Some old_pricelist ->
  insales_sync_skip_price p = false ->
  let digits := digits_or_16 w "Product Price" in
  let price := max0 (get_product_price w pricelist p) in
  let old_price := get_product_price w old_pricelist p in
  let computed := old_price_num old_price price digits in
  let new_value := match computed with
                   | Some d => PStr (dec_str d)
                   | None => PNone
                   end in
  exists mods,
    _get_insales_variant_price_modifiers p in_price in_old_price w = (Ok mods, w)
    /\ (dec_leb old_price price = true ->
        computed = None
        /\ forall m, In m mods -> is_old_price_mod m = true -> value m = PNone)
    /\ filter is_old_price_mod mods
       = (if remote_differs in_old_price computed
          then [ {| field_name := "old-price";
                    value := new_value;
                    diff_name := "old_price";
                    diff_old_value := str_or_none in_old_price;
                    diff_new_value := DVal new_value;
                    is_list := false |} ]
          else [])
    /\ (remote_differs in_old_price computed = true
        <-> match computed with
            | None => in_old_price <> PNone
            | Some d => Py.eq_dec in_old_price d = false
            end)
    /\ (in_old_price = PNone -> computed = None ->
        filter is_old_price_mod mods = []).
Proof.
  intros Hpl Hopl Hskip digits price old_price computed new_value.
  unfold _get_insales_variant_price_modifiers, bind, gets, ret, lift.
  rewrite Hpl, Hskip, Hopl.
  fold digits price old_price.
  rewrite to_Decimal_float_repr, old_price_differs_eq, str_val_old_price_text.
  fold computed new_value.
  set (price_mods :=
         if negb (Py.eq_dec in_price (float_repr_dec price digits)) then _ else []).
  assert (Hpm : filter is_old_price_mod price_mods = []).
  { unfold price_mods. destruct (negb _); reflexivity. }
  assert (Hpv : forall m, In m price_mods -> is_old_price_mod m = true -> value m = PNone).
  { unfold price_mods. destruct (negb _); simpl; [|tauto].
    intros m [<-|[]]. discriminate. }
  pose proof (remote_differs_iff in_old_price computed) as Hiff.
  destruct (remote_differs in_old_price computed) eqn:D.
  - eexists. split; [reflexivity|].
    split; [|split; [|split]].
    + intros Hle. assert (C : computed = None).
      { unfold computed, old_price_num. now rewrite Hle. }
      split; [exact C|]. intros m Hm.
      apply in_app_or in Hm. destruct Hm as [Hm|[<-|[]]]; [now apply Hpv|].
      intros _. unfold new_value. simpl. now rewrite C.
    + rewrite filter_app, Hpm. reflexivity.
    + exact Hiff.
    + intros -> C. rewrite C in D. discriminate.
  - exists price_mods. split; [reflexivity|].
    split; [|split; [|split]].
    + intros Hle. split; [|exact Hpv].
      unfold computed, old_price_num. now rewrite Hle.
    + exact Hpm.
    + exact Hiff.
    + intros _ _. exact Hpm.
Qed.

(** The scenario of the specification: remote old price 150.00 against a
    computed price of 200.00 gives an old-price modifier with value null. *)
Lemma old_price_modifier_witness :
  exists mods,
    _get_insales_variant_price_modifiers
      (Scenario.product (mkdec 25 1)) (PDec (mkdec 20000 2)) (PDec (mkdec 15000 2))
      (Scenario.world (Scenario.config true true [])
                      [Scenario.product (mkdec 25 1)] [] false)
    = (Ok mods,
       Scenario.world (Scenario.config true true [])
                      [Scenario.product (mkdec 25 1)] [] false)
    /\ forall m, In m mods -> is_old_price_mod m = true -> value m = PNone.
Proof.
  destruct (old_price_modifier
              (Scenario.product (mkdec 25 1)) (PDec (mkdec 20000 2))
              (PDec (mkdec 15000 2))
              (Scenario.world (Scenario.config true true [])
                              [Scenario.product (mkdec 25 1)] [] false)
              10 11 eq_refl eq_refl eq_refl)
    as (mods & R & Hle & _).
  exists mods. split; [exact R|]. exact (proj2 (Hle eq_refl)).
Defined.

(** ** The weight generator *)

(** When the weight itself is zero at the precision, the generator does
    what the zero-weight policy says: nothing (with a warning) when the
    policy is on, an explicit clear when it is off. *)
Lemma zero_weight_policy p in_weight w :
  sync_weight (config_of w p) = true ->
  insales_sync_skip_weight p = false ->
  let digits := digits_or_16 w "Stock Weight" in
  float_is_zero (weight p) digits = true ->
  Py.eq_dec in_weight (float_repr_dec (max0 (weight p)) digits) = false ->
  _get_insales_variant_weight_modifiers p in_weight w
  = if sync_weight_skip_zero (config_of w p) then
      (Ok [], add_event (Log WARNING "Skip zero weight sync of InSales variant %s"
                             [AVal (default_code_val p)]) w)
    else
      (Ok [ {| field_name := "weight"; value := PNone; diff_name := "weight";
               diff_old_value := str_or_none in_weight;
               diff_new_value := DVal PNone; is_list := false |} ], w).
Proof.
  intros Hsync Hskip digits Hzero Hne.
  subst digits.
  unfold _get_insales_variant_weight_modifiers, bind, gets, ret, log, emit, lift.
  cbv beta. rewrite Hsync, Hskip. cbn [negb orb]. cbv beta iota.
  rewrite to_Decimal_float_repr. cbv beta iota.
  rewrite Hne, Hzero. cbn [negb andb].
  destruct (sync_weight_skip_zero (config_of w p)); reflexivity.
Qed.

(** C3 at a negative local weight: floored at 0 the weight is zero at the
    precision and differs from the remote 3 kg, yet the zero test is made
    on the unfloored weight, so with the skip-zero policy on a modifier
    ["0.000"] is produced, and with the policy off the modifier carries
    ["0.000"] instead of null. *)
Theorem negative_weight_escapes_zero_policy :
  let p := Scenario.product (mkdec (-5) 0) in
  let w skip_zero :=
    Scenario.world (Scenario.config true skip_zero []) [p] [] false in
  let pushed :=
    {| field_name := "weight"; value := PStr "0.000"; diff_name := "weight";
       diff_old_value := DStrOf (PDec (mkdec 3 0));
       diff_new_value := DVal (PStr "0.000"); is_list := false |} in
  float_is_zero (max0 (weight p)) 3 = true
  /\ float_is_zero (weight p) 3 = false
  /\ Py.eq_dec (PDec (mkdec 3 0)) (float_repr_dec (max0 (weight p)) 3) = false
  /\ fst (_get_insales_variant_weight_modifiers p (PDec (mkdec 3 0)) (w true))
     = Ok [pushed]
  /\ fst (_get_insales_variant_weight_modifiers p (PDec (mkdec 3 0)) (w false))
     = Ok [pushed].
Proof. cbv zeta. repeat split. Qed.

(** ** The variant reconciler *)

Lemma process_variant_raise p v w e w1 :
  collect_modifiers p v w = (Raise e, w1) ->
  process_insales_variant p v w = (Raise e, w1).
Proof.
  intros H. unfold process_insales_variant, bind, gets. now rewrite H.
Qed.

Lemma process_variant_no_mods p v w w1 :
  collect_modifiers p v w = (Ok [], w1) ->
  process_insales_variant p v w
  = write_variant_link p (Py.get v "id") (now w1) w1.
Proof.
  intros H. unfold process_insales_variant, bind, gets. now rewrite H.
Qed.

Lemma process_variant_test p v w mods w1 :
  collect_modifiers p v w = (Ok mods, w1) -> mods <> [] ->
  prod_environment (config_of w p) = false ->
  process_insales_variant p v w
  = write_variant_link p (Py.get v "id") (now w1)
                       (add_event (info_event p mods) w1).
Proof.
  intros H N E. unfold process_insales_variant, bind, gets. rewrite H, E.
  destruct mods; [congruence | reflexivity].
Qed.

Lemma process_variant_prod p v w mods w1 data :
  collect_modifiers p v w = (Ok mods, w1) -> mods <> [] ->
  prod_environment (config_of w p) = true ->
  build_data mods [] = Ok data ->
  let w2 := add_event (info_event p mods) w1 in
  let refused := update_fails w1 (trace w2) (cfg_id (config_of w p))
                              (Py.get v "product-id") (Py.get v "id") data in
  let w3 := add_event (ApiUpdateProductVariant (cfg_id (config_of w p))
                         (Py.get v "product-id") (Py.get v "id") data
                         (negb refused)) w2 in
  process_insales_variant p v w
  = if refused then (Raise ApiError, w3)
    else write_variant_link p (Py.get v "id") (now w1) w3.
Proof.
  intros H N E D w2 refused w3.
  unfold process_insales_variant, bind, gets. rewrite H, E.
  destruct mods as [|m mods]; [congruence|].
  unfold lift, update_product_variant, log, emit. rewrite D.
  change (update_fails (add_event (Log INFO "Updating InSales variant %s: %s"
            [AVal (default_code_val p); ADiff (map diff_of (m :: mods))]) w1))
    with (update_fails w1).
  fold (info_event p (m :: mods)). fold w2. fold refused.
  destruct refused; reflexivity.
Qed.

Lemma process_variant_bad_payload p v w mods w1 e :
  collect_modifiers p v w = (Ok mods, w1) -> mods <> [] ->
  prod_environment (config_of w p) = true ->
  build_data mods [] = Raise e ->
  process_insales_variant p v w = (Raise e, add_event (info_event p mods) w1).
Proof.
  intros H N E D. unfold process_insales_variant, bind, gets. rewrite H, E.
  destruct mods as [|m mods]; [congruence|].
  unfold lift, log, emit. rewrite D. reflexivity.
Qed.

(** C1: when the production flag of the variant's configuration is false,
    [process_insales_variant] issues no [update_product_variant] call,
    however many modifiers there are; a non-empty list of modifiers is
    logged as a diff. *)
Theorem test_environment_never_updates p v w :
  prod_environment (config_of w p) = false ->
  exists evs,
    trace (snd (process_insales_variant p v w)) = trace w ++ evs
    /\ Forall (fun e => is_update_call e = false) evs
    /\ (forall mods w1,
          collect_modifiers p v w = (Ok mods, w1) -> mods <> [] ->
          In (info_event p mods) evs).
Proof.
  intros Henv.
  destruct (logs_only_collect p v w) as (evs1 & E1 & L1).
  assert (U1 : Forall (fun e => is_update_call e = false) evs1).
  { eapply Forall_impl; [|exact L1]. intros [] H; simpl in *; congruence. }
  destruct (collect_modifiers p v w) as [[mods|e] w1] eqn:C; simpl in E1; subst w1.
  - destruct mods as [|m mods].
    + rewrite (process_variant_no_mods _ _ _ _ C).
      exists (evs1 ++ [link_event p v w]). simpl.
      rewrite trace_add_events, now_add_events, <- app_assoc.
      split; [reflexivity|]. split.
      * apply Forall_app; split; [exact U1 | repeat constructor].
      * intros mods w1 H. injection H as <- <-. congruence.
    + rewrite (process_variant_test _ _ _ _ _ C ltac:(discriminate) Henv).
      exists (evs1 ++ [info_event p (m :: mods); link_event p v w]). simpl.
      rewrite trace_add_events, now_add_events, <- !app_assoc.
      split; [reflexivity|]. split.
      * apply Forall_app; split; [exact U1 | repeat constructor].
      * intros mods' w1 H _. injection H as <- <-.
        apply in_or_app; right; now left.
  - rewrite (process_variant_raise _ _ _ _ _ C).
    exists evs1. simpl. rewrite trace_add_events.
    split; [reflexivity|]. split; [exact U1|].
    intros mods w1 H. discriminate.
Qed.

Lemma test_environment_never_updates_witness :
  exists evs,
    trace (snd (process_insales_variant
                  (Scenario.product (mkdec 25 1))
                  (Scenario.variant (PStr "SKU1") (mkdec 3 0) 3)
                  (Scenario.world (Scenario.config false true [Scenario.stock])
                                  [Scenario.product (mkdec 25 1)]
                                  (Scenario.on_hand (mkdec 5 0) (mkdec 0 0)) false)))
    = [] ++ evs
    /\ Forall (fun e => is_update_call e = false) evs.
Proof.
  destruct (test_environment_never_updates
              (Scenario.product (mkdec 25 1))
              (Scenario.variant (PStr "SKU1") (mkdec 3 0) 3)
              (Scenario.world (Scenario.config false true [Scenario.stock])
                              [Scenario.product (mkdec 25 1)]
                              (Scenario.on_hand (mkdec 5 0) (mkdec 0 0)) false)
              eq_refl) as (evs & T & U & _).
  exists evs. split; [exact T | exact U].
Defined.

Lemma logs_are_not_writes evs :
  Forall (fun e => is_log e = true) evs ->
  Forall (fun e => is_orm_write e = false) evs.
Proof.
  intros H. eapply Forall_impl; [|exact H]. intros [] E; simpl in *; congruence.
Qed.

(** A call either reaches the write-back, or raises; before that it has
    made no ORM write. *)
Lemma categories_add_events evs w : categories (add_events evs w) = categories w.
Proof. revert w; induction evs as [|e evs IH]; intros w; simpl; [|rewrite IH]; reflexivity. Qed.

Lemma variant_outcome p v w :
  exists evs,
    Forall (fun e => is_orm_write e = false) evs
    /\ (process_insales_variant p v w
        = write_variant_link p (Py.get v "id") (now w) (add_events evs w)
        \/ exists e, process_insales_variant p v w = (Raise e, add_events evs w)).
Proof.
  destruct (logs_only_collect p v w) as (evs1 & E1 & L1).
  pose proof (logs_are_not_writes _ L1) as W1.
  destruct (collect_modifiers p v w) as [[mods|e'] w1] eqn:C;
    simpl in E1; subst w1.
  - destruct mods as [|m mods].
    + exists evs1. split; [exact W1|]. left.
      now rewrite (process_variant_no_mods _ _ _ _ C), now_add_events.
    + destruct (prod_environment (config_of w p)) eqn:Henv.
      * destruct (build_data (m :: mods) []) as [data|e'] eqn:D.
        -- pose proof (process_variant_prod _ _ _ _ _ data C
                         ltac:(discriminate) Henv D) as R.
           cbv zeta in R. rewrite now_add_events in R.
           match type of R with
           | context [if ?f then _ else _] => set (F := f) in *
           end.
           exists (evs1 ++ [info_event p (m :: mods);
                            ApiUpdateProductVariant
                              (cfg_id (config_of w p)) (Py.get v "product-id")
                              (Py.get v "id") data (negb F)]).
           split; [apply Forall_app; split; [exact W1 | repeat constructor]|].
           rewrite add_events_app, R.
           destruct F; [right; eexists; reflexivity | left; reflexivity].
        -- exists (evs1 ++ [info_event p (m :: mods)]).
           split; [apply Forall_app; split; [exact W1 | repeat constructor]|].
           right. exists e'. rewrite add_events_app.
           exact (process_variant_bad_payload _ _ _ _ _ _ C
                    ltac:(discriminate) Henv D).
      * exists (evs1 ++ [info_event p (m :: mods)]).
        split; [apply Forall_app; split; [exact W1 | repeat constructor]|].
        left. rewrite add_events_app.
        now rewrite (process_variant_test _ _ _ _ _ C ltac:(discriminate) Henv),
          now_add_events.
  - exists evs1. split; [exact W1|]. right. exists e'.
    exact (process_variant_raise _ _ _ _ _ C).
Qed.

(** C4 (as the code has it): a call of [process_insales_variant] that
    returns has written the remote variant id and the current timestamp on
    the local variant, in both environments and with no modifier at all,
    and no other field of a variant; the write refreshes the two stored
    fields of the variant's template that mirror them, and nothing else in
    the store changes.  The call returns whenever the generators raise
    nothing and the modifier list is empty, or the environment is the test
    one, or the production update is accepted.  A call that raises has
    written nothing. *)
Theorem write_back_when_completed p v w :
  let r := process_insales_variant p v w in
  let linked :=
    map (fun q => if pp_id q =? pp_id p
                  then with_variant_link (Py.get v "id") (now w) q
                  else q)
        (products w) in
  (fst r = Ok tt ->
   products (snd r) = linked
   /\ templates (snd r)
      = map (fun t => if is_template_of p (products w) t
                      then recompute_variant_link linked t else t)
            (templates w)
   /\ configs (snd r) = configs w
   /\ quants (snd r) = quants w
   /\ categories (snd r) = categories w
   /\ exists evs,
        trace (snd r) = trace w ++ evs ++ [link_event p v w]
        /\ Forall (fun e => is_orm_write e = false) evs)
  /\ (forall x t q,
         let q' := with_variant_link x t q in
         pp_id q' = pp_id q /\ default_code q' = default_code q
         /\ weight q' = weight q /\ product_tmpl_id q' = product_tmpl_id q
         /\ insales_sync_skip_price q' = insales_sync_skip_price q
         /\ insales_sync_skip_qty q' = insales_sync_skip_qty q
         /\ insales_sync_skip_weight q' = insales_sync_skip_weight q)
  /\ (forall variants t,
         let t' := recompute_variant_link variants t in
         tmpl_id t' = tmpl_id t
         /\ insales_sync_config_id t' = insales_sync_config_id t
         /\ insales_sync_product_id t' = insales_sync_product_id t
         /\ insales_sync_permalink t' = insales_sync_permalink t)
  /\ (forall mods w1,
         collect_modifiers p v w = (Ok mods, w1) ->
         (mods = [] \/ prod_environment (config_of w p) = false
          \/ exists data,
               build_data mods [] = Ok data
               /\ update_fails w (trace w1 ++ [info_event p mods])
                               (cfg_id (config_of w p)) (Py.get v "product-id")
                               (Py.get v "id") data = false) ->
         fst r = Ok tt)
  /\ (forall e,
        fst r = Raise e ->
        products (snd r) = products w
        /\ templates (snd r) = templates w
        /\ exists evs, trace (snd r) = trace w ++ evs
                       /\ Forall (fun e => is_orm_write e = false) evs).
Proof.
  cbv zeta.
  destruct (variant_outcome p v w) as (evs & W & O).
  split; [|split; [|split; [|split]]].
  - intros HR. destruct O as [O|(e & O)]; rewrite O in HR |- *;
      [|discriminate].
    cbn [write_variant_link snd add_event set_templates set_products
         products templates configs quants categories trace].
    rewrite !products_add_events, !templates_add_events, !configs_add_events,
      !quants_add_events, !categories_add_events, !trace_add_events.
    repeat split. exists evs. rewrite <- app_assoc.
    split; [reflexivity | exact W].
  - intros x t q. cbv zeta. repeat split.
  - intros variants t. cbv zeta. unfold recompute_variant_link.
    destruct (filter _ variants) as [|a [|b l]]; repeat split.
  - intros mods w1 C Hcond.
    destruct (logs_only_collect p v w) as (evs1 & E1 & L1).
    rewrite C in E1. simpl in E1. subst w1.
    destruct mods as [|m mods].
    + now rewrite (process_variant_no_mods _ _ _ _ C).
    + destruct (prod_environment (config_of w p)) eqn:Henv.
      * destruct Hcond as [H|[H|(data & D & U)]]; try discriminate.
        pose proof (process_variant_prod _ _ _ _ _ data C
                      ltac:(discriminate) Henv D) as R.
        cbv zeta in R. rewrite update_fails_add_events in R.
        change (trace (add_event (info_event p (m :: mods)) (add_events evs1 w)))
          with (trace (add_events evs1 w) ++ [info_event p (m :: mods)]) in R.
        rewrite U in R. now rewrite R.
      * now rewrite (process_variant_test _ _ _ _ _ C ltac:(discriminate) Henv).
  - intros e HR. destruct O as [O|(e' & O)]; rewrite O in HR |- *;
      [discriminate|].
    cbn [snd]. rewrite products_add_events, templates_add_events,
      trace_add_events.
    split; [reflexivity|]. split; [reflexivity|].
    exists evs. split; [reflexivity | exact W].
Qed.

(** A pass with nothing to change, in production: the link fields are
    written all the same, and the template of the variant mirrors them. *)
Lemma write_back_when_completed_witness :
  let r :=
    process_insales_variant
      (Scenario.product (mkdec 3 0))
      (Scenario.variant (PStr "SKU1") (mkdec 3000 3) 5)
      (Scenario.world (Scenario.config true true [Scenario.stock])
                      [Scenario.product (mkdec 3 0)]
                      (Scenario.on_hand (mkdec 5 0) (mkdec 0 0)) false) in
  products (snd r)
  = [with_variant_link (PInt 9) 1000 (Scenario.product (mkdec 3 0))]
  /\ templates (snd r)
     = [mkProductTemplate 200 (Some 1) PNone PNone (PInt 9) (Some 1000)].
Proof.
  cbv zeta.
  destruct (proj1 (write_back_when_completed
              (Scenario.product (mkdec 3 0))
              (Scenario.variant (PStr "SKU1") (mkdec 3000 3) 5)
              (Scenario.world (Scenario.config true true [Scenario.stock])
                              [Scenario.product (mkdec 3 0)]
                              (Scenario.on_hand (mkdec 5 0) (mkdec 0 0)) false))
              eq_refl) as (Hp & Ht & _).
  split; [exact Hp | exact Ht].
Defined.

(** C4 as stated fails when the production update is refused: the call
    ends in [ApiError] before the write-back and the local variant keeps
    its old link fields. *)
Lemma write_back_counterexample :
  let p := Scenario.product (mkdec 25 1) in
  let v := Scenario.variant (PStr "SKU1") (mkdec 3 0) 5 in
  let w := Scenario.world (Scenario.config true true [Scenario.stock]) [p]
                          (Scenario.on_hand (mkdec 5 0) (mkdec 0 0)) true in
  fst (process_insales_variant p v w) = Raise ApiError
  /\ products (snd (process_insales_variant p v w)) = [p]
  /\ Forall (fun e => is_orm_write e = false)
            (trace (snd (process_insales_variant p v w)))
  /\ ~ In (link_event p v w) (trace (snd (process_insales_variant p v w))).
Proof.
  cbv zeta. vm_compute. split; [reflexivity|]. split; [reflexivity|].
  split; [repeat constructor|].
  intros [H|[H|[]]]; discriminate.
Qed.

(** ** The product reconciler *)

Lemma catches_variant_error w v e :
  variant_error w v = Some e -> catches_variant_errors (Sync e) = true.
Proof.
  unfold variant_error. destruct (Py.is_none _).
  - intros [= <-]. reflexivity.
  - destruct (List.length _) as [|[|n]]; intros [= <-]; reflexivity.
Qed.

Lemma process_variant_try_error cfg in_product v w e :
  variant_error w v = Some e ->
  process_variant_try cfg in_product (PDict v) w
  = (Raise (Sync e),
     add_event (Log DEBUG "Process variant %s" [AVal (Py.get v "sku")]) w).
Proof.
  unfold variant_error, process_variant_try, bind, log, emit, gets, raise.
  destruct (Py.is_none (Py.get v "sku")).
  - intros [= <-]. reflexivity.
  - change (search_default_code (add_event _ w) (Py.get v "sku"))
      with (search_default_code w (Py.get v "sku")).
    destruct (search_default_code w (Py.get v "sku")) as [|a [|b l]]; simpl;
      intros [= <-]; reflexivity.
Qed.

(** C7: a remote variant without SKU raises [VariantSkuNotFoundError], one
    whose SKU matches no local variant raises [ProductInSalesNotFoundError]
    and one whose SKU matches several raises [MultipleProductError]; the
    handler of the variant loop catches each of them, logs its message, and
    the loop goes on with the next variant, the store untouched. *)
Theorem variant_errors_are_skipped cfg in_product v rest w e :
  variant_error w v = Some e ->
  let w1 := add_event (Log DEBUG "Process variant %s" [AVal (Py.get v "sku")]) w in
  process_variant_try cfg in_product (PDict v) w = (Raise (Sync e), w1)
  /\ catches_variant_errors (Sync e) = true
  /\ for_each (PDict v :: rest) (process_variant cfg in_product) w
     = for_each rest (process_variant cfg in_product)
                (add_event (Log ERROR (fmt (message e))
                                (map AVal (args (message e)))) w1)
  /\ (Py.get v "sku" = PNone ->
      e = VariantSkuNotFoundError (Py.get v "product-id") (Py.get v "id"))
  /\ (Py.get v "sku" <> PNone ->
      (search_default_code w (Py.get v "sku") = [] ->
       e = ProductInSalesNotFoundError (Py.get v "sku"))
      /\ ((1 < List.length (search_default_code w (Py.get v "sku")))%nat ->
          e = MultipleProductError (Py.get v "sku"))).
Proof.
  intros He w1.
  pose proof (process_variant_try_error cfg in_product v w e He) as Htry.
  pose proof (catches_variant_error w v e He) as Hcatch.
  split; [exact Htry|]. split; [exact Hcatch|]. split; [|split].
  - simpl. unfold process_variant at 1, try_except, bind.
    rewrite Htry, Hcatch. reflexivity.
  - intros Hsku. unfold variant_error in He. rewrite Hsku in He. simpl in He.
    congruence.
  - intros Hsku. unfold variant_error in He.
    destruct (Py.get v "sku") eqn:S; try congruence; simpl in He;
      (split; [intros H0; rewrite H0 in He; simpl in He; congruence
              | intros H1;
                destruct (List.length _) as [|[|n]]; [lia | lia | congruence]]).
Qed.

(** Two local variants share the external code ["SKU1"]. *)
Lemma variant_errors_are_skipped_witness :
  let cfg := Scenario.config true true [] in
  let w := Scenario.world cfg [Scenario.product (mkdec 3 0);
                               Scenario.product (mkdec 4 0)] [] false in
  let v := Scenario.variant (PStr "SKU1") (mkdec 3 0) 5 in
  let next := [PDict (Scenario.variant (PStr "SKU2") (mkdec 3 0) 5)] in
  for_each (PDict v :: next) (process_variant cfg []) w
  = for_each next (process_variant cfg [])
      (add_event (Log ERROR "Multiple products with internal reference {} found in Odoo"
                      [AVal (PStr "SKU1")])
         (add_event (Log DEBUG "Process variant %s" [AVal (PStr "SKU1")]) w)).
Proof.
  exact (proj1 (proj2 (proj2
    (variant_errors_are_skipped
       (Scenario.config true true []) []
       (Scenario.variant (PStr "SKU1") (mkdec 3 0) 5)
       [PDict (Scenario.variant (PStr "SKU2") (mkdec 3 0) 5)]
       (Scenario.world (Scenario.config true true [])
                       [Scenario.product (mkdec 3 0); Scenario.product (mkdec 4 0)]
                       [] false)
       (MultipleProductError (PStr "SKU1")) eq_refl)))).
Defined.

(** ** A refused remote update ends the run *)

Lemma aborts_nil o : aborts_at_failure o [].
Proof. left; constructor. Qed.

Lemma aborts_clean o evs :
  Forall (fun e => is_failed_update e = false) evs -> aborts_at_failure o evs.
Proof. intros H; now left. Qed.

Lemma aborts_not_api e evs :
  e <> ApiError -> aborts_at_failure (Some e) evs ->
  Forall (fun e => is_failed_update e = false) evs.
Proof. intros N [H|[H _]]; [exact H | congruence]. Qed.

Lemma aborts_none evs :
  aborts_at_failure None evs ->
  Forall (fun e => is_failed_update e = false) evs.
Proof. intros [H|[H _]]; [exact H | discriminate]. Qed.

Lemma aborts_seq o evs1 evs2 :
  Forall (fun e => is_failed_update e = false) evs1 ->
  aborts_at_failure o evs2 -> aborts_at_failure o (evs1 ++ evs2).
Proof.
  intros H1 [H2|(Ho & evs0 & e & E & Fe & F0)].
  - left. now apply Forall_app.
  - right. split; [exact Ho|]. exists (evs1 ++ evs0), e.
    rewrite E, app_assoc. split; [reflexivity|]. split; [exact Fe|].
    now apply Forall_app.
Qed.

Lemma stops_ret {A : Type} (a : A) : stops_at_failure (ret a).
Proof. intros w; exists []; simpl; rewrite app_nil_r; split; [reflexivity | apply aborts_nil]. Qed.

Lemma stops_raise {A : Type} (e : exn) : stops_at_failure (@raise A e).
Proof. intros w; exists []; simpl; rewrite app_nil_r; split; [reflexivity | apply aborts_nil]. Qed.

Lemma stops_lift {A : Type} (r : Result A) : stops_at_failure (lift r).
Proof. intros w; exists []; simpl; rewrite app_nil_r; split; [reflexivity | apply aborts_nil]. Qed.

Lemma stops_gets {A : Type} (f : World -> A) : stops_at_failure (gets f).
Proof. intros w; exists []; simpl; rewrite app_nil_r; split; [reflexivity | apply aborts_nil]. Qed.

Lemma stops_emit e : is_failed_update e = false -> stops_at_failure (emit e).
Proof.
  intros H w; exists [e]; simpl. split; [reflexivity|].
  left; repeat constructor; exact H.
Qed.

Lemma stops_logs_only {A : Type} (m : M A) : logs_only m -> stops_at_failure m.
Proof.
  intros H w. destruct (H w) as (evs & E & L). exists evs.
  rewrite E, trace_add_events. split; [reflexivity|].
  left. eapply Forall_impl; [|exact L]. intros [] X; simpl in *; congruence.
Qed.

Lemma stops_bind {A B : Type} (m : M A) (f : A -> M B) :
  stops_at_failure m -> (forall a, stops_at_failure (f a)) ->
  stops_at_failure (bind m f).
Proof.
  intros Hm Hf w. destruct (Hm w) as (evs1 & T1 & A1).
  unfold bind. destruct (m w) as [[a|e] w1]; simpl in T1, A1.
  - destruct (Hf a w1) as (evs2 & T2 & A2).
    exists (evs1 ++ evs2). rewrite T2, T1, app_assoc.
    split; [reflexivity|]. apply aborts_seq; [now apply aborts_none | exact A2].
  - exists evs1. simpl. split; [exact T1 | exact A1].
Qed.

Lemma stops_try {A : Type} (body : M A) catches handler :
  catches ApiError = false ->
  stops_at_failure body -> (forall e, stops_at_failure (handler e)) ->
  stops_at_failure (try_except body catches handler).
Proof.
  intros Hc Hm Hf w. destruct (Hm w) as (evs1 & T1 & A1).
  unfold try_except. destruct (body w) as [[a|e] w1]; simpl in T1, A1.
  - exists evs1. simpl. split; [exact T1 | exact A1].
  - destruct (catches e) eqn:C.
    + destruct (Hf e w1) as (evs2 & T2 & A2).
      exists (evs1 ++ evs2). rewrite T2, T1, app_assoc.
      split; [reflexivity|]. apply aborts_seq; [|exact A2].
      apply (aborts_not_api e); [congruence | exact A1].
    + exists evs1. simpl. split; [exact T1 | exact A1].
Qed.

Lemma stops_for_each {A : Type} (l : list A) (body : A -> M unit) :
  (forall x, stops_at_failure (body x)) -> stops_at_failure (for_each l body).
Proof.
  intros Hb; induction l as [|x l IH]; simpl.
  - apply stops_ret.
  - apply stops_bind; [apply Hb | intros _; exact IH].
Qed.

Lemma stops_update_product_variant cfg pid vid data :
  stops_at_failure (update_product_variant cfg pid vid data).
Proof.
  intros w. unfold update_product_variant. simpl.
  eexists [_]. split; [reflexivity|].
  destruct (update_fails w (trace w) (cfg_id cfg) pid vid data); simpl.
  - right. split; [reflexivity|]. eexists [], _. simpl.
    split; [reflexivity|]. split; [reflexivity | constructor].
  - left. repeat constructor.
Qed.

Lemma stops_write_variant_link p x t : stops_at_failure (write_variant_link p x t).
Proof.
  intros w. eexists [_]. simpl. split; [reflexivity|]. left; repeat constructor.
Qed.

Lemma stops_write_template_link p cfg x y :
  stops_at_failure (write_template_link p cfg x y).
Proof.
  intros w. eexists [_]. simpl. split; [reflexivity|]. left; repeat constructor.
Qed.

Lemma stops_process_insales_variant p v :
  stops_at_failure (process_insales_variant p v).
Proof.
  unfold process_insales_variant.
  apply stops_bind; [apply stops_gets | intros cfg].
  apply stops_bind; [apply stops_logs_only, logs_only_collect | intros mods].
  apply stops_bind.
  - destruct mods as [|m mods]; [apply stops_ret|].
    apply stops_bind; [apply stops_logs_only, logs_only_log | intros _].
    destruct (prod_environment cfg); [|apply stops_ret].
    apply stops_bind; [apply stops_lift | intros data].
    apply stops_update_product_variant.
  - intros _. apply stops_bind; [apply stops_gets | intros t].
    apply stops_write_variant_link.
Qed.

Lemma stops_process_variant cfg in_product v :
  stops_at_failure (process_variant cfg in_product v).
Proof.
  unfold process_variant. apply stops_try; [reflexivity | |].
  - unfold process_variant_try. destruct v; try apply stops_raise.
    apply stops_bind; [apply stops_logs_only, logs_only_log | intros _].
    destruct (Py.is_none _); [apply stops_raise|].
    apply stops_bind; [apply stops_gets | intros l].
    destruct l as [|p [|q l]]; try apply stops_raise.
    apply stops_bind; [apply stops_write_template_link | intros _].
    apply stops_process_insales_variant.
  - intros e. apply stops_logs_only, logs_only_log_caught.
Qed.

Lemma stops_process_insales_product cfg in_product :
  stops_at_failure (process_insales_product cfg in_product).
Proof.
  unfold process_insales_product. destruct in_product; try apply stops_raise.
  apply stops_bind; [apply stops_logs_only, logs_only_log | intros _].
  apply stops_bind; [apply stops_lift | intros l].
  apply stops_for_each. intros v. apply stops_process_variant.
Qed.

Section DriverFacts.

Variable update_categories : Config -> M unit.

(** The category refresh makes no update call. *)
Hypothesis update_categories_quiet :
  forall cfg w, exists evs,
    trace (snd (update_categories cfg w)) = trace w ++ evs
    /\ Forall (fun e => is_update_call e = false) evs.

Lemma stops_update_categories cfg : stops_at_failure (update_categories cfg).
Proof.
  intros w. destruct (update_categories_quiet cfg w) as (evs & T & Q).
  exists evs. split; [exact T|]. left.
  eapply Forall_impl; [|exact Q]. intros [] X; simpl in *; try reflexivity.
  discriminate.
Qed.

Lemma stops_sync_configuration cfg :
  stops_at_failure (sync_configuration update_categories cfg).
Proof.
  unfold sync_configuration. destruct (negb (active cfg)); [apply stops_ret|].
  apply stops_bind; [apply stops_update_categories | intros _].
  apply stops_bind; [apply stops_gets | intros ids].
  apply stops_for_each. intros c.
  apply stops_bind; [apply stops_emit; reflexivity | intros _].
  apply stops_bind; [apply stops_gets | intros ps].
  apply stops_for_each. intros p. apply stops_process_insales_product.
Qed.

Lemma stops_cron_do : stops_at_failure (cron_do update_categories).
Proof.
  unfold cron_do. apply stops_bind; [apply stops_gets | intros cfgs].
  apply stops_for_each. intros c. apply stops_sync_configuration.
Qed.

End DriverFacts.

(** C9: [ApiError] is not among the exceptions the variant loop catches; a
    refused [update_product_variant] raises it; and in
    [process_insales_product], [sync_configuration] and [cron_do] alike a
    refused update is the last thing the run does and the run ends in
    [ApiError]: the variants, products and configurations that remained
    are not processed. *)
Theorem api_error_aborts_run (update_categories : Config -> M unit) :
  (forall cfg w, exists evs,
      trace (snd (update_categories cfg w)) = trace w ++ evs
      /\ Forall (fun e => is_update_call e = false) evs) ->
  catches_variant_errors ApiError = false
  /\ (forall cfg pid vid data w,
        update_fails w (trace w) (cfg_id cfg) pid vid data = true ->
        fst (update_product_variant cfg pid vid data w) = Raise ApiError)
  /\ (forall cfg in_product,
        stops_at_failure (process_insales_product cfg in_product))
  /\ (forall cfg, stops_at_failure (sync_configuration update_categories cfg))
  /\ stops_at_failure (cron_do update_categories).
Proof.
  intros Hq. split; [reflexivity|]. split.
  - intros cfg pid vid data w H. unfold update_product_variant. simpl.
    now rewrite H.
  - split; [apply stops_process_insales_product|].
    split; [intros cfg; now apply stops_sync_configuration
           | now apply stops_cron_do].
Qed.

Lemma api_error_aborts_run_witness :
  stops_at_failure (cron_do Run.update_categories).
Proof.
  refine (proj2 (proj2 (proj2 (proj2
            (api_error_aborts_run Run.update_categories _))))).
  intros cfg w. exists []. simpl. rewrite app_nil_r.
  split; [reflexivity | constructor].
Defined.

(** A run in which the first update is refused: the second variant of the
    first product, the second product and the second configuration are
    never reached. *)
Example cron_do_stops_at_refused_update :
  let r := cron_do Run.update_categories (Run.world true) in
  fst r = Raise ApiError
  /\ trace (snd r)
     = [ApiGetProducts 1 5;
        Log DEBUG "Process product %s" [AVal (PStr "chair")];
        Log DEBUG "Process variant %s" [AVal (PStr "SKU1")];
        OrmWrite "product.template" 200
                 [("insales_sync_config_id", PInt 1);
                  ("insales_sync_product_id", PInt 8);
                  ("insales_sync_permalink", PStr "chair")];
        Log INFO "Updating InSales variant %s: %s"
            [AVal (PStr "SKU1");
             ADiff [("weight", DStrOf (PDec (mkdec 3 0)), DVal (PStr "2.500"))]];
        ApiUpdateProductVariant 1 (PInt 8) (PInt 9) [("weight", PStr "2.500")] false]
  /\ products (snd r) = products (Run.world true).
Proof. cbv zeta. split; [reflexivity|]. split; reflexivity. Qed.

(** The same run with every update accepted goes through both
    configurations. *)
Example cron_do_completes :
  fst (cron_do Run.update_categories (Run.world false)) = Ok tt.
Proof. reflexivity. Qed.

(** ** The category mirror: paths *)

Module CategoryFacts.
Import ConfigCategory.

Lemma nonslash_append a b :
  nonslash (a ++ b) = (nonslash a + nonslash b)%nat.
Proof.
  induction a as [|c a IH]; simpl; [reflexivity|]. rewrite IH. lia.
Qed.

Lemma nonslash_join l :
  nonslash (PyStr.join "/" l) = list_sum (map nonslash l).
Proof.
  induction l as [|x l IH]; [reflexivity|].
  destruct l as [|y l].
  - simpl. lia.
  - change (PyStr.join "/" (x :: y :: l))
      with (x ++ "/" ++ PyStr.join "/" (y :: l))%string.
    rewrite !nonslash_append, IH. simpl. lia.
Qed.

Lemma nonslash_split s :
  list_sum (map nonslash (PyStr.split "/" s)) = nonslash s.
Proof.
  induction s as [|c s IH]; [reflexivity|].
  simpl. destruct (Ascii.eqb c "/") eqn:E.
  - simpl. exact IH.
  - destruct (PyStr.split "/" s) as [|seg rest]; simpl in *; rewrite ?E; lia.
Qed.

Lemma nonslash_filter l :
  list_sum (map nonslash (filter PyStr.nonempty l)) = list_sum (map nonslash l).
Proof.
  induction l as [|x l IH]; [reflexivity|].
  simpl. destruct x; simpl; lia.
Qed.

Lemma nonslash_prefix p s :
  String.prefix p s = true -> (nonslash p <= nonslash s)%nat.
Proof.
  revert s; induction p as [|a p IH]; intros s H; simpl; [lia|].
  destruct s as [|b s]; simpl in H; [discriminate|].
  destruct (ascii_dec a b) as [->|]; [|discriminate].
  simpl. specialize (IH s H). lia.
Qed.

Lemma nonslash_length s : (nonslash s <= String.length s)%nat.
Proof. induction s as [|c s IH]; simpl; [lia|]. destruct (Ascii.eqb c "/"); lia. Qed.

Lemma nonslash_str_of_nonneg n : (1 <= nonslash (str_of_nonneg n))%nat.
Proof.
  destruct (Numbers.str_of_nonneg_head n) as (c & s & -> & Hc).
  cbn [nonslash]. rewrite (Numbers.is_digit_not c "/" Hc eq_refl).
  cbv iota. lia.
Qed.

Lemma nonslash_str_of_Z z : (1 <= nonslash (str_of_Z z))%nat.
Proof.
  unfold str_of_Z. destruct (z <? 0).
  - cbn [nonslash]. change (Ascii.eqb "-" "/") with false. cbv iota. lia.
  - apply nonslash_str_of_nonneg.
Qed.

Lemma nonslash_self_path r :
  (depth r + 1 <= nonslash (get_self_path r))%nat.
Proof.
  unfold get_self_path, depth.
  rewrite nonslash_join, map_app, list_sum_app, nonslash_filter, nonslash_split.
  simpl. pose proof (nonslash_str_of_Z (insales_id r)). lia.
Qed.

(** A child lies strictly deeper than its parent. *)
Lemma child_deeper r c : is_child r c = true -> (depth r + 1 <= depth c)%nat.
Proof.
  unfold is_child. intros H. apply nonslash_prefix in H.
  pose proof (nonslash_self_path r). unfold depth in *. lia.
Qed.

Lemma depth_le_longest t c : In c t -> (depth c <= longest t)%nat.
Proof.
  intros H. unfold longest, depth.
  pose proof (nonslash_length (parent_path c)).
  assert (String.length (parent_path c)
          <= list_max (map (fun c => String.length (parent_path c)) t))%nat.
  { pose proof (proj1 (list_max_le (map (fun c => String.length (parent_path c)) t) _)
                      (Nat.le_refl _)) as F.
    rewrite Forall_forall in F. apply F.
    exact (in_map (fun c => String.length (parent_path c)) _ _ H). }
  lia.
Qed.

End CategoryFacts.

(** ** The category mirror: tables *)

Module CategoryTables.
Import ConfigCategory CategoryFacts.

Lemma mem_In x l : mem x l = true <-> In x l.
Proof.
  unfold mem. rewrite existsb_exists. split.
  - intros (y & Hy & E). apply Z.eqb_eq in E. now subst.
  - intros H. exists x. split; [exact H | apply Z.eqb_refl].
Qed.

Lemma mem_app x a b : mem x (a ++ b) = mem x a || mem x b.
Proof. apply existsb_app. Qed.

Lemma cat_id_apply v c : cat_id (apply_values v c) = cat_id c.
Proof. reflexivity. Qed.

Lemma raise_synced c : sync c = true -> apply_values sync_true c = c.
Proof. destruct c; simpl; intros ->; reflexivity. Qed.

Lemma cat_id_img X c : cat_id (img X c) = cat_id c.
Proof. unfold img. destruct (mem _ _); reflexivity. Qed.

Lemma parent_path_img X c : parent_path (img X c) = parent_path c.
Proof. unfold img. destruct (mem _ _); reflexivity. Qed.

Lemma self_path_img X c : get_self_path (img X c) = get_self_path c.
Proof. unfold img. destruct (mem _ _); reflexivity. Qed.

Lemma depth_img X c : depth (img X c) = depth c.
Proof. unfold depth. now rewrite parent_path_img. Qed.

Lemma sync_img X c : sync (img X c) = sync c || mem (cat_id c) X.
Proof.
  unfold img. destruct (mem _ _); simpl.
  - now rewrite orb_true_r.
  - now rewrite orb_false_r.
Qed.

Lemma is_child_img X Y r c : is_child (img X r) (img Y c) = is_child r c.
Proof. unfold is_child. now rewrite self_path_img, parent_path_img. Qed.

Lemma img_img X Y c : img Y (img X c) = img (X ++ Y) c.
Proof.
  unfold img at 1. rewrite cat_id_img. unfold img. rewrite mem_app.
  destruct (mem (cat_id c) X), (mem (cat_id c) Y); reflexivity.
Qed.

Lemma mark_map X t : mark X t = map (img X) t.
Proof. reflexivity. Qed.

Lemma ids_super_write t S v : map cat_id (super_write t S v) = map cat_id t.
Proof.
  unfold super_write. rewrite map_map. apply map_ext.
  intros c. destruct (mem _ _); reflexivity.
Qed.

Lemma ids_mark X t : map cat_id (mark X t) = map cat_id t.
Proof. apply ids_super_write. Qed.

Lemma mark_nil t : mark [] t = t.
Proof. rewrite mark_map. rewrite <- (map_id t) at 2. now apply map_ext. Qed.

Lemma mark_mark X Y t : mark Y (mark X t) = mark (X ++ Y) t.
Proof. rewrite !mark_map, map_map. apply map_ext. intros c; apply img_img. Qed.

Lemma mark_synced X t :
  (forall c, In c t -> mem (cat_id c) X = true -> sync c = true) ->
  mark X t = t.
Proof.
  intros H. rewrite mark_map. rewrite <- (map_id t) at 2.
  apply map_ext_in. intros c Hc. unfold img.
  destruct (mem (cat_id c) X) eqn:E; [|reflexivity].
  apply raise_synced. now apply H.
Qed.

Lemma In_mark X t c' :
  In c' (mark X t) <-> exists c, In c t /\ c' = img X c.
Proof.
  rewrite mark_map, in_map_iff. split; intros (c & A & B); exists c; auto.
Qed.

Lemma longest_mark X t : longest (mark X t) = longest t.
Proof.
  unfold longest. rewrite mark_map, map_map. f_equal.
  apply map_ext. intros c. now rewrite parent_path_img.
Qed.

Lemma browse_mark X t x : browse (mark X t) x = option_map (img X) (browse t x).
Proof.
  unfold browse. rewrite mark_map.
  induction t as [|c t IH]; [reflexivity|].
  simpl. rewrite cat_id_img. destruct (cat_id c =? x); [reflexivity | exact IH].
Qed.

Lemma browse_Some t x c : browse t x = Some c -> In c t /\ cat_id c = x.
Proof.
  unfold browse. intros H. apply find_some in H.
  destruct H as [H E]. apply Z.eqb_eq in E. now split.
Qed.

Lemma browse_None t x c : browse t x = None -> In c t -> cat_id c <> x.
Proof.
  unfold browse. intros H Hc E.
  pose proof (find_none _ _ H c Hc) as N. simpl in N.
  apply Z.eqb_neq in N. contradiction.
Qed.

Lemma same_id_same_row t a b :
  NoDup (map cat_id t) -> In a t -> In b t -> cat_id a = cat_id b -> a = b.
Proof.
  induction t as [|c t IH]; simpl; [tauto|].
  intros ND [->|Ha] [->|Hb] E; inversion ND as [|? ? Hn ND']; subst.
  - reflexivity.
  - exfalso. apply Hn. rewrite E. now apply in_map.
  - exfalso. apply Hn. rewrite <- E. now apply in_map.
  - now apply IH.
Qed.

Lemma In_get_children t r x :
  In x (get_children t r)
  <-> exists c, In c t /\ is_child r c = true /\ cat_id c = x.
Proof.
  unfold get_children. rewrite in_map_iff. split.
  - intros (c & E & H). apply filter_In in H. exists c. tauto.
  - intros (c & H & C & E). exists c. split; [exact E|].
    apply filter_In. tauto.
Qed.

Lemma get_children_mark X Y t r :
  get_children (mark X t) (img Y r) = get_children t r.
Proof.
  unfold get_children. rewrite mark_map.
  induction t as [|c t IH]; [reflexivity|].
  simpl. rewrite is_child_img.
  destruct (is_child r c); simpl; [rewrite cat_id_img|]; now rewrite IH.
Qed.

Lemma fold_step_None w L : fold_left (propagate_step w) L None = None.
Proof. induction L as [|x L IH]; [reflexivity | exact IH]. Qed.

Lemma closed_nil t : closed t [].
Proof. intros r c _ _ H. discriminate. Qed.

Lemma closed_app t X Y :
  closed t X -> closed (mark X t) Y -> closed t (X ++ Y).
Proof.
  intros HX HY r c Hr Hc Hm Hch. rewrite mem_app in *.
  apply orb_true_iff in Hm. apply orb_true_iff. destruct Hm as [Hm|Hm].
  - left. now apply (HX r c).
  - right. rewrite <- (cat_id_img X c).
    apply (HY (img X r) (img X c)).
    + apply In_mark; eauto.
    + apply In_mark; eauto.
    + now rewrite cat_id_img.
    + now rewrite is_child_img.
Qed.

End CategoryTables.

(** ** The category mirror: what a write does *)

Module CategoryWrite.
Import ConfigCategory CategoryFacts CategoryTables.

Lemma loop_shape n (IHW : marks_closed n) t1 :
  NoDup (map cat_id t1) ->
  forall L X0 t',
    closed t1 X0 ->
    fold_left (propagate_step (write n)) L (Some (mark X0 t1)) = Some t' ->
    exists X,
      t' = mark X t1
      /\ closed t1 X
      /\ (forall x, mem x X0 = true -> mem x X = true)
      /\ (forall r c, In r t1 -> In c t1 -> In (cat_id r) L ->
                      sync r = true -> is_child r c = true ->
                      mem (cat_id c) X = true).
Proof.
  intros ND. induction L as [|x L IH]; intros X0 t' HX0 HF.
  - simpl in HF. injection HF as <-. exists X0.
    repeat split; auto; intros r c _ _ [].
  - simpl in HF. rewrite browse_mark in HF.
    destruct (browse t1 x) as [r0|] eqn:B; simpl in HF.
    + destruct (browse_Some _ _ _ B) as [Hr0 Ex].
      destruct (sync (img X0 r0)) eqn:Sy.
      * rewrite get_children_mark in HF.
        destruct (write n (mark X0 t1) (get_children t1 r0) sync_true)
          as [t2|] eqn:Wr; [|rewrite fold_step_None in HF; discriminate].
        destruct (IHW (mark X0 t1) _ _ ltac:(now rewrite ids_mark) Wr)
          as (Y & -> & HY & CY).
        rewrite mark_mark in HF.
        destruct (IH (X0 ++ Y) t' (closed_app _ _ _ HX0 CY) HF)
          as (X & -> & CX & MX & PX).
        exists X. split; [reflexivity|]. split; [exact CX|]. split.
        -- intros y Hy. apply MX. rewrite mem_app, Hy. reflexivity.
        -- intros r c Hr Hc [E|HL] Sr Ch; [|now apply (PX r c)].
           assert (r = r0) by (apply (same_id_same_row t1); auto; congruence).
           subst r. apply MX. rewrite mem_app. apply orb_true_iff. right.
           apply HY. apply In_get_children. exists c. auto.
      * destruct (IH X0 t' HX0 HF) as (X & -> & CX & MX & PX).
        exists X. split; [reflexivity|]. split; [exact CX|].
        split; [exact MX|].
        intros r c Hr Hc [E|HL] Sr Ch; [|now apply (PX r c)].
        assert (r = r0) by (apply (same_id_same_row t1); auto; congruence).
        subst r. rewrite sync_img, Sr in Sy. discriminate.
    + destruct (IH X0 t' HX0 HF) as (X & -> & CX & MX & PX).
      exists X. split; [reflexivity|]. split; [exact CX|].
      split; [exact MX|].
      intros r c Hr Hc [E|HL] Sr Ch; [|now apply (PX r c)].
      exfalso. exact (browse_None _ _ _ B Hr (eq_sym E)).
Qed.

Lemma write_marks_closed n : marks_closed n.
Proof.
  induction n as [|n IHn]; intros t S t' ND HW; [discriminate|].
  simpl in HW. unfold propagate_with in HW.
  change (super_write t S sync_true) with (mark S t) in HW.
  rewrite <- (mark_nil (mark S t)) in HW.
  destruct (loop_shape n IHn (mark S t) ltac:(now rewrite ids_mark)
                       S [] t' (closed_nil _) HW)
    as (X & -> & CX & _ & PX).
  exists (S ++ X). split; [apply mark_mark|]. split.
  - intros x Hx. rewrite mem_app. apply orb_true_iff. left. now apply mem_In.
  - intros r c Hr Hc Hm Ch. rewrite mem_app in *.
    apply orb_true_iff in Hm. apply orb_true_iff. right.
    rewrite <- (cat_id_img S c). destruct Hm as [Hm|Hm].
    + apply (PX (img S r) (img S c)).
      * apply In_mark; eauto.
      * apply In_mark; eauto.
      * rewrite cat_id_img. now apply mem_In.
      * rewrite sync_img, Hm. apply orb_true_r.
      * now rewrite is_child_img.
    + apply (CX (img S r) (img S c)).
      * apply In_mark; eauto.
      * apply In_mark; eauto.
      * now rewrite cat_id_img.
      * now rewrite is_child_img.
Qed.

(** The result of a write with any values. *)
Lemma write_result n t S values t' :
  NoDup (map cat_id t) ->
  write (Datatypes.S n) t S values = Some t' ->
  exists X,
    t' = mark X (super_write t S values)
    /\ closed (super_write t S values) X
    /\ (forall r c, In r (super_write t S values) ->
                    In c (super_write t S values) ->
                    In (cat_id r) S -> sync r = true ->
                    is_child r c = true -> mem (cat_id c) X = true).
Proof.
  intros ND HW. simpl in HW. unfold propagate_with in HW.
  rewrite <- (mark_nil (super_write t S values)) in HW.
  destruct (loop_shape n (write_marks_closed n) (super_write t S values)
                       ltac:(now rewrite ids_super_write)
                       S [] t' (closed_nil _) HW)
    as (X & -> & CX & _ & PX).
  exists X. auto.
Qed.

Lemma marked_descendants t1 X S :
  closed t1 X ->
  (forall r c, In r t1 -> In c t1 -> In (cat_id r) S -> sync r = true ->
               is_child r c = true -> mem (cat_id c) X = true) ->
  forall r d, In r (mark X t1) -> In (cat_id r) S -> sync r = true ->
              descendant (mark X t1) r d ->
              exists d0, In d0 t1 /\ d = img X d0 /\ mem (cat_id d0) X = true.
Proof.
  intros CX PX r d Hr HS Sr HD.
  apply In_mark in Hr. destruct Hr as (r0 & Hr0 & ->).
  rewrite cat_id_img in HS.
  induction HD as [c Hc Ch | c d HD IH Hd Ch].
  - apply In_mark in Hc. destruct Hc as (c0 & Hc0 & ->).
    rewrite is_child_img in Ch. exists c0. split; [exact Hc0|].
    split; [reflexivity|].
    rewrite sync_img in Sr. apply orb_true_iff in Sr. destruct Sr as [Sr|Sr].
    + now apply (PX r0 c0).
    + now apply (CX r0 c0).
  - destruct IH as (c0 & Hc0 & -> & Mc).
    apply In_mark in Hd. destruct Hd as (d0 & Hd0 & ->).
    rewrite is_child_img in Ch. exists d0. split; [exact Hd0|].
    split; [reflexivity|]. now apply (CX c0 d0).
Qed.

Lemma write_propagated n t S values t' :
  NoDup (map cat_id t) ->
  write n t S values = Some t' -> sync_propagated t' S.
Proof.
  intros ND HW. destruct n as [|n]; [discriminate|].
  destruct (write_result n t S values t' ND HW) as (X & -> & CX & PX).
  intros r d Hr HS Sr HD.
  destruct (marked_descendants _ X S CX PX r d Hr HS Sr HD)
    as (d0 & _ & -> & M).
  rewrite sync_img, M. apply orb_true_r.
Qed.

(** Writing the flag on rows of a closed, marked set changes nothing. *)
Lemma stable_loop n t1 X
      (IHn : forall C t'',
          (forall x, In x C -> mem x X = true) ->
          write n (mark X t1) C sync_true = Some t'' -> t'' = mark X t1) :
  closed t1 X ->
  forall L t'',
    (forall x r, In x L -> In r t1 -> cat_id r = x ->
                 sync (img X r) = true ->
                 forall c, In c t1 -> is_child r c = true ->
                           mem (cat_id c) X = true) ->
    fold_left (propagate_step (write n)) L (Some (mark X t1)) = Some t'' ->
    t'' = mark X t1.
Proof.
  intros CX. induction L as [|x L IH]; intros t'' HL HF.
  - simpl in HF. congruence.
  - simpl in HF. rewrite browse_mark in HF.
    assert (HL' : forall x r, In x L -> In r t1 -> cat_id r = x ->
                    sync (img X r) = true ->
                    forall c, In c t1 -> is_child r c = true ->
                              mem (cat_id c) X = true).
    { intros y r Hy. apply HL. now right. }
    destruct (browse t1 x) as [r0|] eqn:B; simpl in HF; [|now apply IH].
    destruct (browse_Some _ _ _ B) as [Hr0 Ex].
    destruct (sync (img X r0)) eqn:Sy; [|now apply IH].
    rewrite get_children_mark in HF.
    destruct (write n (mark X t1) (get_children t1 r0) sync_true)
      as [t2|] eqn:Wr; [|rewrite fold_step_None in HF; discriminate].
    assert (t2 = mark X t1).
    { apply (IHn (get_children t1 r0)); [|exact Wr].
      intros y Hy. apply In_get_children in Hy.
      destruct Hy as (c & Hc & Ch & <-).
      apply (HL x r0 (or_introl eq_refl) Hr0 Ex Sy c Hc Ch). }
    subst t2. now apply IH.
Qed.

Lemma stable n t1 X :
  closed t1 X ->
  forall C t'',
    (forall x, In x C -> mem x X = true) ->
    write n (mark X t1) C sync_true = Some t'' -> t'' = mark X t1.
Proof.
  intros CX. induction n as [|n IHn]; intros C t'' HC HW; [discriminate|].
  simpl in HW. unfold propagate_with in HW.
  change (super_write (mark X t1) C sync_true) with (mark C (mark X t1)) in HW.
  rewrite (mark_synced C (mark X t1)) in HW.
  - apply (stable_loop n t1 X IHn CX C t''); [|exact HW].
    intros x r Hx Hr E _ c Hc Ch. apply (CX r c); auto.
    rewrite E. now apply HC.
  - intros c' Hc' Hm. apply In_mark in Hc'. destruct Hc' as (c & Hc & ->).
    rewrite cat_id_img in Hm. rewrite sync_img.
    rewrite (HC _ (proj1 (mem_In _ _) Hm)). apply orb_true_r.
Qed.

Lemma propagate_again n t S values t' m t'' :
  NoDup (map cat_id t) ->
  write n t S values = Some t' ->
  propagate_sync_to_children m t' S = Some t'' -> t'' = t'.
Proof.
  intros ND HW HP. destruct n as [|n]; [discriminate|].
  destruct (write_result n t S values t' ND HW) as (X & -> & CX & PX).
  apply (stable_loop m _ X (stable m _ X CX) CX S t''); [|exact HP].
  intros x r Hx Hr E Sy c Hc Ch.
  rewrite sync_img in Sy. apply orb_true_iff in Sy. destruct Sy as [Sy|Sy].
  - apply (PX r c); auto. now rewrite E.
  - now apply (CX r c).
Qed.

End CategoryWrite.

(** ** The category mirror: the recursion ends *)

Module CategoryFuel.
Import ConfigCategory CategoryFacts CategoryTables CategoryWrite.

Lemma loop_terminates n
      (E : forall T C,
          NoDup (map cat_id T) -> (1 <= n)%nat ->
          (forall c, In c T -> mem (cat_id c) C = true ->
                     (longest T + 2 <= n + depth c)%nat) ->
          exists t', write n T C sync_true = Some t') t :
  NoDup (map cat_id t) ->
  forall L X0,
    (forall c, In c t -> In (cat_id c) L ->
               (longest t + 1 <= n + depth c)%nat) ->
    exists t', fold_left (propagate_step (write n)) L (Some (mark X0 t)) = Some t'.
Proof.
  intros ND. induction L as [|x L IH]; intros X0 HB.
  - eexists; reflexivity.
  - assert (HB' : forall c, In c t -> In (cat_id c) L ->
                            (longest t + 1 <= n + depth c)%nat).
    { intros c Hc HL. apply HB; [exact Hc | now right]. }
    simpl. rewrite browse_mark.
    destruct (browse t x) as [r0|] eqn:B; simpl; [|now apply IH].
    destruct (browse_Some _ _ _ B) as [Hr0 Ex].
    destruct (sync (img X0 r0)); [|now apply IH].
    rewrite get_children_mark.
    pose proof (HB r0 Hr0 (or_introl (eq_sym Ex))) as Hb.
    pose proof (depth_le_longest t r0 Hr0) as Hd.
    assert (ND' : NoDup (map cat_id (mark X0 t))) by now rewrite ids_mark.
    destruct (E (mark X0 t) (get_children t r0) ND' ltac:(lia)) as [t2 Wr].
    { intros c' Hc' Hm. apply In_mark in Hc'. destruct Hc' as (c0 & Hc0 & ->).
      rewrite cat_id_img in Hm. apply mem_In, In_get_children in Hm.
      destruct Hm as (c1 & Hc1 & Ch & E1).
      assert (c1 = c0) by (apply (same_id_same_row t); auto).
      subst c1. pose proof (child_deeper _ _ Ch).
      rewrite longest_mark, depth_img. lia. }
    rewrite Wr.
    destruct (write_marks_closed n _ _ _ ND' Wr) as (Y & -> & _).
    rewrite mark_mark. now apply IH.
Qed.

Lemma write_terminates n :
  forall T C,
    NoDup (map cat_id T) -> (1 <= n)%nat ->
    (forall c, In c T -> mem (cat_id c) C = true ->
               (longest T + 2 <= n + depth c)%nat) ->
    exists t', write n T C sync_true = Some t'.
Proof.
  induction n as [|n IHn]; intros T C ND Hn HB; [lia|].
  simpl. unfold propagate_with.
  change (super_write T C sync_true) with (mark C T).
  apply (loop_terminates n IHn T ND C C).
  intros c Hc Hm. apply mem_In in Hm. specialize (HB c Hc Hm). lia.
Qed.

Lemma write_total fuel t S values :
  NoDup (map cat_id t) ->
  (enough_fuel (super_write t S values) <= fuel)%nat ->
  exists t', write fuel t S values = Some t'.
Proof.
  intros ND Hf. destruct fuel as [|n]; [unfold enough_fuel in Hf; lia|].
  simpl. unfold propagate_with.
  rewrite <- (mark_nil (super_write t S values)).
  apply (loop_terminates n (write_terminates n)).
  - now rewrite ids_super_write.
  - intros c _ _. unfold enough_fuel in Hf. unfold longest. lia.
Qed.

Lemma propagate_total fuel t S :
  NoDup (map cat_id t) ->
  (enough_fuel t <= fuel)%nat ->
  exists t', propagate_sync_to_children fuel t S = Some t'.
Proof.
  intros ND Hf. unfold propagate_sync_to_children, propagate_with.
  rewrite <- (mark_nil t).
  apply (loop_terminates fuel (write_terminates fuel) t ND).
  intros c _ _. unfold enough_fuel in Hf. unfold longest. lia.
Qed.

Lemma step_mono
      (f g : list Category -> list Z -> Values -> option (list Category)) :
  (forall a b c r, f a b c = Some r -> g a b c = Some r) ->
  forall L acc r,
    fold_left (propagate_step f) L acc = Some r ->
    fold_left (propagate_step g) L acc = Some r.
Proof.
  intros Hfg. induction L as [|x L IH]; intros acc r H; [exact H|].
  simpl in *.
  destruct (propagate_step f acc x) as [t2|] eqn:F;
    [|rewrite fold_step_None in H; discriminate].
  assert (G : propagate_step g acc x = Some t2).
  { destruct acc as [t0|]; simpl in *; [|discriminate].
    destruct (browse t0 x) as [r0|]; [|exact F].
    destruct (sync r0); [now apply Hfg | exact F]. }
  rewrite G. now apply IH.
Qed.

Lemma write_mono n : forall t S v r,
  write n t S v = Some r -> write (Datatypes.S n) t S v = Some r.
Proof.
  induction n as [|n IHn]; intros t S v r H; [discriminate|].
  change (propagate_with (write (Datatypes.S n)) (super_write t S v) S = Some r).
  change (propagate_with (write n) (super_write t S v) S = Some r) in H.
  unfold propagate_with in *.
  apply (step_mono (write n) (write (Datatypes.S n))); [|exact H].
  intros a b c r'. apply IHn.
Qed.

Lemma write_mono_le n m t S v r :
  (n <= m)%nat -> write n t S v = Some r -> write m t S v = Some r.
Proof.
  intros Hle H. induction Hle as [|m Hle IH]; [exact H|].
  now apply write_mono.
Qed.

End CategoryFuel.

Import ConfigCategory.

(** C8 (as the code has it): a write on category rows ends, whatever the
    values; afterwards every written row whose flag is set has the flag set
    on all its descendants (the rows whose parent path has the row's own
    path as a prefix, and theirs in turn); applying the propagation again
    ends and changes nothing; and the propagation is run by every write,
    whether or not the values touch the flag. *)
Theorem write_propagates_to_descendants t self values :
  NoDup (map cat_id t) ->
  exists t',
    (forall fuel, (enough_fuel (super_write t self values) <= fuel)%nat ->
                  write fuel t self values = Some t')
    /\ sync_propagated t' self
    /\ (forall fuel, (enough_fuel t' <= fuel)%nat ->
                     propagate_sync_to_children fuel t' self = Some t')
    /\ (forall fuel t'',
          propagate_sync_to_children fuel t' self = Some t'' -> t'' = t')
    /\ (forall fuel,
          write (S fuel) t self values
          = propagate_sync_to_children fuel (super_write t self values) self).
Proof.
  intros ND.
  destruct (CategoryFuel.write_total _ t self values ND (Nat.le_refl _))
    as [t' HW].
  exists t'. split; [|split; [|split; [|split]]].
  - intros fuel Hf. now apply (CategoryFuel.write_mono_le _ _ _ _ _ _ Hf).
  - now apply (CategoryWrite.write_propagated _ _ _ _ _ ND HW).
  - intros fuel Hf.
    assert (ND' : NoDup (map cat_id t')).
    { destruct (enough_fuel (super_write t self values)) as [|n] eqn:E;
        [discriminate|].
      destruct (CategoryWrite.write_result n t self values t' ND HW)
        as (X & -> & _).
      now rewrite CategoryTables.ids_mark, CategoryTables.ids_super_write. }
    destruct (CategoryFuel.propagate_total fuel t' self ND' Hf) as [t'' HP].
    rewrite HP. f_equal.
    now apply (CategoryWrite.propagate_again _ _ _ _ _ _ _ ND HW HP).
  - intros fuel t'' HP.
    now apply (CategoryWrite.propagate_again _ _ _ _ _ _ _ ND HW HP).
  - reflexivity.
Qed.

Lemma tree_ids_nodup s1 s2 : NoDup (map cat_id [Tree.root s1; Tree.leaf s2]).
Proof.
  simpl. constructor; [simpl; intros [H|[]]; discriminate|].
  constructor; [intros [] | constructor].
Qed.

(** Renaming a synchronised root sets the flag on its child. *)
Lemma write_propagates_to_descendants_witness :
  exists t',
    write 5 [Tree.root true; Tree.leaf false] [1] Tree.rename = Some t'
    /\ sync_propagated t' [1].
Proof.
  destruct (write_propagates_to_descendants
              [Tree.root true; Tree.leaf false] [1] Tree.rename
              (tree_ids_nodup true false)) as (t' & HW & HP & _).
  exists t'. split; [apply HW; vm_compute; lia | exact HP].
Defined.

Example rename_propagates :
  write 5 [Tree.root true; Tree.leaf false] [1] Tree.rename
  = Some [mkCategory 1 1 "Seats" 1 "" "Home" true; Tree.leaf true].
Proof. reflexivity. Qed.

(** C8 as stated fails: unsetting the flag of a child under a synchronised
    parent is a write after which the parent has the flag and its
    descendant has not, although the invariant held before. *)
Lemma sync_invariant_counterexample :
  sync_invariant [Tree.root true; Tree.leaf true]
  /\ write 5 [Tree.root true; Tree.leaf true] [2] Tree.unset
     = Some [Tree.root true; Tree.leaf false]
  /\ ~ sync_invariant [Tree.root true; Tree.leaf false].
Proof.
  split; [|split].
  - intros r c _ [<-|[<-|[]]] _ _; reflexivity.
  - reflexivity.
  - intros H.
    specialize (H (Tree.root true) (Tree.leaf false)
                  (or_introl eq_refl) (or_intror (or_introl eq_refl))
                  eq_refl eq_refl).
    discriminate.
Qed.

(** * Further properties of the code *)

(** ** Numbers that are pushed *)

Lemma max0_nonneg x : 0 <= mant (max0 x).
Proof.
  unfold max0, dec_ltb, dec_compare, dec_of_Z, pow10. cbn [mant scale].
  change (10 ^ Z.of_nat 0) with 1.
  destruct (Z.compare_spec (mant x * 1) (0 * 10 ^ Z.of_nat (scale x)));
    cbn [mant]; lia.
Qed.

Lemma round_half_even_nonneg n d :
  0 <= n -> 0 < d -> 0 <= round_half_even n d.
Proof.
  intros Hn Hd. unfold round_half_even.
  assert (0 <= n / d) by (apply Z.div_pos; lia).
  destruct (2 * (n mod d) ?= d); [destruct (Z.even (n / d))| |]; lia.
Qed.

Lemma float_repr_dec_nonneg value digits :
  0 <= mant value -> 0 <= mant (float_repr_dec value digits).
Proof.
  intros H. unfold float_repr_dec. cbn [mant].
  apply round_half_even_nonneg.
  - pose proof (Numbers.pow10_pos digits). nia.
  - apply Numbers.pow10_pos.
Qed.

(** ** The weight generator *)

Lemma weight_generator_cases p in_weight w :
  let cfg := config_of w p in
  let digits := digits_or_16 w "Stock Weight" in
  let pushed := float_repr_dec (max0 (weight p)) digits in
  let zero := float_is_zero (weight p) digits in
  _get_insales_variant_weight_modifiers p in_weight w
  = if negb (sync_weight cfg) || insales_sync_skip_weight p then (Ok [], w)
    else if Py.eq_dec in_weight pushed then (Ok [], w)
    else if sync_weight_skip_zero cfg && zero then
      (Ok [], add_event (Log WARNING "Skip zero weight sync of InSales variant %s"
                             [AVal (default_code_val p)]) w)
    else
      (Ok [ {| field_name := "weight";
               value := if negb zero then PStr (dec_str pushed) else PNone;
               diff_name := "weight";
               diff_old_value := str_or_none in_weight;
               diff_new_value := DVal (if negb zero then PStr (dec_str pushed)
                                       else PNone);
               is_list := false |} ], w).
Proof.
  cbv zeta.
  unfold _get_insales_variant_weight_modifiers, bind, gets, ret, log, emit, lift.
  cbv beta.
  destruct (negb (sync_weight (config_of w p)) || insales_sync_skip_weight p);
    [reflexivity|].
  cbv beta iota. rewrite to_Decimal_float_repr. cbv beta iota.
  destruct (Py.eq_dec in_weight _); [reflexivity|].
  destruct (sync_weight_skip_zero (config_of w p)
            && float_is_zero (weight p) (digits_or_16 w "Stock Weight"));
    reflexivity.
Qed.

(** X1: the weight generator never raises and changes nothing but the log,
    to which it adds at most the warning of the skip-zero policy.  It
    returns no modifier exactly when weight synchronisation is off, the
    variant's skip flag is set, the remote weight equals the local one
    floored at 0 and printed at the precision, or the policy skips a zero
    weight.  A modifier it returns is the only one, is named [weight] and
    carries either null or the printed weight, which is never negative. *)
Theorem weight_generator_spec p in_weight w :
  let cfg := config_of w p in
  let digits := digits_or_16 w "Stock Weight" in
  let pushed := float_repr_dec (max0 (weight p)) digits in
  let zero := float_is_zero (weight p) digits in
  let warning := Log WARNING "Skip zero weight sync of InSales variant %s"
                     [AVal (default_code_val p)] in
  exists mods evs,
    _get_insales_variant_weight_modifiers p in_weight w
    = (Ok mods, add_events evs w)
    /\ (evs = [] \/ (evs = [warning] /\ mods = []))
    /\ (mods = [] <->
        sync_weight cfg = false \/ insales_sync_skip_weight p = true
        \/ Py.eq_dec in_weight pushed = true
        \/ (sync_weight_skip_zero cfg = true /\ zero = true))
    /\ (forall m, In m mods ->
          mods = [m] /\ field_name m = "weight" /\ is_list m = false
          /\ value m = (if zero then PNone else PStr (dec_str pushed))
          /\ 0 <= mant pushed).
Proof.
  cbv zeta. rewrite weight_generator_cases.
  destruct (sync_weight (config_of w p)) eqn:S; cbn [negb orb].
  2:{ exists [], []. repeat split; auto; intros; contradiction. }
  destruct (insales_sync_skip_weight p) eqn:K.
  1:{ exists [], []. repeat split; auto; intros; contradiction. }
  destruct (Py.eq_dec in_weight _) eqn:E.
  1:{ exists [], []. repeat split; auto; intros; contradiction. }
  destruct (sync_weight_skip_zero (config_of w p)) eqn:Z; cbn [andb].
  - destruct (float_is_zero (weight p) _) eqn:F.
    + eexists [], [_]. split; [reflexivity|].
      split; [right; split; reflexivity|].
      split; [split; auto 6|]. intros; contradiction.
    + eexists [_], []. split; [reflexivity|]. split; [now left|].
      split.
      * split; [discriminate|].
        intros [?|[?|[?|[? ?]]]]; discriminate.
      * intros m [<-|[]]. cbn [negb field_name is_list value].
        repeat split. apply float_repr_dec_nonneg, max0_nonneg.
  - eexists [_], []. split; [reflexivity|]. split; [now left|].
    split.
    + split; [discriminate|].
      intros [?|[?|[?|[? ?]]]]; discriminate.
    + intros m [<-|[]]. cbn [field_name is_list value].
      destruct (float_is_zero (weight p) _); cbn [negb];
        repeat split; apply float_repr_dec_nonneg, max0_nonneg.
Qed.

(** ** The price generator *)

Lemma price_generator_cases p in_price in_old_price w pricelist :
  pricelist_id (config_of w p) = Some pricelist ->
  insales_sync_skip_price p = false ->
  let digits := digits_or_16 w "Product Price" in
  let price := max0 (get_product_price w pricelist p) in
  let pushed := float_repr_dec price digits in
  let mods :=
    if negb (Py.eq_dec in_price pushed) then
      [ {| field_name := "price"; value := PStr (dec_str pushed);
           diff_name := "price"; diff_old_value := str_or_none in_price;
           diff_new_value := DVal (PStr (dec_str pushed));
           is_list := false |} ]
    else [] in
  _get_insales_variant_price_modifiers p in_price in_old_price w
  = match old_pricelist_id (config_of w p) with
    | None => (Ok mods, w)
    | Some old_pricelist =>
        let old_price := get_product_price w old_pricelist p in
        if remote_differs in_old_price (old_price_num old_price price digits)
        then
          (Ok (mods ++
               [ {| field_name := "old-price";
                    value := str_val (old_price_text old_price price digits);
                    diff_name := "old_price";
                    diff_old_value := str_or_none in_old_price;
                    diff_new_value :=
                      DVal (str_val (old_price_text old_price price digits));
                    is_list := false |} ]), w)
        else (Ok mods, w)
    end.
Proof.
  intros Hp Hs. cbv zeta.
  unfold _get_insales_variant_price_modifiers, bind, gets, ret, lift.
  cbv beta. rewrite Hp, Hs. cbv beta iota.
  rewrite to_Decimal_float_repr. cbv beta iota.
  destruct (old_pricelist_id (config_of w p)) as [old|]; [|reflexivity].
  rewrite old_price_differs_eq. cbv beta iota.
  destruct (remote_differs _ _); reflexivity.
Qed.

(** X2: with a pricelist configured and the price skip flag unset, the
    price generator never raises and leaves the world, log included, as it
    is.  It returns at most two modifiers; one named [price] is among them
    exactly when the remote price differs from the local price floored at
    0 and printed at the precision, and it carries that printed price,
    which is never negative. *)
Theorem price_generator_spec p in_price in_old_price w pricelist :
  pricelist_id (config_of w p) = Some pricelist ->
  insales_sync_skip_price p = false ->
  let digits := digits_or_16 w "Product Price" in
  let pushed := float_repr_dec (max0 (get_product_price w pricelist p)) digits in
  exists mods,
    _get_insales_variant_price_modifiers p in_price in_old_price w = (Ok mods, w)
    /\ (List.length mods <= 2)%nat
    /\ ((exists m, In m mods /\ field_name m = "price")
        <-> Py.eq_dec in_price pushed = false)
    /\ (forall m, In m mods -> field_name m = "price" ->
          value m = PStr (dec_str pushed) /\ is_list m = false)
    /\ 0 <= mant pushed.
Proof.
  intros Hp Hs. cbv zeta.
  rewrite (price_generator_cases p in_price in_old_price w pricelist Hp Hs).
  cbv zeta.
  set (pushed := float_repr_dec _ _).
  assert (N : 0 <= mant pushed) by apply float_repr_dec_nonneg, max0_nonneg.
  destruct (old_pricelist_id (config_of w p)) as [o|].
  - set (old := mkVariantModifier "old-price" _ _ _ _ _).
    destruct (remote_differs _ _);
      destruct (Py.eq_dec in_price pushed) eqn:E; cbn [negb];
      eexists; (split; [reflexivity|]); cbn [List.length app];
      (split; [lia|]); (split; [|split; [|exact N]]).
    all: try (split; [intros (m & Hm & Hn) | intros H; try discriminate]).
    all: try (intros m Hm Hn).
    all: cbn [In] in *.
    all: repeat match goal with
                | H : _ \/ _ |- _ => destruct H
                | H : False |- _ => destruct H
                end; subst; try discriminate; try (split; reflexivity);
      try reflexivity.
    all: try (eexists; split; [left; reflexivity | reflexivity]).
  - destruct (Py.eq_dec in_price pushed) eqn:E; cbn [negb];
      eexists; (split; [reflexivity|]); cbn [List.length];
      (split; [lia|]); (split; [|split; [|exact N]]).
    all: try (split; [intros (m & Hm & Hn) | intros H; try discriminate]).
    all: try (intros m Hm Hn).
    all: cbn [In] in *.
    all: repeat match goal with
                | H : _ \/ _ |- _ => destruct H
                | H : False |- _ => destruct H
                end; subst; try discriminate; try (split; reflexivity);
      try reflexivity.
    all: try (eexists; split; [left; reflexivity | reflexivity]).
Qed.

Lemma price_generator_spec_witness :
  exists mods,
    _get_insales_variant_price_modifiers
      (Scenario.product (mkdec 25 1)) (PDec (mkdec 150 0)) PNone
      (Scenario.world (Scenario.config true true []) [] [] false)
    = (Ok mods, Scenario.world (Scenario.config true true []) [] [] false)
    /\ (List.length mods <= 2)%nat.
Proof.
  destruct (price_generator_spec
              (Scenario.product (mkdec 25 1)) (PDec (mkdec 150 0)) PNone
              (Scenario.world (Scenario.config true true []) [] [] false)
              10 eq_refl eq_refl) as (mods & E & L & _).
  exists mods. split; [exact E | exact L].
Defined.

Lemma weight_generator_ok p in_weight w :
  exists mods evs,
    _get_insales_variant_weight_modifiers p in_weight w
    = (Ok mods, add_events evs w)
    /\ Forall (fun e => is_log e = true) evs.
Proof.
  rewrite weight_generator_cases. cbv zeta.
  destruct (negb _ || _); [exists [], []; split; [reflexivity | constructor]|].
  destruct (Py.eq_dec _ _); [exists [], []; split; [reflexivity | constructor]|].
  destruct (_ && _).
  - eexists [], [_]. split; [reflexivity | repeat constructor].
  - eexists [_], []. split; [reflexivity | constructor].
Qed.

Lemma price_generator_ok p in_price in_old_price w :
  exists mods,
    _get_insales_variant_price_modifiers p in_price in_old_price w = (Ok mods, w).
Proof.
  destruct (pricelist_id (config_of w p)) as [pricelist|] eqn:Hp.
  - destruct (insales_sync_skip_price p) eqn:Hs.
    + exists []. unfold _get_insales_variant_price_modifiers, bind, gets.
      cbv beta. now rewrite Hp, Hs.
    + rewrite (price_generator_cases p in_price in_old_price w pricelist Hp Hs).
      cbv zeta. destruct (old_pricelist_id _); [destruct (remote_differs _ _)|];
        eexists; reflexivity.
  - exists []. unfold _get_insales_variant_price_modifiers, bind, gets.
    cbv beta. now rewrite Hp.
Qed.

(** ** A variant with every skip flag set *)

(** X3: when the three skip flags of a variant are set,
    [process_insales_variant] computes no modifier, logs nothing and calls
    nothing remote, whatever the environment and the payload; it still
    stamps the variant with the remote id and the time. *)
Theorem skipped_variant_is_only_linked p v w :
  insales_sync_skip_weight p = true ->
  insales_sync_skip_price p = true ->
  insales_sync_skip_qty p = true ->
  collect_modifiers p v w = (Ok [], w)
  /\ process_insales_variant p v w
     = write_variant_link p (Py.get v "id") (now w) w.
Proof.
  intros Hw Hp Hq.
  assert (C : collect_modifiers p v w = (Ok [], w)).
  { unfold collect_modifiers, bind.
    rewrite weight_generator_cases. cbv zeta. rewrite Hw, orb_true_r.
    unfold _get_insales_variant_price_modifiers,
      _get_insales_variant_qty_modifiers, bind, gets, ret.
    cbv beta. rewrite Hp, Hq.
    destruct (pricelist_id (config_of w p)); reflexivity. }
  split; [exact C | exact (process_variant_no_mods p v w w C)].
Qed.

Lemma skipped_variant_is_only_linked_witness :
  let p := mkProductProduct 100 (Some "SKU1") (mkdec 25 1) 200 PNone None
                            true true true in
  let w := Scenario.world (Scenario.config true true [Scenario.stock])
                          [p] [] true in
  trace (snd (process_insales_variant
                p (Scenario.variant (PStr "SKU1") (mkdec 3 0) 5) w))
  = [OrmWrite "product.product" 100
              [("insales_sync_variant_id", PInt 9);
               ("insales_sync_timestamp", PInt 1000)]].
Proof.
  cbv zeta.
  rewrite (proj2 (skipped_variant_is_only_linked
                    (mkProductProduct 100 (Some "SKU1") (mkdec 25 1) 200 PNone
                                      None true true true)
                    (Scenario.variant (PStr "SKU1") (mkdec 3 0) 5)
                    (Scenario.world (Scenario.config true true [Scenario.stock])
                       [mkProductProduct 100 (Some "SKU1") (mkdec 25 1) 200
                                         PNone None true true true] [] true)
                    eq_refl eq_refl eq_refl)).
  reflexivity.
Defined.

(** ** The quantity generator *)

(** X4: with the quantity skip flag unset and every mapping readable (or
    its field unknown), the quantity generator returns no modifier exactly
    when every readable mapping is at rest: the remote quantity floored at
    0 equals the local one.  Every modifier it returns stands for a mapping
    that is not at rest; its old value is the floored remote quantity, so
    never negative, and its new value the local quantity. *)
Theorem qty_generator_at_rest p v w :
  insales_sync_skip_qty p = false ->
  Forall (fun f => reads_or_unknown v f = true)
         (quantity_fields (config_of w p)) ->
  exists mods evs,
    _get_insales_variant_qty_modifiers p v w = (Ok mods, add_events evs w)
    /\ Forall (fun e => is_log e = true) evs
    /\ (mods = [] <->
        forall f q, In f (quantity_fields (config_of w p)) ->
                    get_quantity_from_insales_variant v f = Ok q ->
                    Z.max q 0 = local_qty w p f)
    /\ (forall m, In m mods ->
          exists f n,
            In f (quantity_fields (config_of w p))
            /\ diff_old_value m = DVal (PInt n) /\ 0 <= n
            /\ diff_new_value m = DVal (PInt (local_qty w p f))
            /\ n <> local_qty w p f
            /\ is_list m = is_additional f).
Proof.
  intros Hs HF. rewrite (qty_generator_eq p v w Hs).
  destruct (qty_loop_spec p v _ [] w HF) as (mods & evs & R & L & P1 & P2 & _).
  exists mods, evs. split; [exact R|]. split; [exact L|]. split.
  - split.
    + intros -> f q Hf Hq.
      destruct (Z.eq_dec (Z.max q 0) (local_qty w p f)) as [E|N]; [exact E|].
      destruct (P1 f q Hf Hq N).
    + intros H. destruct mods as [|m mods]; [reflexivity|].
      destruct (P2 m (or_introl eq_refl)) as (f & q & Hf & Hq & N & _).
      destruct (N (H f q Hf Hq)).
  - intros m Hm. destruct (P2 m Hm) as (f & q & Hf & Hq & N & ->).
    exists f, (Z.max q 0). cbn [qty_modifier diff_old_value diff_new_value is_list].
    repeat split; auto. lia.
Qed.

Lemma qty_generator_at_rest_witness :
  exists mods evs,
    _get_insales_variant_qty_modifiers
      (Scenario.product (mkdec 25 1))
      (Scenario.variant (PStr "SKU1") (mkdec 3 0) 5)
      (Scenario.world (Scenario.config true true [Scenario.stock])
                      [Scenario.product (mkdec 25 1)]
                      (Scenario.on_hand (mkdec 5 0) (mkdec 0 0)) false)
    = (Ok mods,
       add_events evs
         (Scenario.world (Scenario.config true true [Scenario.stock])
                         [Scenario.product (mkdec 25 1)]
                         (Scenario.on_hand (mkdec 5 0) (mkdec 0 0)) false)).
Proof.
  destruct (qty_generator_at_rest
              (Scenario.product (mkdec 25 1))
              (Scenario.variant (PStr "SKU1") (mkdec 3 0) 5)
              (Scenario.world (Scenario.config true true [Scenario.stock])
                              [Scenario.product (mkdec 25 1)]
                              (Scenario.on_hand (mkdec 5 0) (mkdec 0 0)) false)
              eq_refl) as (mods & evs & R & _).
  - repeat constructor.
  - exists mods, evs. exact R.
Defined.

(** *** Remote quantities that cannot be read *)

Lemma int_errors v e :
  Builtins.int v = Raise e -> e = ValueError \/ e = TypeError.
Proof.
  destruct v as [|b|z|s|d|l|d]; simpl; intros H; try discriminate;
    try (injection H as <-; auto).
  destruct (Py.int_of_str s); [discriminate | injection H as <-; auto].
Qed.

Lemma find_field_value_errors f l e :
  find_field_value f l = Raise e ->
  e = ValueError \/ e = TypeError \/ e = AttributeError.
Proof.
  induction l as [|x l IH]; simpl; [discriminate|].
  destruct x as [|b|z|s|d|l'|d]; try (intros H; injection H as <-; auto).
  destruct (Py.eq_int _ _); [|exact IH].
  intros H. destruct (int_errors _ _ H); auto.
Qed.

Lemma get_quantity_errors v f e :
  get_quantity_from_insales_variant v f = Raise e ->
  catches_unknown_field e = false ->
  e = ValueError \/ e = TypeError \/ e = AttributeError.
Proof.
  unfold get_quantity_from_insales_variant.
  destruct (is_additional f).
  - destruct (Builtins.iter _) as [l|e'] eqn:I.
    + intros H _. exact (find_field_value_errors _ _ _ H).
    + intros H _. injection H as ->.
      destruct (Py.get_default v "variant-field-values" (PList []));
        simpl in I; try discriminate; injection I as <-; auto.
  - destruct (negb _).
    + intros H. injection H as <-. discriminate.
    + intros H _. destruct (int_errors _ _ H); auto.
Qed.

Lemma qty_generator_raise p v w l1 f l2 e :
  insales_sync_skip_qty p = false ->
  quantity_fields (config_of w p) = l1 ++ f :: l2 ->
  Forall (fun g => reads_or_unknown v g = true) l1 ->
  get_quantity_from_insales_variant v f = Raise e ->
  catches_unknown_field e = false ->
  exists evs,
    _get_insales_variant_qty_modifiers p v w = (Raise e, add_events evs w)
    /\ Forall (fun e => is_log e = true) evs.
Proof.
  intros Hs Hl HF Hf Hc. rewrite (qty_generator_eq p v w Hs), Hl, fold_m_app.
  destruct (qty_loop_spec p v l1 [] w HF) as (mods & evs & R & L & _).
  rewrite R. simpl fold_m.
  rewrite (bind_raise _ _ _ _ _ (qty_iteration_raise p v _ f _ e Hf Hc)).
  exists evs. split; [reflexivity | exact L].
Qed.

(** X5: a remote quantity that [int] cannot read (a malformed string, a
    list, an entry that is no dict) is none of the errors the loops
    provide for.  The error is a [ValueError], [TypeError] or
    [AttributeError]; it leaves the quantity generator and
    [process_insales_variant], which has then done nothing but log (no
    remote call, no write-back), and the handler of the loop over the
    variants of a product does not catch it either. *)
Theorem malformed_quantity_aborts p v w l1 f l2 e :
  insales_sync_skip_qty p = false ->
  quantity_fields (config_of w p) = l1 ++ f :: l2 ->
  Forall (fun g => reads_or_unknown v g = true) l1 ->
  get_quantity_from_insales_variant v f = Raise e ->
  catches_unknown_field e = false ->
  (e = ValueError \/ e = TypeError \/ e = AttributeError)
  /\ catches_variant_errors e = false
  /\ fst (_get_insales_variant_qty_modifiers p v w) = Raise e
  /\ exists evs,
       process_insales_variant p v w = (Raise e, add_events evs w)
       /\ Forall (fun e => is_log e = true) evs.
Proof.
  intros Hs Hl HF Hf Hc.
  pose proof (get_quantity_errors v f e Hf Hc) as K.
  split; [exact K|].
  split; [destruct K as [->|[->| ->]]; reflexivity|].
  split.
  - destruct (qty_generator_raise p v w l1 f l2 e Hs Hl HF Hf Hc) as (evs & R & _).
    now rewrite R.
  - destruct (weight_generator_ok p (Py.get v "weight") w)
      as (wm & ev1 & W & L1).
    destruct (price_generator_ok p (Py.get v "price") (Py.get v "old-price")
                                 (add_events ev1 w)) as (pm & P).
    assert (Hl' : quantity_fields (config_of (add_events ev1 w) p)
                  = l1 ++ f :: l2) by now rewrite config_of_add_events.
    destruct (qty_generator_raise p v (add_events ev1 w) l1 f l2 e
                                  Hs Hl' HF Hf Hc) as (ev2 & Q & L2).
    exists (ev1 ++ ev2). split.
    + apply process_variant_raise.
      unfold collect_modifiers.
      rewrite (bind_ok _ _ _ _ _ W), (bind_ok _ _ _ _ _ P),
        (bind_raise _ _ _ _ _ Q).
      now rewrite add_events_app.
    + apply Forall_app. split; assumption.
Qed.

Lemma malformed_quantity_aborts_witness :
  fst (process_insales_variant
         (Scenario.product (mkdec 25 1))
         [("id", PInt 9); ("quantity", PStr "many")]
         (Scenario.world (Scenario.config true true [Scenario.stock])
                         [Scenario.product (mkdec 25 1)] [] false))
  = Raise ValueError.
Proof.
  destruct (malformed_quantity_aborts
              (Scenario.product (mkdec 25 1))
              [("id", PInt 9); ("quantity", PStr "many")]
              (Scenario.world (Scenario.config true true [Scenario.stock])
                              [Scenario.product (mkdec 25 1)] [] false)
              [] Scenario.stock [] ValueError
              eq_refl eq_refl (Forall_nil _) eq_refl eq_refl)
    as (_ & _ & _ & evs & R & _).
  now rewrite R.
Defined.

(** ** The payload of an update *)

Lemma lookup_set_same d k v : Py.lookup (Py.set d k v) k = Some v.
Proof.
  induction d as [|[k' v'] d IH]; simpl.
  - now rewrite String.eqb_refl.
  - destruct (String.eqb k' k) eqn:E; simpl; rewrite E; [reflexivity | exact IH].
Qed.

Lemma lookup_set_other d k v k0 :
  k0 <> k -> Py.lookup (Py.set d k v) k0 = Py.lookup d k0.
Proof.
  intros N. induction d as [|[k' v'] d IH]; simpl.
  - destruct (String.eqb_spec k k0); [congruence | reflexivity].
  - destruct (String.eqb_spec k' k) as [->|]; simpl.
    + destruct (String.eqb_spec k k0); [congruence | reflexivity].
    + destruct (String.eqb k' k0); [reflexivity | exact IH].
Qed.

Lemma find_app_last {A : Type} (f : A -> bool) l x :
  find f (l ++ [x])
  = match find f l with
    | Some y => Some y
    | None => if f x then Some x else None
    end.
Proof.
  induction l as [|a l IH]; simpl; [reflexivity|].
  destruct (f a); [reflexivity | exact IH].
Qed.

Lemma last_value_cons k m mods :
  last_value k (m :: mods)
  = match last_value k mods with
    | Some v => Some v
    | None => if String.eqb (field_name m) k then Some (value m) else None
    end.
Proof.
  unfold last_value. simpl rev. rewrite find_app_last.
  destruct (find _ (rev mods)); [reflexivity|].
  destruct (String.eqb (field_name m) k); reflexivity.
Qed.

Lemma build_data_from K mods : forall data l0,
  (forall m, In m mods -> (is_list m = true <-> field_name m = K)) ->
  Py.lookup data K = None /\ l0 = [] \/ Py.lookup data K = Some (PList l0) ->
  exists data',
    build_data mods data = Ok data'
    /\ Py.lookup data' K
       = match list_values mods with
         | [] => Py.lookup data K
         | _ :: _ => Some (PList (l0 ++ list_values mods))
         end
    /\ (forall k, k <> K ->
          Py.lookup data' k
          = match last_value k mods with
            | Some v => Some v
            | None => Py.lookup data k
            end).
Proof.
  induction mods as [|m mods IH]; intros data l0 HK HD.
  - exists data. repeat split.
  - assert (HK' : forall m', In m' mods ->
                             (is_list m' = true <-> field_name m' = K))
      by (intros m' Hm'; apply HK; now right).
    pose proof (HK m (or_introl eq_refl)) as Hm.
    cbn [build_data]. unfold list_values. cbn [filter].
    destruct (is_list m) eqn:L.
    + assert (N : field_name m = K) by now apply Hm.
      rewrite N.
      assert (G : Py.get_default data K (PList []) = PList l0).
      { unfold Py.get_default.
        destruct HD as [[-> ->]| ->]; reflexivity. }
      rewrite G. cbn [Builtins.add_list].
      destruct (IH (Py.set data K (PList (l0 ++ [value m])))
                   (l0 ++ [value m]) HK'
                   (or_intror (lookup_set_same _ _ _)))
        as (data' & B & PK & PO).
      exists data'. split; [exact B|]. split.
      * rewrite PK. cbn [map]. fold (list_values mods).
        rewrite lookup_set_same.
        destruct (list_values mods) as [|x l]; [reflexivity|].
        now rewrite <- app_assoc.
      * intros k Hk. rewrite (PO k Hk), last_value_cons.
        rewrite (lookup_set_other _ _ _ _ Hk).
        destruct (last_value k mods); [reflexivity|].
        rewrite N.
        destruct (String.eqb_spec K k); [congruence | reflexivity].
    + assert (N : field_name m <> K).
      { intros E. apply Hm in E. discriminate. }
      assert (HD' : Py.lookup (Py.set data (field_name m) (value m)) K = None
                    /\ l0 = []
                    \/ Py.lookup (Py.set data (field_name m) (value m)) K
                       = Some (PList l0)).
      { rewrite lookup_set_other by congruence. exact HD. }
      destruct (IH _ l0 HK' HD') as (data' & B & PK & PO).
      exists data'. split; [exact B|]. split.
      * rewrite PK. fold (list_values mods).
        rewrite lookup_set_other by congruence. reflexivity.
      * intros k Hk. rewrite (PO k Hk), last_value_cons.
        destruct (last_value k mods); [reflexivity|].
        destruct (String.eqb_spec (field_name m) k) as [<-|Hne].
        -- apply lookup_set_same.
        -- apply lookup_set_other. congruence.
Qed.

(** X6: when the list modifiers are exactly those of one key (as the
    modifiers of additional fields are, all under
    [variant-field-values-attributes]), building the payload succeeds; the
    key holds the values of all the list modifiers in their order, none
    overwriting another, and is absent when there is none; every other key
    holds the value of the last modifier of that name, and keys that no
    modifier names are absent. *)
Theorem payload_of_modifiers K mods :
  (forall m, In m mods -> (is_list m = true <-> field_name m = K)) ->
  exists data,
    build_data mods [] = Ok data
    /\ Py.lookup data K
       = match list_values mods with
         | [] => None
         | l => Some (PList l)
         end
    /\ (forall k, k <> K -> Py.lookup data k = last_value k mods).
Proof.
  intros HK.
  destruct (build_data_from K mods [] [] HK (or_introl (conj eq_refl eq_refl)))
    as (data & B & PK & PO).
  exists data. split; [exact B|]. split.
  - rewrite PK. destruct (list_values mods); reflexivity.
  - intros k Hk. rewrite (PO k Hk). destruct (last_value k mods); reflexivity.
Qed.

Lemma payload_of_modifiers_witness :
  exists data,
    build_data [qty_modifier Scenario.custom_stock 5 7;
                qty_modifier Scenario.stock 5 3;
                qty_modifier (mkQuantityField 8 true "shop_stock" 43) 0 2] []
    = Ok data
    /\ Py.lookup data "variant-field-values-attributes"
       = Some (PList [PDict [("handle", PStr "custom_stock"); ("value", PInt 7)];
                      PDict [("handle", PStr "shop_stock"); ("value", PInt 2)]])
    /\ Py.lookup data "quantity" = Some (PInt 3).
Proof.
  destruct (payload_of_modifiers
              "variant-field-values-attributes"
              [qty_modifier Scenario.custom_stock 5 7;
               qty_modifier Scenario.stock 5 3;
               qty_modifier (mkQuantityField 8 true "shop_stock" 43) 0 2])
    as (data & B & PK & PO).
  - intros m [<-|[<-|[<-|[]]]]; simpl; split; intros H;
      try reflexivity; discriminate.
  - exists data. split; [exact B|]. split; [exact PK|].
    apply PO. discriminate.
Defined.

(** X7: a scalar modifier followed by a list modifier of the same name (a
    plain quantity mapping whose remote field is called like the key of the
    additional fields, listed before an additional mapping) makes the
    payload loop raise [TypeError]: the list modifier adds a list to the
    scalar that the key holds. *)
Theorem scalar_then_list_raises m0 m rest data :
  is_list m0 = false -> is_list m = true ->
  field_name m = field_name m0 ->
  (forall l, value m0 <> PList l) ->
  build_data (m0 :: m :: rest) data = Raise TypeError.
Proof.
  intros L0 L N V. cbn [build_data]. rewrite L0, L, N.
  unfold Py.get_default. rewrite lookup_set_same.
  destruct (value m0) eqn:E; try reflexivity.
  destruct (V l eq_refl).
Qed.

Lemma scalar_then_list_raises_witness :
  build_data
    [qty_modifier (mkQuantityField 7 false "variant-field-values-attributes" 0)
                  5 3;
     qty_modifier Scenario.custom_stock 5 7] []
  = Raise TypeError.
Proof.
  apply (scalar_then_list_raises
           (qty_modifier
              (mkQuantityField 7 false "variant-field-values-attributes" 0) 5 3)
           (qty_modifier Scenario.custom_stock 5 7) [] []);
    try reflexivity.
  intros l H. discriminate H.
Defined.

(** ** What a product run leaves alone *)

Lemma same_key_same_row {A : Type} (key : A -> Z) l a b :
  NoDup (map key l) -> In a l -> In b l -> key a = key b -> a = b.
Proof.
  induction l as [|x l IH]; intros ND Ha Hb E; [destruct Ha|].
  simpl in ND. inversion ND as [|? ? Hx ND']; subst.
  destruct Ha as [->|Ha], Hb as [->|Hb]; auto.
  - destruct Hx. rewrite E. now apply in_map.
  - destruct Hx. rewrite <- E. now apply in_map.
Qed.

(** The rows of [product.product] after a call: the rows before, each
    through [g], which keeps ids and external codes. *)
Lemma variant_rows p v w :
  exists g,
    products (snd (process_insales_variant p v w)) = map g (products w)
    /\ forall q, (pp_id q <> pp_id p -> g q = q)
                 /\ pp_id (g q) = pp_id q
                 /\ default_code (g q) = default_code q.
Proof.
  set (link := fun t q => if pp_id q =? pp_id p
                          then with_variant_link (Py.get v "id") t q else q).
  assert (LK : forall t q, (pp_id q <> pp_id p -> link t q = q)
                           /\ pp_id (link t q) = pp_id q
                           /\ default_code (link t q) = default_code q).
  { intros t q. unfold link.
    destruct (Z.eqb_spec (pp_id q) (pp_id p)); repeat split; auto; tauto. }
  assert (ID : forall q : ProductProduct,
             (pp_id q <> pp_id p -> q = q) /\ pp_id q = pp_id q
             /\ default_code q = default_code q) by (intros; auto).
  assert (MI : forall l : list ProductProduct, l = map (fun q => q) l)
    by (intros; now rewrite map_id).
  destruct (logs_only_collect p v w) as (evs & E & _).
  destruct (collect_modifiers p v w) as [[mods|e] w1] eqn:C;
    simpl in E; subst w1.
  - destruct mods as [|m mods].
    + rewrite (process_variant_no_mods _ _ _ _ C).
      exists (link (now (add_events evs w))). split; [|apply LK].
      cbn [write_variant_link snd add_event set_products products].
      now rewrite products_add_events.
    + destruct (prod_environment (config_of w p)) eqn:Env.
      * destruct (build_data (m :: mods) []) as [data|e] eqn:B.
        -- pose proof (process_variant_prod _ _ _ _ _ data C
                         ltac:(discriminate) Env B) as R.
           cbv zeta in R. rewrite R.
           destruct (update_fails _ _ _ _ _ _).
           ++ exists (fun q => q). split; [|exact ID].
              cbn [snd add_event products].
              rewrite products_add_events. apply MI.
           ++ exists (link (now (add_events evs w))). split; [|apply LK].
              cbn [write_variant_link snd add_event set_products products].
              now rewrite products_add_events.
        -- rewrite (process_variant_bad_payload _ _ _ _ _ e C
                      ltac:(discriminate) Env B).
           exists (fun q => q). split; [|exact ID].
           cbn [snd add_event products].
           rewrite products_add_events. apply MI.
      * rewrite (process_variant_test _ _ _ _ _ C ltac:(discriminate) Env).
        exists (link (now (add_events evs w))). split; [|apply LK].
        cbn [write_variant_link snd add_event set_products products].
        now rewrite products_add_events.
  - rewrite (process_variant_raise _ _ _ _ _ C).
    exists (fun q => q). split; [|exact ID].
    cbn [snd]. rewrite products_add_events. apply MI.
Qed.

Lemma products_log_caught e w :
  products (snd (log_caught e w)) = products w.
Proof.
  destruct (logs_only_log_caught e w) as (evs & -> & _).
  apply products_add_events.
Qed.

Lemma products_try_log {A : Type} (body : M unit) catches w :
  products (snd (try_except body catches log_caught w))
  = products (snd (body w)).
Proof.
  unfold try_except. destruct (body w) as [[a|e] w1]; [reflexivity|].
  destruct (catches e); [apply products_log_caught | reflexivity].
Qed.

Lemma search_default_code_carries w v p :
  In p (search_default_code w (Py.get v "sku")) ->
  In p (products w) /\ carries_sku p (PDict v) = true.
Proof.
  unfold search_default_code. intros H. apply filter_In in H.
  destruct H as [H1 H2]. split; [exact H1|].
  unfold carries_sku. destruct (default_code p); [exact H2 | discriminate].
Qed.

Lemma variant_turn_rows cfg in_product x w :
  NoDup (map pp_id (products w)) ->
  exists g,
    products (snd (process_variant cfg in_product x w)) = map g (products w)
    /\ forall q, In q (products w) ->
                 (carries_sku q x = false -> g q = q)
                 /\ pp_id (g q) = pp_id q
                 /\ default_code (g q) = default_code q.
Proof.
  intros ND. unfold process_variant.
  rewrite (products_try_log (A := unit)).
  assert (ID : exists g : ProductProduct -> ProductProduct,
             products w = map g (products w)
             /\ forall q, In q (products w) ->
                          (carries_sku q x = false -> g q = q)
                          /\ pp_id (g q) = pp_id q
                          /\ default_code (g q) = default_code q).
  { exists (fun q => q). split; [now rewrite map_id | auto]. }
  destruct x as [| | | | | |v]; try exact ID.
  unfold process_variant_try, bind, log, emit, gets, raise.
  destruct (Py.is_none (Py.get v "sku")); [exact ID|].
  cbv beta iota.
  destruct (search_default_code _ _) as [|p [|p' l]] eqn:S; try exact ID.
  assert (Hp : In p (products w) /\ carries_sku p (PDict v) = true).
  { apply (search_default_code_carries
             (add_event (Log DEBUG "Process variant %s"
                             [AVal (Py.get v "sku")]) w)).
    rewrite S. now left. }
  destruct Hp as [Hp Cp].
  unfold write_template_link. cbv beta iota.
  match goal with
  | |- context [process_insales_variant p v ?w2] =>
      destruct (variant_rows p v w2) as (g & G & HG)
  end.
  exists g. split; [exact G|].
  intros q Hq. destruct (HG q) as (G1 & G2 & G3).
  split; [|split; assumption].
  intros Cq. apply G1. intros E.
  rewrite (same_key_same_row pp_id (products w) q p ND Hq Hp E) in Cq.
  congruence.
Qed.

Lemma variant_loop_rows cfg in_product variants : forall w,
  NoDup (map pp_id (products w)) ->
  exists g,
    products (snd (for_each variants (process_variant cfg in_product) w))
    = map g (products w)
    /\ forall q, In q (products w) ->
                 ((forall x, In x variants -> carries_sku q x = false) ->
                  g q = q)
                 /\ pp_id (g q) = pp_id q
                 /\ default_code (g q) = default_code q.
Proof.
  induction variants as [|x variants IH]; intros w ND.
  - exists (fun q => q). split; [simpl; now rewrite map_id | auto].
  - destruct (variant_turn_rows cfg in_product x w ND) as (g1 & G1 & H1).
    cbn [for_each]. unfold bind.
    destruct (process_variant cfg in_product x w) as [[[]|e] w1] eqn:R;
      cbn [snd] in G1.
    + assert (ND1 : NoDup (map pp_id (products w1))).
      { rewrite G1, map_map.
        erewrite map_ext_in; [exact ND|].
        intros q Hq. apply (H1 q Hq). }
      destruct (IH w1 ND1) as (g2 & G2 & H2).
      exists (fun q => g2 (g1 q)). split; [now rewrite G2, G1, map_map|].
      intros q Hq. destruct (H1 q Hq) as (A1 & A2 & A3).
      assert (Hq1 : In (g1 q) (products w1)) by (rewrite G1; now apply in_map).
      destruct (H2 _ Hq1) as (B1 & B2 & B3).
      split; [|split; congruence].
      intros Hx. rewrite B1.
      * apply A1, Hx. now left.
      * intros y Hy. unfold carries_sku. rewrite A3.
        apply (Hx y). now right.
    + exists g1. split; [exact G1|].
      intros q Hq. destruct (H1 q Hq) as (A1 & A2 & A3).
      split; [|split; assumption].
      intros Hx. apply A1, Hx. now left.
Qed.

(** X8: a product run neither adds, removes nor renames local variants:
    the ids and external codes of the rows of [product.product] are the
    same afterwards, in the same order.  A row whose external code is the
    SKU of none of the product's remote variants is left exactly as it
    was, however the run ends (ids are unique, as they are in a table). *)
Theorem unmatched_rows_are_untouched cfg in_product w :
  NoDup (map pp_id (products w)) ->
  let w' := snd (process_insales_product cfg in_product w) in
  map pp_id (products w') = map pp_id (products w)
  /\ map default_code (products w') = map default_code (products w)
  /\ forall q,
       In q (products w) ->
       (forall d variants x,
           in_product = PDict d ->
           Builtins.iter (Py.get_default d "variants" (PList [])) = Ok variants ->
           In x variants -> carries_sku q x = false) ->
       In q (products w').
Proof.
  intros ND. cbv zeta.
  assert (K : exists g,
             products (snd (process_insales_product cfg in_product w))
             = map g (products w)
             /\ forall q, In q (products w) ->
                  ((forall d variants x,
                       in_product = PDict d ->
                       Builtins.iter (Py.get_default d "variants" (PList []))
                       = Ok variants ->
                       In x variants -> carries_sku q x = false) ->
                   g q = q)
                  /\ pp_id (g q) = pp_id q
                  /\ default_code (g q) = default_code q).
  { assert (ID : forall w0, products w0 = products w ->
               exists g : ProductProduct -> ProductProduct,
                 products w0 = map g (products w)
                 /\ forall q, In q (products w) ->
                      ((forall d variants x,
                           in_product = PDict d ->
                           Builtins.iter (Py.get_default d "variants" (PList []))
                           = Ok variants ->
                           In x variants -> carries_sku q x = false) ->
                       g q = q)
                      /\ pp_id (g q) = pp_id q
                      /\ default_code (g q) = default_code q).
    { intros w0 E. exists (fun q => q).
      split; [now rewrite map_id | auto]. }
    destruct in_product as [| | | | | |d]; try (apply ID; reflexivity).
    unfold process_insales_product, bind, log, emit, lift.
    destruct (Builtins.iter _) as [variants|e] eqn:I;
      [|apply ID; reflexivity].
    destruct (variant_loop_rows cfg d variants
                (add_event (Log DEBUG "Process product %s"
                                [AVal (Py.get d "permalink")]) w) ND)
      as (g & G & HG).
    exists g. split; [exact G|].
    intros q Hq. destruct (HG q Hq) as (A1 & A2 & A3).
    split; [|split; assumption].
    intros Hx. apply A1. intros x Hin. exact (Hx d variants x eq_refl I Hin). }
  destruct K as (g & G & HG). rewrite G, !map_map.
  split; [|split].
  - apply map_ext_in. intros q Hq. apply (HG q Hq).
  - apply map_ext_in. intros q Hq. apply (HG q Hq).
  - intros q Hq Hx. destruct (HG q Hq) as (A1 & _).
    rewrite <- (A1 Hx) at 1. now apply in_map.
Qed.

Lemma unmatched_rows_are_untouched_witness :
  In Run.sku2
     (products (snd (process_insales_product
                       Run.first
                       (PDict [("id", PInt 8); ("permalink", PStr "chair");
                               ("variants",
                                PList [PDict (Scenario.variant (PStr "SKU1")
                                                               (mkdec 3 0) 5)])])
                       (Run.world false)))).
Proof.
  refine (proj2 (proj2 (unmatched_rows_are_untouched
                          Run.first
                          (PDict [("id", PInt 8); ("permalink", PStr "chair");
                                  ("variants",
                                   PList [PDict (Scenario.variant
                                                   (PStr "SKU1") (mkdec 3 0) 5)])])
                          (Run.world false) _))
                Run.sku2 _ _).
  - simpl. constructor; [simpl; intros [H|[]]; discriminate|].
    constructor; [intros [] | constructor].
  - right. now left.
  - intros d variants x E I Hx. injection E as <-.
    injection I as <-. destruct Hx as [<-|[]]. reflexivity.
Defined.

(** ** The configuration a matched variant is reconciled under *)

Lemma find_template_updated k (F : ProductTemplate -> ProductTemplate) l :
  (forall t, tmpl_id (F t) = tmpl_id t) ->
  find (fun t => tmpl_id t =? k)
       (map (fun t => if tmpl_id t =? k then F t else t) l)
  = option_map F (find (fun t => tmpl_id t =? k) l).
Proof.
  intros HF. induction l as [|t l IH]; simpl; [reflexivity|].
  destruct (tmpl_id t =? k) eqn:E.
  - now rewrite HF, E.
  - rewrite E. exact IH.
Qed.

Lemma config_after_template_link p cfg a b w t :
  find (fun t => tmpl_id t =? product_tmpl_id p) (templates w) = Some t ->
  find (fun c => cfg_id c =? cfg_id cfg) (configs w) = Some cfg ->
  config_of (snd (write_template_link p cfg a b w)) p = cfg.
Proof.
  intros Ht Hc. unfold config_of, write_template_link.
  cbn [snd add_event set_templates templates configs].
  rewrite (find_template_updated (product_tmpl_id p)
             (fun t => mkProductTemplate (tmpl_id t) (Some (cfg_id cfg)) a b
                                         (tmpl_variant_id t) (tmpl_timestamp t)))
    by reflexivity.
  rewrite Ht. cbn [option_map insales_sync_config_id]. now rewrite Hc.
Qed.

Lemma logs_are_not_updates evs :
  Forall (fun e => is_log e = true) evs ->
  Forall (fun e => is_update_call e = false) evs.
Proof.
  intros H. eapply Forall_impl; [|exact H]. intros [] E; simpl in *; congruence.
Qed.

Lemma test_run_events p v w :
  prod_environment (config_of w p) = false ->
  exists evs,
    trace (snd (process_insales_variant p v w)) = trace w ++ evs
    /\ Forall (fun e => is_update_call e = false) evs.
Proof.
  intros Henv.
  destruct (logs_only_collect p v w) as (evs1 & E1 & L1).
  apply logs_are_not_updates in L1.
  destruct (collect_modifiers p v w) as [[mods|e] w1] eqn:C;
    simpl in E1; subst w1.
  - destruct mods as [|m mods].
    + rewrite (process_variant_no_mods _ _ _ _ C).
      exists (evs1 ++ [link_event p v w]). simpl.
      rewrite trace_add_events, now_add_events, <- app_assoc.
      split; [reflexivity|].
      apply Forall_app; split; [exact L1 | repeat constructor].
    + rewrite (process_variant_test _ _ _ _ _ C ltac:(discriminate) Henv).
      exists (evs1 ++ [info_event p (m :: mods); link_event p v w]). simpl.
      rewrite trace_add_events, now_add_events, <- !app_assoc.
      split; [reflexivity|].
      apply Forall_app; split; [exact L1 | repeat constructor].
  - rewrite (process_variant_raise _ _ _ _ _ C).
    exists evs1. simpl. rewrite trace_add_events. split; [reflexivity | exact L1].
Qed.

(** X9: a remote variant matched to exactly one local variant is
    reconciled under the configuration being synchronised, whatever
    configuration its template was bound to before: the template is
    rebound first and the variant's configuration is read through it.  So
    when that configuration is in the test environment the turn of the
    loop makes no remote update, even for a variant that was bound to a
    production configuration. *)
Theorem matched_variant_runs_under_cfg cfg in_product v w p t :
  Py.is_none (Py.get v "sku") = false ->
  search_default_code w (Py.get v "sku") = [p] ->
  find (fun t => tmpl_id t =? product_tmpl_id p) (templates w) = Some t ->
  find (fun c => cfg_id c =? cfg_id cfg) (configs w) = Some cfg ->
  (forall a b, config_of (snd (write_template_link p cfg a b w)) p = cfg)
  /\ (prod_environment cfg = false ->
      exists evs,
        trace (snd (process_variant cfg in_product (PDict v) w)) = trace w ++ evs
        /\ Forall (fun e => is_update_call e = false) evs).
Proof.
  intros Hsku Hs Ht Hc. split.
  - intros a b. exact (config_after_template_link p cfg a b w t Ht Hc).
  - intros Henv.
    set (w0 := add_event (Log DEBUG "Process variant %s"
                              [AVal (Py.get v "sku")]) w).
    set (w2 := snd (write_template_link p cfg (Py.get in_product "id")
                                        (Py.get in_product "permalink") w0)).
    assert (Hcfg : config_of w2 p = cfg)
      by exact (config_after_template_link p cfg _ _ w0 t Ht Hc).
    assert (Henv2 : prod_environment (config_of w2 p) = false)
      by now rewrite Hcfg.
    destruct (test_run_events p v w2 Henv2) as (evs & T & U).
    assert (R : process_variant_try cfg in_product (PDict v) w
                = process_insales_variant p v w2).
    { unfold process_variant_try, bind, log, emit, gets. rewrite Hsku.
      cbv beta iota.
      change (search_default_code
                (add_event (Log DEBUG "Process variant %s"
                                [AVal (Py.get v "sku")]) w) (Py.get v "sku"))
        with (search_default_code w (Py.get v "sku")).
      rewrite Hs. reflexivity. }
    assert (T2 : trace w2
                 = trace w ++ [Log DEBUG "Process variant %s"
                                   [AVal (Py.get v "sku")];
                               OrmWrite "product.template" (product_tmpl_id p)
                                 [("insales_sync_config_id", PInt (cfg_id cfg));
                                  ("insales_sync_product_id",
                                   Py.get in_product "id");
                                  ("insales_sync_permalink",
                                   Py.get in_product "permalink")]]).
    { unfold w2, w0. simpl. now rewrite <- app_assoc. }
    unfold process_variant, try_except. rewrite R.
    destruct (process_insales_variant p v w2) as [[[]|e] w3] eqn:P;
      cbn [snd] in T.
    + cbn [snd]. eexists. rewrite T, T2, <- app_assoc. split; [reflexivity|].
      apply Forall_app; split; [repeat constructor | exact U].
    + destruct (catches_variant_errors e).
      * destruct (logs_only_log_caught e w3) as (evs' & -> & L).
        eexists. rewrite trace_add_events, T, T2, <- !app_assoc.
        split; [reflexivity|].
        apply Forall_app; split; [repeat constructor|].
        apply Forall_app; split; [exact U | now apply logs_are_not_updates].
      * eexists. cbn [snd]. rewrite T, T2, <- app_assoc.
        split; [reflexivity|].
        apply Forall_app; split; [repeat constructor | exact U].
Qed.

Lemma matched_variant_runs_under_cfg_witness :
  config_of
    (snd (write_template_link (Scenario.product (mkdec 25 1)) Run.second
                              (PInt 8) (PStr "chair") (Run.world false)))
    (Scenario.product (mkdec 25 1))
  = Run.second.
Proof.
  apply (proj1 (matched_variant_runs_under_cfg
                  Run.second [("id", PInt 8); ("permalink", PStr "chair")]
                  (Scenario.variant (PStr "SKU1") (mkdec 3 0) 5)
                  (Run.world false) (Scenario.product (mkdec 25 1))
                  (mkProductTemplate 200 None PNone PNone (PBool false) None)
                  eq_refl eq_refl eq_refl eq_refl)).
Defined.

(** ** The single-record entry points *)

Lemma try_api_error {A : Type} (body : M A) (e' : exn) w :
  try_except body catches_api_error (fun _ => raise e') w
  = match body w with
    | (Raise ApiError, w1) => (Raise e', w1)
    | r => r
    end.
Proof.
  unfold try_except. destruct (body w) as [[a|e] w1]; [reflexivity|].
  destruct e as [s| | | | |]; reflexivity.
Qed.

Lemma sync_insales_variant_guarded fetch p w :
  active (config_of w p) = true ->
  Py.truthy (insales_sync_variant_id p) = true ->
  Py.truthy (product_id_of w p) = true ->
  sync_insales_variant fetch p w
  = match (in_variant <- fetch (config_of w p) (product_id_of w p)
                               (insales_sync_variant_id p) ;;
           process_fetched_variant p in_variant) w with
    | (Raise ApiError, w1) =>
        (Raise (Sync (VariantInSalesNotFoundError (insales_sync_variant_id p))),
         w1)
    | r => r
    end.
Proof.
  intros Ha Hv Hp. unfold sync_insales_variant.
  unfold bind at 1, gets at 1. unfold bind at 1, gets at 1.
  cbv beta iota. rewrite Ha, Hv, Hp. cbn [negb orb].
  apply try_api_error.
Qed.

(** X10: when the guard of [sync_insales_variant] passes (an active
    configuration, a remote variant id and a remote product id), the
    action never ends in [ApiError]: an [ApiError] of the fetch is raised
    again as [VariantInSalesNotFoundError] with the variant id, and so is
    the [ApiError] of an update that the remote side refuses for a variant
    that was fetched; in that case nothing is written back. *)
Theorem sync_insales_variant_wraps_api_error
        (fetch : Config -> pyval -> pyval -> M pyval) p w :
  active (config_of w p) = true ->
  Py.truthy (insales_sync_variant_id p) = true ->
  Py.truthy (product_id_of w p) = true ->
  let not_found :=
    Raise (Sync (VariantInSalesNotFoundError (insales_sync_variant_id p))) in
  let call := fetch (config_of w p) (product_id_of w p)
                    (insales_sync_variant_id p) w in
  fst (sync_insales_variant fetch p w) <> Raise ApiError
  /\ (forall w1, call = (Raise ApiError, w1) ->
                 sync_insales_variant fetch p w = (not_found, w1))
  /\ (forall d w1,
         call = (Ok (PDict d), w1) ->
         fst (process_insales_variant p d w1) = Raise ApiError ->
         sync_insales_variant fetch p w
         = (not_found, snd (process_insales_variant p d w1))
         /\ products (snd (process_insales_variant p d w1)) = products w1).
Proof.
  intros Ha Hv Hp. cbv zeta.
  rewrite (sync_insales_variant_guarded fetch p w Ha Hv Hp).
  unfold bind at 1 2 3.
  destruct (fetch _ _ _ w) as [[x|e] w1] eqn:F.
  - split; [|split].
    + destruct (process_fetched_variant p x w1) as [[[]|e] w2];
        [discriminate|].
      destruct e as [s| | | | |]; discriminate.
    + intros w1' H. discriminate.
    + intros d w1' H HP. injection H as -> <-.
      cbn [process_fetched_variant].
      destruct (process_insales_variant p d w1) as [r w2] eqn:P.
      cbn [fst snd] in *. subst r. split; [reflexivity|].
      destruct (variant_rows p d w1) as (g & G & HG).
      destruct (logs_only_collect p d w1) as (evs & E & _).
      destruct (collect_modifiers p d w1) as [[mods|e] w3] eqn:C;
        simpl in E; subst w3.
      * destruct mods as [|m mods].
        -- rewrite (process_variant_no_mods _ _ _ _ C) in P. discriminate.
        -- destruct (prod_environment (config_of w1 p)) eqn:Env.
           ++ destruct (build_data (m :: mods) []) as [data|e] eqn:B.
              ** pose proof (process_variant_prod _ _ _ _ _ data C
                               ltac:(discriminate) Env B) as R.
                 cbv zeta in R. rewrite R in P.
                 destruct (update_fails _ _ _ _ _ _); [|discriminate].
                 injection P as <-. cbn [add_event products].
                 apply products_add_events.
              ** rewrite (process_variant_bad_payload _ _ _ _ _ e C
                            ltac:(discriminate) Env B) in P.
                 injection P as _ <-. cbn [add_event products].
                 apply products_add_events.
           ++ rewrite (process_variant_test _ _ _ _ _ C
                         ltac:(discriminate) Env) in P. discriminate.
      * rewrite (process_variant_raise _ _ _ _ _ C) in P.
        injection P as _ <-. apply products_add_events.
  - split; [|split].
    + destruct e as [s| | | | |]; discriminate.
    + intros w1' H. injection H as -> <-. reflexivity.
    + intros d w1' H. discriminate.
Qed.

Lemma sync_insales_variant_wraps_api_error_witness :
  let p := mkProductProduct 100 (Some "SKU1") (mkdec 25 1) 200 (PInt 9) None
                            false false false in
  let w := mkWorld [Run.first] []
                   [mkProductTemplate 200 (Some 1) (PInt 8) (PStr "chair") (PBool false) None]
                   [p] [] (fun _ => 3%nat) (fun _ _ => mkdec 200 0) 1000
                   (fun _ _ _ _ _ => true) (fun _ _ => []) [] in
  sync_insales_variant (fun _ _ _ => raise ApiError) p w
  = (Raise (Sync (VariantInSalesNotFoundError (PInt 9))), w).
Proof.
  cbv zeta.
  apply (proj1 (proj2 (sync_insales_variant_wraps_api_error
                         (fun _ _ _ => raise ApiError)
                         (mkProductProduct 100 (Some "SKU1") (mkdec 25 1) 200
                                           (PInt 9) None false false false)
                         (mkWorld [Run.first] []
                            [mkProductTemplate 200 (Some 1) (PInt 8)
                                               (PStr "chair") (PBool false)
                                               None]
                            [mkProductProduct 100 (Some "SKU1") (mkdec 25 1)
                               200 (PInt 9) None false false false]
                            [] (fun _ => 3%nat) (fun _ _ => mkdec 200 0) 1000
                            (fun _ _ _ _ _ => true) (fun _ _ => []) [])
                         eq_refl eq_refl eq_refl))).
  reflexivity.
Defined.

Lemma sync_insales_product_guarded fetch t w :
  active (config_of_template w t) = true ->
  Py.truthy (insales_sync_product_id t) = true ->
  sync_insales_product fetch t w
  = match (in_product <- fetch (config_of_template w t)
                               (insales_sync_product_id t) ;;
           process_insales_product (config_of_template w t) in_product) w with
    | (Raise ApiError, w1) =>
        (Raise (Sync (ProductInSalesNotFoundError (insales_sync_product_id t))),
         w1)
    | r => r
    end.
Proof.
  intros Ha Hp. unfold sync_insales_product.
  unfold bind at 1, gets at 1. cbv beta iota. rewrite Ha, Hp. cbn [negb orb].
  apply try_api_error.
Qed.

(** X11: when the guard of [sync_insales_product] passes (an active
    configuration and a remote product id), the action never ends in
    [ApiError]: an [ApiError] of the fetch, or of an update refused while
    the fetched product is processed, is raised again as
    [ProductInSalesNotFoundError] with the product id, at the state the
    failed step left. *)
Theorem sync_insales_product_wraps_api_error
        (fetch : Config -> pyval -> M pyval) t w :
  active (config_of_template w t) = true ->
  Py.truthy (insales_sync_product_id t) = true ->
  let cfg := config_of_template w t in
  let not_found :=
    Raise (Sync (ProductInSalesNotFoundError (insales_sync_product_id t))) in
  let call := fetch cfg (insales_sync_product_id t) w in
  fst (sync_insales_product fetch t w) <> Raise ApiError
  /\ (forall w1, call = (Raise ApiError, w1) ->
                 sync_insales_product fetch t w = (not_found, w1))
  /\ (forall in_product w1,
         call = (Ok in_product, w1) ->
         fst (process_insales_product cfg in_product w1) = Raise ApiError ->
         sync_insales_product fetch t w
         = (not_found, snd (process_insales_product cfg in_product w1)))
  /\ (forall in_product w1,
         call = (Ok in_product, w1) ->
         fst (process_insales_product cfg in_product w1) <> Raise ApiError ->
         sync_insales_product fetch t w
         = process_insales_product cfg in_product w1).
Proof.
  intros Ha Hp. cbv zeta.
  rewrite (sync_insales_product_guarded fetch t w Ha Hp).
  unfold bind at 1 2 3 4.
  destruct (fetch _ _ w) as [[x|e] w1] eqn:F.
  - split; [|split; [|split]].
    + destruct (process_insales_product _ x w1) as [[[]|e] w2];
        [discriminate|].
      destruct e as [s| | | | |]; discriminate.
    + intros w1' H. discriminate.
    + intros y w1' H HP. injection H as <- <-.
      destruct (process_insales_product _ x w1) as [r w2].
      cbn [fst snd] in *. now subst r.
    + intros y w1' H HP. injection H as <- <-.
      destruct (process_insales_product _ x w1) as [[[]|e] w2];
        [reflexivity|].
      destruct e as [s| | | | |]; try reflexivity.
      now destruct HP.
  - split; [|split; [|split]].
    + destruct e as [s| | | | |]; discriminate.
    + intros w1' H. injection H as -> <-. reflexivity.
    + intros y w1' H. discriminate.
    + intros y w1' H. discriminate.
Qed.

Lemma sync_insales_product_wraps_api_error_witness :
  let t := mkProductTemplate 200 (Some 1) (PInt 8) (PStr "chair") (PBool false) None in
  let w := mkWorld [Run.first] [] [t] [] [] (fun _ => 3%nat)
                   (fun _ _ => mkdec 200 0) 1000
                   (fun _ _ _ _ _ => true) (fun _ _ => []) [] in
  sync_insales_product (fun _ _ => raise ApiError) t w
  = (Raise (Sync (ProductInSalesNotFoundError (PInt 8))), w).
Proof.
  cbv zeta.
  apply (proj1 (proj2 (sync_insales_product_wraps_api_error
                         (fun _ _ => raise ApiError)
                         (mkProductTemplate 200 (Some 1) (PInt 8) (PStr "chair") (PBool false) None)
                         (mkWorld [Run.first] []
                            [mkProductTemplate 200 (Some 1) (PInt 8)
                                               (PStr "chair") (PBool false)
                                               None]
                            [] [] (fun _ => 3%nat) (fun _ _ => mkdec 200 0)
                            1000 (fun _ _ _ _ _ => true) (fun _ _ => []) [])
                         eq_refl eq_refl))).
  reflexivity.
Defined.

(** X12: the single-record actions do nothing, and fetch nothing, for a
    record that is not bound: a variant whose configuration is missing or
    inactive, or that has no remote variant id or no remote product id,
    and a template whose configuration is missing or inactive or that has
    no remote product id.  A missing configuration reads as inactive. *)
Theorem unbound_records_are_not_fetched
        (fetch_variant : Config -> pyval -> pyval -> M pyval)
        (fetch_product : Config -> pyval -> M pyval) w :
  (forall p,
      active (config_of w p) = false
      \/ Py.truthy (insales_sync_variant_id p) = false
      \/ Py.truthy (product_id_of w p) = false ->
      sync_insales_variant fetch_variant p w = (Ok tt, w))
  /\ (forall t,
         active (config_of_template w t) = false
         \/ Py.truthy (insales_sync_product_id t) = false ->
         sync_insales_product fetch_product t w = (Ok tt, w))
  /\ (forall p,
         find (fun t => tmpl_id t =? product_tmpl_id p) (templates w) = None ->
         active (config_of w p) = false)
  /\ (forall t,
         insales_sync_config_id t = None ->
         active (config_of_template w t) = false).
Proof.
  split; [|split; [|split]].
  - intros p H. unfold sync_insales_variant.
    unfold bind at 1, gets at 1. unfold bind at 1, gets at 1. cbv beta iota.
    destruct H as [->|[->| ->]]; cbn [negb orb];
      rewrite ?orb_true_r; reflexivity.
  - intros t H. unfold sync_insales_product.
    unfold bind at 1, gets at 1. cbv beta iota.
    destruct H as [->| ->]; cbn [negb orb]; rewrite ?orb_true_r; reflexivity.
  - intros p H. unfold config_of. now rewrite H.
  - intros t H. unfold config_of_template. now rewrite H.
Qed.

(** ** Categories: paths and prefixes *)

Module PathFacts.
Import UpdateCategories.

Lemma prefix_refl s : String.prefix s s = true.
Proof.
  induction s as [|c s IH]; simpl; [reflexivity|].
  destruct (ascii_dec c c); [exact IH | congruence].
Qed.

Lemma prefix_trans a : forall b c,
  String.prefix a b = true -> String.prefix b c = true ->
  String.prefix a c = true.
Proof.
  induction a as [|x a IH]; intros b c H1 H2; [now destruct c|].
  destruct b as [|y b]; simpl in H1; [discriminate|].
  destruct c as [|z c]; simpl in H2; [discriminate|].
  simpl.
  destruct (ascii_dec x y) as [->|]; [|discriminate].
  destruct (ascii_dec y z) as [->|]; [|discriminate].
  eauto.
Qed.

Lemma prefix_append s a b :
  String.prefix (s ++ a) (s ++ b) = String.prefix a b.
Proof.
  induction s as [|c s IH]; simpl; [reflexivity|].
  destruct (ascii_dec c c); [exact IH | congruence].
Qed.

Lemma join_last y l x :
  PyStr.join "/" ((y :: l) ++ [x])
  = (y ++ "/" ++ PyStr.join "/" (l ++ [x]))%string.
Proof. simpl app. destruct l; reflexivity. Qed.

Lemma prefix_join_last l : forall x y,
  String.prefix x y = true ->
  String.prefix (PyStr.join "/" (l ++ [x])) (PyStr.join "/" (l ++ [y])) = true.
Proof.
  induction l as [|s l IH]; intros x y H; [exact H|].
  rewrite !join_last, !prefix_append. now apply IH.
Qed.

Lemma slash_free_digits s : all_digits s = true -> slash_free s = true.
Proof.
  induction s as [|c s IH]; intros H; [reflexivity|].
  cbn [all_digits slash_free] in *. apply andb_true_iff in H.
  destruct H as [Hc Hs].
  now rewrite (Numbers.is_digit_not c "/" Hc eq_refl), (IH Hs).
Qed.

Lemma slash_free_str_of_Z z : slash_free (str_of_Z z) = true.
Proof.
  unfold str_of_Z. destruct (z <? 0).
  - cbn [slash_free]. change (Ascii.eqb "-" "/") with false.
    apply slash_free_digits, Numbers.str_of_nonneg_digits.
  - apply slash_free_digits, Numbers.str_of_nonneg_digits.
Qed.

Lemma nonempty_str_of_Z z : PyStr.nonempty (str_of_Z z) = true.
Proof.
  unfold str_of_Z. destruct (z <? 0); [reflexivity|].
  destruct (Numbers.str_of_nonneg_head z) as (c & s & -> & _). reflexivity.
Qed.

Lemma split_slash_free s :
  slash_free s = true -> PyStr.split "/" s = [s].
Proof.
  induction s as [|c s IH]; intros H; [reflexivity|].
  cbn [slash_free PyStr.split] in *. apply andb_true_iff in H.
  destruct H as [Hc Hs]. apply negb_true_iff in Hc.
  now rewrite Hc, (IH Hs).
Qed.

Lemma split_append s rest :
  slash_free s = true ->
  PyStr.split "/" (s ++ String "/" rest) = s :: PyStr.split "/" rest.
Proof.
  induction s as [|c s IH]; intros H; [reflexivity|].
  cbn [slash_free] in H. apply andb_true_iff in H.
  destruct H as [Hc Hs]. apply negb_true_iff in Hc.
  change (String c s ++ String "/" rest)%string
    with (String c (s ++ String "/" rest)).
  cbn [PyStr.split]. now rewrite Hc, (IH Hs).
Qed.

Lemma split_join l :
  l <> [] -> Forall (fun s => slash_free s = true) l ->
  PyStr.split "/" (PyStr.join "/" l) = l.
Proof.
  induction l as [|x l IH]; intros N F; [congruence|].
  inversion F as [|? ? Hx F']; subst.
  destruct l as [|y l]; [now apply split_slash_free|].
  change (PyStr.join "/" (x :: y :: l))
    with (x ++ String "/" (PyStr.join "/" (y :: l)))%string.
  rewrite (split_append _ _ Hx), IH; [reflexivity | discriminate | exact F'].
Qed.

Lemma filter_nonempty_ids l :
  filter PyStr.nonempty (map str_of_Z l) = map str_of_Z l.
Proof.
  induction l as [|z l IH]; [reflexivity|].
  cbn [map filter]. now rewrite nonempty_str_of_Z, IH.
Qed.

(** The own path of a row whose parent path was made from the ids [l]. *)
Lemma self_path_of_row l r :
  parent_path r = path_str l ->
  ConfigCategory.get_self_path r = path_str (l ++ [insales_id r]).
Proof.
  intros H. unfold ConfigCategory.get_self_path, path_str. rewrite H.
  unfold path_str. rewrite map_app. cbn [map]. f_equal. f_equal.
  destruct l as [|z l]; [reflexivity|].
  rewrite split_join.
  - apply (filter_nonempty_ids (z :: l)).
  - discriminate.
  - apply Forall_forall. intros s Hs. apply in_map_iff in Hs.
    destruct Hs as (k & <- & _). apply slash_free_str_of_Z.
Qed.

Lemma walk_up_step fuel tree curr path :
  walk_up (S fuel) tree curr path
  = match parent_of tree curr with
    | None => Some path
    | Some parent => walk_up fuel tree parent (c_insales_id parent :: path)
    end.
Proof.
  unfold parent_of. cbn [walk_up].
  destruct (c_insales_parent_id curr); reflexivity.
Qed.

Lemma walk_up_acc tree fuel : forall curr path,
  walk_up fuel tree curr path
  = option_map (fun l => l ++ path) (walk_up fuel tree curr []).
Proof.
  induction fuel as [|fuel IH]; intros curr path; [reflexivity|].
  rewrite !walk_up_step. destruct (parent_of tree curr) as [p|];
    [|reflexivity].
  rewrite (IH p (c_insales_id p :: path)), (IH p [c_insales_id p]).
  destruct (walk_up fuel tree p []) as [l|]; [|reflexivity].
  cbn [option_map]. now rewrite <- app_assoc.
Qed.

Lemma tree_get_id tree key c :
  tree_get tree key = Some c -> c_insales_id c = key.
Proof.
  unfold tree_get. intros H. apply find_some in H. lia.
Qed.

End PathFacts.

(** X13: a child lies strictly deeper than its parent (its parent path has
    more characters that are not ["/"]), so no category is its own child or
    its own descendant: the recursion of [write] over children cannot come
    back to a row it started from. *)
Theorem no_category_below_itself t r :
  is_child r r = false
  /\ (forall d, descendant t r d -> (depth r < depth d)%nat)
  /\ ~ descendant t r r.
Proof.
  assert (D : forall d, descendant t r d -> (depth r < depth d)%nat).
  { intros d H. induction H as [c _ Hc | c d _ IH _ Hd].
    - apply CategoryFacts.child_deeper in Hc. lia.
    - apply CategoryFacts.child_deeper in Hd. lia. }
  split; [|split; [exact D|]].
  - destruct (is_child r r) eqn:E; [|reflexivity].
    apply CategoryFacts.child_deeper in E. lia.
  - intros H. apply D in H. lia.
Qed.

Lemma no_category_below_itself_witness :
  (depth (Tree.root true) < depth (Tree.leaf true))%nat.
Proof.
  apply (proj1 (proj2 (no_category_below_itself
                         [Tree.root true; Tree.leaf true] (Tree.root true)))).
  apply descendant_child; [right; now left | reflexivity].
Defined.

(** X14: the children of a category are matched by the prefix of a path
    that does not end in a separator.  So when two categories have the
    same parent path and the id of the first, as printed, is a prefix of
    the id of the second (2 and 23), every child of the second is matched
    as a child of the first; a write on the first with its flag set then
    sets the flag on the children of the second. *)
Theorem sibling_prefix_children a b :
  parent_path a = parent_path b ->
  String.prefix (str_of_Z (insales_id a)) (str_of_Z (insales_id b)) = true ->
  (forall c, is_child b c = true -> is_child a c = true)
  /\ (forall fuel t self values t' c,
         NoDup (map cat_id t) ->
         write fuel t self values = Some t' ->
         In a t' -> In (cat_id a) self -> sync a = true ->
         In c t' -> is_child b c = true -> sync c = true).
Proof.
  intros Hp Hi.
  assert (K : forall c, is_child b c = true -> is_child a c = true).
  { intros c Hc. unfold is_child in *.
    apply (PathFacts.prefix_trans _ (get_self_path b)); [|exact Hc].
    unfold get_self_path. rewrite Hp.
    now apply PathFacts.prefix_join_last. }
  split; [exact K|].
  intros fuel t self values t' c ND HW Ha Hs Sa Hc Hbc.
  apply (CategoryWrite.write_propagated fuel t self values t' ND HW a c Ha Hs Sa).
  apply descendant_child; [exact Hc | now apply K].
Qed.

Lemma sibling_prefix_children_witness :
  is_child (mkCategory 2 1 "Chairs" 2 "1" "Home / Chairs" true)
           (mkCategory 4 1 "Oak" 231 "1/23" "Home / Tables / Oak" false)
  = true.
Proof.
  apply (proj1 (sibling_prefix_children
                  (mkCategory 2 1 "Chairs" 2 "1" "Home / Chairs" true)
                  (mkCategory 3 1 "Tables" 23 "1" "Home / Tables" false)
                  eq_refl eq_refl)).
  reflexivity.
Defined.

(** X15: [update_categories] stores for an entry whose parent is in the
    tree the path of its parent followed by the parent's id, joined with
    ["/"]; this is exactly the own path ([get_self_path]) of the row stored
    for the parent, so the parent's [get_children] matches the row stored
    for the entry. *)
Theorem child_path_is_parent_self_path fuel tree c key parent lp :
  UpdateCategories.c_insales_parent_id c = Some key ->
  UpdateCategories.tree_get tree key = Some parent ->
  UpdateCategories.walk_up fuel tree parent [] = Some lp ->
  UpdateCategories.walk_up (S fuel) tree c [] = Some (lp ++ [key])
  /\ forall prow crow,
       insales_id prow = UpdateCategories.c_insales_id parent ->
       parent_path prow = UpdateCategories.path_str lp ->
       UpdateCategories.materialized_parent_path (S fuel) tree c
       = Some (get_self_path prow)
       /\ (Some (parent_path crow)
           = UpdateCategories.materialized_parent_path (S fuel) tree c ->
           is_child prow crow = true).
Proof.
  intros Hk Hg Hw.
  pose proof (PathFacts.tree_get_id _ _ _ Hg) as Hid.
  assert (W : UpdateCategories.walk_up (S fuel) tree c [] = Some (lp ++ [key])).
  { rewrite PathFacts.walk_up_step. unfold UpdateCategories.parent_of.
    rewrite Hk, Hg, PathFacts.walk_up_acc, Hw, Hid. reflexivity. }
  split; [exact W|].
  intros prow crow Hi Hpp.
  assert (E : UpdateCategories.materialized_parent_path (S fuel) tree c
              = Some (get_self_path prow)).
  { unfold UpdateCategories.materialized_parent_path. rewrite W.
    cbn [option_map]. rewrite (PathFacts.self_path_of_row lp prow Hpp).
    now rewrite Hi, Hid. }
  split; [exact E|].
  intros Hc. rewrite E in Hc. injection Hc as Hc.
  unfold is_child. rewrite Hc. apply PathFacts.prefix_refl.
Qed.

Lemma child_path_is_parent_self_path_witness :
  UpdateCategories.materialized_parent_path
    3
    [UpdateCategories.mkCat 1 None (PStr "Home");
     UpdateCategories.mkCat 23 (Some 1) (PStr "Tables");
     UpdateCategories.mkCat 231 (Some 23) (PStr "Oak")]
    (UpdateCategories.mkCat 231 (Some 23) (PStr "Oak"))
  = Some (get_self_path (mkCategory 3 1 "Tables" 23 "1" "Home / Tables" false)).
Proof.
  apply (proj2 (child_path_is_parent_self_path
                  2
                  [UpdateCategories.mkCat 1 None (PStr "Home");
                   UpdateCategories.mkCat 23 (Some 1) (PStr "Tables");
                   UpdateCategories.mkCat 231 (Some 23) (PStr "Oak")]
                  (UpdateCategories.mkCat 231 (Some 23) (PStr "Oak"))
                  23 (UpdateCategories.mkCat 23 (Some 1) (PStr "Tables")) [1]
                  eq_refl eq_refl eq_refl)
               (mkCategory 3 1 "Tables" 23 "1" "Home / Tables" false)
               (mkCategory 4 1 "Oak" 231 "1/23" "Home / Tables / Oak" false)
               eq_refl eq_refl).
Defined.

Lemma walk_up_frames_from tree n : forall c path l,
  UpdateCategories.walk_up n tree c path = Some l ->
  exists anc,
    l = anc ++ path /\ (List.length anc < n)%nat
    /\ forall frames,
         ((List.length anc < frames)%nat ->
          UpdateCategories.walk_up frames tree c path = Some l)
         /\ ((frames <= List.length anc)%nat ->
             UpdateCategories.walk_up frames tree c path = None).
Proof.
  induction n as [|n IH]; intros c path l H; [discriminate|].
  rewrite PathFacts.walk_up_step in H.
  destruct (UpdateCategories.parent_of tree c) as [p|] eqn:P.
  - destruct (IH p _ l H) as (anc & -> & Hn & HF).
    exists (anc ++ [UpdateCategories.c_insales_id p]).
    rewrite <- app_assoc. split; [reflexivity|].
    rewrite length_app. cbn [List.length].
    split; [lia|].
    intros [|frames]; (split; [intros Hlt | intros Hle]); try lia;
      try reflexivity.
    + rewrite PathFacts.walk_up_step, P. apply (HF frames). lia.
    + rewrite PathFacts.walk_up_step, P. apply (HF frames). lia.
  - injection H as <-. exists []. split; [reflexivity|].
    split; [simpl; lia|].
    intros [|frames]; (split; [intros Hlt | intros Hle]);
      cbn [List.length] in *; try lia; try reflexivity.
    now rewrite PathFacts.walk_up_step, P.
Qed.

(** X16: [walk_up] takes one frame per ancestor, over the one of its first
    call.  If it returns a path with some number of frames, it returns the
    same path whenever more frames are left than the path is long, and
    raises [RecursionError] whenever no more are left than that: an entry
    with as many ancestors as the recursion limit fails although its tree
    has no cycle, whatever the depth of the caller.  On a tree whose
    parents rank below their children it returns when the frames left
    exceed the rank of the entry. *)
Theorem walk_up_frames tree c :
  (forall n l,
      UpdateCategories.walk_up n tree c [] = Some l ->
      forall frames,
        ((List.length l < frames)%nat ->
         UpdateCategories.walk_up frames tree c [] = Some l)
        /\ ((frames <= List.length l)%nat ->
            UpdateCategories.walk_up frames tree c [] = None)
        /\ ((UpdateCategories.recursion_limit <= List.length l)%nat ->
            (frames <= UpdateCategories.recursion_limit)%nat ->
            UpdateCategories.walk_up frames tree c [] = None))
  /\ (forall rank : UpdateCategories.Cat -> nat,
         (forall c p, UpdateCategories.parent_of tree c = Some p ->
                      (rank p < rank c)%nat) ->
         forall frames,
           (rank c < frames)%nat ->
           exists l,
             UpdateCategories.walk_up frames tree c [] = Some l
             /\ (List.length l <= rank c)%nat
             /\ (UpdateCategories.parent_of tree c = None -> l = [])).
Proof.
  split.
  - intros n l H frames.
    destruct (walk_up_frames_from tree n c [] l H) as (anc & E & _ & HF).
    rewrite app_nil_r in E. subst anc.
    destruct (HF frames) as [H1 H2].
    split; [exact H1|]. split; [exact H2|].
    intros HL Hf. apply H2. lia.
  - intros rank HR frames. revert c.
    induction frames as [|frames IH]; intros c Hf; [lia|].
    rewrite PathFacts.walk_up_step.
    destruct (UpdateCategories.parent_of tree c) as [p|] eqn:P.
    + pose proof (HR c p P) as Hp.
      destruct (IH p ltac:(lia)) as (l & W & L & _).
      rewrite PathFacts.walk_up_acc, W. cbn [option_map].
      exists (l ++ [UpdateCategories.c_insales_id p]).
      split; [reflexivity|]. split; [|discriminate].
      rewrite length_app. simpl. lia.
    + exists []. repeat split. simpl. lia.
Qed.

(** A chain of 1200 categories: the last has 1199 ancestors, and its path
    is out of reach of a recursion limit of 1000. *)
Lemma walk_up_frames_witness :
  UpdateCategories.walk_up
    UpdateCategories.recursion_limit (UpdateCategories.chain 1200)
    (UpdateCategories.mkCat 1200 (Some 1199) PNone) []
  = None.
Proof.
  apply (proj2 (proj2 (proj1 (walk_up_frames
                                (UpdateCategories.chain 1200)
                                (UpdateCategories.mkCat 1200 (Some 1199) PNone))
                             1200%nat (map Z.of_nat (seq 1 1199))
                             ltac:(vm_compute; reflexivity)
                             UpdateCategories.recursion_limit))).
  - apply Nat.leb_le. vm_compute. reflexivity.
  - apply Nat.le_refl.
Defined.

(** X17: on remote categories whose parent ids form a cycle, [walk_up]
    never returns: from an entry of a set of entries that all have their
    parent in the set, the recursion runs out of any bound. *)
Theorem walk_up_cycle tree (looping : UpdateCategories.Cat -> Prop) :
  (forall c, looping c ->
             exists p, UpdateCategories.parent_of tree c = Some p /\ looping p) ->
  forall fuel c path,
    looping c -> UpdateCategories.walk_up fuel tree c path = None.
Proof.
  intros HL fuel. induction fuel as [|fuel IH]; intros c path Hc;
    [reflexivity|].
  rewrite PathFacts.walk_up_step.
  destruct (HL c Hc) as (p & -> & Hp). now apply IH.
Qed.

Lemma walk_up_cycle_witness :
  UpdateCategories.walk_up
    1000
    [UpdateCategories.mkCat 1 (Some 2) (PStr "Home");
     UpdateCategories.mkCat 2 (Some 1) (PStr "Chairs")]
    (UpdateCategories.mkCat 1 (Some 2) (PStr "Home")) []
  = None.
Proof.
  apply (walk_up_cycle
           [UpdateCategories.mkCat 1 (Some 2) (PStr "Home");
            UpdateCategories.mkCat 2 (Some 1) (PStr "Chairs")]
           (fun c => c = UpdateCategories.mkCat 1 (Some 2) (PStr "Home")
                     \/ c = UpdateCategories.mkCat 2 (Some 1) (PStr "Chairs"))).
  - intros c [->| ->].
    + exists (UpdateCategories.mkCat 2 (Some 1) (PStr "Chairs")).
      split; [reflexivity | now right].
    + exists (UpdateCategories.mkCat 1 (Some 2) (PStr "Home")).
      split; [reflexivity | now left].
  - now left.
Defined.

(** ** The flags of a template *)

Module FlagFacts.
Import TemplateFlags.

Lemma variants_after_set (set : bool -> ProductProduct -> ProductProduct)
      k value l :
  (forall v p, product_tmpl_id (set v p) = product_tmpl_id p) ->
  filter (fun p => product_tmpl_id p =? k)
         (map (fun p => if product_tmpl_id p =? k then set value p else p) l)
  = map (set value) (filter (fun p => product_tmpl_id p =? k) l).
Proof.
  intros HS. induction l as [|p l IH]; [reflexivity|].
  cbn [map filter]. destruct (product_tmpl_id p =? k) eqn:E.
  - rewrite HS, E. cbn [map]. now rewrite IH.
  - rewrite E. exact IH.
Qed.

Lemma round_trip (get : ProductProduct -> bool)
      (set : bool -> ProductProduct -> ProductProduct) :
  (forall v p, get (set v p) = v) ->
  (forall v p, product_tmpl_id (set v p) = product_tmpl_id p) ->
  flag_round_trip (compute_from_variant get) (set_on_variant set).
Proof.
  intros HG HS w template value self Hin. split.
  - intros H1. unfold set_on_variant. rewrite H1.
    set (w' := set_products _ w).
    assert (V : product_variant_ids w' template
                = map (set value) (product_variant_ids w template)).
    { unfold product_variant_ids, w'. cbn [set_products products].
      now apply variants_after_set. }
    unfold has_one_variant in H1.
    destruct (product_variant_ids w template) as [|p0 [|p1 l]] eqn:P;
      try discriminate.
    cbn [map] in V.
    unfold compute_from_variant. apply in_or_app. left.
    apply in_map_iff. exists template. split.
    + rewrite V. now rewrite HG.
    + apply filter_In. split; [exact Hin|].
      unfold has_one_variant. now rewrite V.
  - intros H0. split.
    + unfold set_on_variant. now rewrite H0.
    + unfold compute_from_variant. apply in_or_app. right.
      apply in_map_iff. exists template. split; [reflexivity|].
      apply filter_In. split; [exact Hin|]. now rewrite H0.
Qed.

End FlagFacts.

(** X18: for each of the three skip flags, a value set on a template with
    exactly one variant is stored on that variant and is what the compute
    method then assigns to the template; on a template with no variant or
    several the inverse method changes nothing and the compute method
    assigns [False], so the value set is lost. *)
Theorem template_flags_round_trip :
  TemplateFlags.flag_round_trip TemplateFlags._compute_insales_sync_skip_price
                                TemplateFlags._set_insales_sync_skip_price
  /\ TemplateFlags.flag_round_trip TemplateFlags._compute_insales_sync_skip_qty
                                   TemplateFlags._set_insales_sync_skip_qty
  /\ TemplateFlags.flag_round_trip TemplateFlags._compute_insales_sync_skip_weight
                                   TemplateFlags._set_insales_sync_skip_weight.
Proof.
  split; [|split]; apply FlagFacts.round_trip; reflexivity.
Qed.

Lemma template_flags_round_trip_witness :
  In (200, true)
     (TemplateFlags._compute_insales_sync_skip_qty
        (TemplateFlags._set_insales_sync_skip_qty
           (mkProductTemplate 200 None PNone PNone (PBool false) None) true (Run.world false))
        [mkProductTemplate 200 None PNone PNone (PBool false) None;
         mkProductTemplate 201 None PNone PNone (PBool false) None]).
Proof.
  apply (proj1 (proj1 (proj2 template_flags_round_trip)
                      (Run.world false)
                      (mkProductTemplate 200 None PNone PNone (PBool false) None) true
                      [mkProductTemplate 200 None PNone PNone (PBool false) None;
                       mkProductTemplate 201 None PNone PNone (PBool false) None]
                      (or_introl eq_refl))).
  reflexivity.
Defined.

(** ** The categories a configuration run requests *)

Lemma trace_grows_products cfg l w :
  exists evs,
    trace (snd (for_each l (process_insales_product cfg) w)) = trace w ++ evs.
Proof.
  destruct (stops_for_each l (process_insales_product cfg)
              (stops_process_insales_product cfg) w) as (evs & T & _).
  now exists evs.
Qed.

Lemma category_loop_requests cfg ids : forall w w',
  for_each ids
    (fun category_id =>
       emit (ApiGetProducts (cfg_id cfg) category_id) ;;
       in_products <- gets (fun w => get_products w (cfg_id cfg) category_id) ;;
       for_each in_products (process_insales_product cfg)) w
  = (Ok tt, w') ->
  (exists evs, trace w' = trace w ++ evs)
  /\ forall id, In id ids -> In (ApiGetProducts (cfg_id cfg) id) (trace w').
Proof.
  induction ids as [|x ids IH]; intros w w' H.
  - injection H as <-. split; [exists []; now rewrite app_nil_r|].
    intros id [].
  - cbn [for_each] in H. unfold bind at 1 in H.
    match type of H with
    | context [match ?m w with _ => _ end] => destruct (m w) as [[[]|e] w1] eqn:B
    end; [|discriminate].
    destruct (IH _ _ H) as ((evs2 & T2) & I2).
    unfold bind, emit, gets in B. cbv beta iota in B.
    match type of B with
    | for_each ?l _ ?w0 = _ =>
        destruct (trace_grows_products cfg l w0) as (evs1 & T1)
    end.
    rewrite B in T1. cbn [snd add_event trace] in T1.
    split.
    + exists ([ApiGetProducts (cfg_id cfg) x] ++ evs1 ++ evs2).
      rewrite T2, T1, <- !app_assoc. reflexivity.
    + intros id [<-|Hid]; [|now apply I2].
      rewrite T2, T1. apply in_or_app. left. apply in_or_app. left.
      apply in_or_app. right. now left.
Qed.

(** X19: a run of [sync_configuration] that completes has requested the
    products of every category of the mirror whose flag is set after
    [update_categories], whichever configuration the category belongs to:
    the search for the synchronised categories is made on the model, not
    on the categories of the configuration. *)
Theorem every_synced_category_is_requested
        (update_categories : Config -> M unit) cfg w :
  active cfg = true ->
  fst (sync_configuration update_categories cfg w) = Ok tt ->
  forall c,
    In c (categories (snd (update_categories cfg w))) ->
    sync c = true ->
    In (ApiGetProducts (cfg_id cfg) (insales_id c))
       (trace (snd (sync_configuration update_categories cfg w))).
Proof.
  intros Ha HR c Hc Hs. unfold sync_configuration in *.
  rewrite Ha in *. cbn [negb] in *.
  unfold bind at 1 in HR. unfold bind at 1.
  destruct (update_categories cfg w) as [[[]|e] w1]; [|discriminate].
  cbn [snd] in Hc.
  unfold bind at 1 in HR. unfold bind at 1.
  unfold gets at 1 in HR. unfold gets at 1. cbv beta iota in *.
  match goal with
  | |- context [for_each ?l ?body w1] =>
      destruct (for_each l body w1) as [r w'] eqn:L
  end.
  cbn [fst snd] in *. subst r.
  apply (proj2 (category_loop_requests cfg _ _ _ L)).
  apply in_map. apply filter_In. split; assumption.
Qed.

Lemma every_synced_category_is_requested_witness :
  In (ApiGetProducts 2 5)
     (trace (snd (sync_configuration Run.update_categories Run.second
                                     (Run.world false)))).
Proof.
  apply (every_synced_category_is_requested
           Run.update_categories Run.second (Run.world false)
           eq_refl eq_refl
           (mkCategory 1 1 "Furniture" 5 "" "Furniture" true)
           (or_introl eq_refl) eq_refl).
Defined.

(** ** The cron entry point *)

Lemma for_each_app {A : Type} (l1 l2 : list A) (body : A -> M unit) w :
  for_each (l1 ++ l2) body w
  = match for_each l1 body w with
    | (Ok _, w1) => for_each l2 body w1
    | (Raise e, w1) => (Raise e, w1)
    end.
Proof.
  revert w. induction l1 as [|x l1 IH]; intros w; [reflexivity|].
  cbn [app for_each]. unfold bind.
  destruct (body x w) as [[a|e] w1]; [apply IH | reflexivity].
Qed.

(** X20: [cron_do] runs the active configurations one after the other
    with no handler between them: when the run of one configuration ends
    in an exception, of whatever kind, [cron_do] ends in that exception at
    that state, and the active configurations after it are not run. *)
Theorem failed_configuration_stops_cron
        (update_categories : Config -> M unit) w l1 cfg l2 w1 e w2 :
  filter active (configs w) = l1 ++ cfg :: l2 ->
  for_each l1 (sync_configuration update_categories) w = (Ok tt, w1) ->
  sync_configuration update_categories cfg w1 = (Raise e, w2) ->
  cron_do update_categories w = (Raise e, w2).
Proof.
  intros Hl H1 H2. unfold cron_do, bind, gets. rewrite Hl, for_each_app, H1.
  cbn [for_each]. unfold bind. now rewrite H2.
Qed.

Lemma failed_configuration_stops_cron_witness :
  fst (cron_do Run.update_categories (Run.world true)) = Raise ApiError
  /\ Forall (fun e => match e with
                      | ApiGetProducts cfg _ => cfg =? 1
                      | _ => true
                      end = true)
            (trace (snd (cron_do Run.update_categories (Run.world true)))).
Proof.
  rewrite (failed_configuration_stops_cron
             Run.update_categories (Run.world true) [] Run.first [Run.second]
             (Run.world true) ApiError
             (snd (sync_configuration Run.update_categories Run.first
                                      (Run.world true)))
             eq_refl eq_refl eq_refl).
  split; [reflexivity|]. vm_compute. repeat constructor.
Defined.

(** ** A configuration in the test environment *)

Lemma pushes_nothing_logs_only {A : Type} cfg (m : M A) :
  logs_only m -> pushes_nothing cfg m.
Proof.
  intros H w Hw. destruct (H w) as (evs & -> & L). split.
  - unfold test_rows. now rewrite configs_add_events.
  - exists evs. split; [apply trace_add_events | now apply logs_are_not_updates].
Qed.

Lemma pushes_nothing_bind {A B : Type} cfg (m : M A) (f : A -> M B) :
  pushes_nothing cfg m -> (forall a, pushes_nothing cfg (f a)) ->
  pushes_nothing cfg (bind m f).
Proof.
  intros Hm Hf w Hw. unfold bind.
  destruct (Hm w Hw) as (C1 & evs1 & T1 & U1).
  destruct (m w) as [[a|e] w1]; cbn [snd] in *.
  - destruct (Hf a w1 C1) as (C2 & evs2 & T2 & U2).
    split; [exact C2|]. exists (evs1 ++ evs2).
    split; [now rewrite T2, T1, app_assoc | now apply Forall_app].
  - split; [exact C1|]. now exists evs1.
Qed.

Lemma pushes_nothing_try {A : Type} cfg (body : M A) catches handler :
  pushes_nothing cfg body -> (forall e, pushes_nothing cfg (handler e)) ->
  pushes_nothing cfg (try_except body catches handler).
Proof.
  intros Hb Hh w Hw. unfold try_except.
  destruct (Hb w Hw) as (C1 & evs1 & T1 & U1).
  destruct (body w) as [[a|e] w1]; cbn [snd] in *.
  - split; [exact C1|]. now exists evs1.
  - destruct (catches e).
    + destruct (Hh e w1 C1) as (C2 & evs2 & T2 & U2).
      split; [exact C2|]. exists (evs1 ++ evs2).
      split; [now rewrite T2, T1, app_assoc | now apply Forall_app].
    + split; [exact C1|]. now exists evs1.
Qed.

Lemma pushes_nothing_for_each {A : Type} cfg (l : list A) (body : A -> M unit) :
  (forall x, pushes_nothing cfg (body x)) -> pushes_nothing cfg (for_each l body).
Proof.
  intros Hb. induction l as [|x l IH]; cbn [for_each].
  - apply pushes_nothing_logs_only, logs_only_ret.
  - apply pushes_nothing_bind; [apply Hb | intros _; exact IH].
Qed.

(** A call keeps the configuration table. *)
Lemma test_run_configs p v w :
  configs (snd (process_insales_variant p v w)) = configs w.
Proof.
  destruct (logs_only_collect p v w) as (evs & E & _).
  destruct (collect_modifiers p v w) as [[mods|e] w1] eqn:C;
    simpl in E; subst w1.
  - destruct mods as [|m mods].
    + rewrite (process_variant_no_mods _ _ _ _ C).
      cbn [write_variant_link snd add_event set_products configs].
      apply configs_add_events.
    + destruct (prod_environment (config_of w p)) eqn:Env.
      * destruct (build_data (m :: mods) []) as [data|e] eqn:B.
        -- pose proof (process_variant_prod _ _ _ _ _ data C
                         ltac:(discriminate) Env B) as R.
           cbv zeta in R. rewrite R.
           destruct (update_fails _ _ _ _ _ _);
             cbn [write_variant_link snd add_event set_products configs];
             apply configs_add_events.
        -- rewrite (process_variant_bad_payload _ _ _ _ _ e C
                      ltac:(discriminate) Env B).
           cbn [snd add_event configs]. apply configs_add_events.
      * rewrite (process_variant_test _ _ _ _ _ C ltac:(discriminate) Env).
        cbn [write_variant_link snd add_event set_products configs].
        apply configs_add_events.
  - rewrite (process_variant_raise _ _ _ _ _ C).
    cbn [snd]. apply configs_add_events.
Qed.

Lemma linked_variant_is_test cfg p a b w :
  test_rows cfg w ->
  prod_environment (config_of (snd (write_template_link p cfg a b w)) p) = false.
Proof.
  intros Hw. unfold config_of, write_template_link.
  cbn [snd add_event set_templates templates configs].
  rewrite (find_template_updated (product_tmpl_id p)
             (fun t => mkProductTemplate (tmpl_id t) (Some (cfg_id cfg)) a b
                                         (tmpl_variant_id t) (tmpl_timestamp t)))
    by reflexivity.
  destruct (find _ (templates w)) as [t|]; [|reflexivity].
  cbn [option_map insales_sync_config_id].
  destruct (find _ (configs w)) as [c|] eqn:F; [|reflexivity].
  apply find_some in F. destruct F as [Hc Hid].
  apply (Hw c Hc). lia.
Qed.

Lemma pushes_nothing_matched cfg p a b v :
  pushes_nothing cfg (write_template_link p cfg a b ;;
                      process_insales_variant p v).
Proof.
  intros w Hw. unfold bind.
  pose proof (linked_variant_is_test cfg p a b w Hw) as Env.
  destruct (write_template_link p cfg a b w) as [[[]|e] w2] eqn:L;
    [|discriminate].
  cbn [snd] in Env.
  assert (T2 : trace w2
               = trace w ++ [OrmWrite "product.template" (product_tmpl_id p)
                               [("insales_sync_config_id", PInt (cfg_id cfg));
                                ("insales_sync_product_id", a);
                                ("insales_sync_permalink", b)]]).
  { unfold write_template_link in L. injection L as <-. reflexivity. }
  assert (C2 : configs w2 = configs w).
  { unfold write_template_link in L. injection L as <-. reflexivity. }
  destruct (test_run_events p v w2 Env) as (evs & T & U).
  split.
  - unfold test_rows. now rewrite test_run_configs, C2.
  - eexists. rewrite T, T2, <- app_assoc. split; [reflexivity|].
    apply Forall_app. split; [repeat constructor | exact U].
Qed.

Lemma pushes_nothing_variant cfg in_product x :
  pushes_nothing cfg (process_variant cfg in_product x).
Proof.
  unfold process_variant. apply pushes_nothing_try.
  - destruct x as [| | | | | |v];
      try (apply pushes_nothing_logs_only, logs_only_raise).
    unfold process_variant_try.
    apply pushes_nothing_bind;
      [apply pushes_nothing_logs_only, logs_only_log | intros _].
    destruct (Py.is_none (Py.get v "sku"));
      [apply pushes_nothing_logs_only, logs_only_raise|].
    apply pushes_nothing_bind;
      [apply pushes_nothing_logs_only, logs_only_gets | intros l].
    destruct l as [|p [|p' l]];
      try (apply pushes_nothing_logs_only, logs_only_raise).
    apply pushes_nothing_matched.
  - intros e. apply pushes_nothing_logs_only, logs_only_log_caught.
Qed.

Lemma pushes_nothing_product cfg in_product :
  pushes_nothing cfg (process_insales_product cfg in_product).
Proof.
  unfold process_insales_product.
  destruct in_product as [| | | | | |d];
    try (apply pushes_nothing_logs_only, logs_only_raise).
  apply pushes_nothing_bind;
    [apply pushes_nothing_logs_only, logs_only_log | intros _].
  apply pushes_nothing_bind;
    [apply pushes_nothing_logs_only, logs_only_lift | intros variants].
  apply pushes_nothing_for_each. intros x. apply pushes_nothing_variant.
Qed.

(** X21: a configuration in the test environment pushes nothing: when the
    row of the configuration table with the id of [cfg] is in the test
    environment, processing any remote product under [cfg], and any
    sequence of products, makes no remote update call, whatever
    configurations the matched variants were bound to before and however
    the run ends. *)
Theorem test_configuration_pushes_nothing cfg w :
  (forall c, In c (configs w) -> cfg_id c = cfg_id cfg ->
             prod_environment c = false) ->
  forall in_products,
  exists evs,
    trace (snd (for_each in_products (process_insales_product cfg) w))
    = trace w ++ evs
    /\ Forall (fun e => is_update_call e = false) evs.
Proof.
  intros Hw in_products.
  apply (pushes_nothing_for_each cfg in_products (process_insales_product cfg)
           (pushes_nothing_product cfg) w Hw).
Qed.

Lemma test_configuration_pushes_nothing_witness :
  exists evs,
    trace (snd (for_each [Run.chair; Run.table]
                  (process_insales_product (Scenario.config false true []))
                  (Scenario.world (Scenario.config false true [])
                                  [Scenario.product (mkdec 25 1)] [] true)))
    = [] ++ evs
    /\ Forall (fun e => is_update_call e = false) evs.
Proof.
  apply (test_configuration_pushes_nothing
           (Scenario.config false true [])
           (Scenario.world (Scenario.config false true [])
                           [Scenario.product (mkdec 25 1)] [] true)).
  intros c [<-|[]] _. reflexivity.
Defined.
